(** * BlazeDock Go linker: manifest reconciliation

    A shallow embedding of [pkg/linker] (LinkGoWorkspace, LinkGoModules,
    linkGoModule, removeBlazedockReplaceRules, addReplace,
    collectReplacements, isBlazedockReplace) together with the part of
    [golang.org/x/mod/modfile] and of the Go standard library that the
    linker calls.  The file system is an explicit map from file names to
    file contents that every operation threads through. *)

From Stdlib Require Import List String Ascii Bool Arith Lia Sorted.
From stdpp Require Import base option gmap strings.
Import ListNotations.
Open Scope string_scope.

(** ** Go's [strings] package, on byte strings *)

Module strings.

Fixpoint HasPrefix (s prefix : string) : bool :=
  match prefix, s with
  | EmptyString, _ => true
  | String _ _, EmptyString => false
  | String b p', String a s' =>
      if Ascii.eqb a b then HasPrefix s' p' else false
  end.

Fixpoint Contains (s substr : string) : bool :=
  if HasPrefix s substr then true
  else match s with
       | EmptyString => false
       | String _ s' => Contains s' substr
       end.

Fixpoint HasSuffix (s suffix : string) : bool :=
  if String.eqb s suffix then true
  else match s with
       | EmptyString => false
       | String _ s' => HasSuffix s' suffix
       end.

Fixpoint drop (n : nat) (s : string) : string :=
  match n, s with
  | O, _ => s
  | S _, EmptyString => EmptyString
  | S n', String _ s' => drop n' s'
  end.

Definition TrimPrefix (s prefix : string) : string :=
  if HasPrefix s prefix then drop (String.length prefix) s else s.

(** [s[:n]]. *)
Fixpoint take (n : nat) (s : string) : string :=
  match n, s with
  | O, _ => EmptyString
  | S _, EmptyString => EmptyString
  | S n', String a s' => String a (take n' s')
  end.

(** [Index]; [None] stands for -1. *)
Fixpoint Index (s substr : string) : option nat :=
  if HasPrefix s substr then Some 0
  else match s with
       | EmptyString => None
       | String _ s' => option_map S (Index s' substr)
       end.

(** The loop of [genSplit] for a separator that is not empty: it cuts
    at each [Index] until there is none.  A turn shortens [s], so that
    [fuel] above the length of [s] is never used up. *)
Fixpoint genSplit (fuel : nat) (s sep : string) : list string :=
  match fuel with
  | O => [s]
  | S fuel' =>
      match Index s sep with
      | None => [s]
      | Some m =>
          take m s :: genSplit fuel' (drop (m + String.length sep) s) sep
      end
  end.

Definition Split (s sep : string) : list string :=
  genSplit (S (String.length s)) s sep.

Fixpoint Join (elems : list string) (sep : string) : string :=
  match elems with
  | [] => EmptyString
  | e :: rest =>
      match rest with
      | [] => e
      | _ :: _ => e ++ sep ++ Join rest sep
      end
  end.

End strings.

(** ** golang.org/x/mod: [module.Version] and the [modfile] syntax

    The linker edits manifests through [golang.org/x/mod/modfile], a
    dependency of the repository.  The functions it calls are restated
    here from that library: [Parse], [ParseWork], [Format], [Cleanup],
    [AddReplace], [DropReplace], [AddNewUse], [DropUse], [SortBlocks]. *)

Module module.
Record Version := mkVersion { Path : string; Version_ : string }.
End module.

#[global] Instance Version_eq_dec : EqDecision module.Version.
Proof. solve_decision. Defined.

Module modfile.

(** [modfile.Comment]. *)
Record Comment := mkComment { Token : string; Suffix : bool }.

(** [modfile.Line].  The tokens of a line are kept parsed: a pair
    (old, new) for a replace line, the directory for a use line.
    [LSuffix] is [Comments.Suffix]. *)
Record Line (T : Type) := mkLine {
  LToken : T;
  InBlock : bool;
  LSuffix : list Comment
}.
Arguments mkLine {T}.
Arguments LToken {T}.
Arguments InBlock {T}.
Arguments LSuffix {T}.

Definition ReplaceLine := Line (module.Version * module.Version).
Definition UseLine := Line string.

(** [modfile.Replace]; [Syntax = None] is the nil pointer left by
    [markRemoved] followed by [*r = Replace{}]. *)
Record Replace := mkReplace {
  Old : module.Version;
  New : module.Version;
  Syntax : option ReplaceLine
}.

Definition zeroVersion : module.Version := module.mkVersion "" "".
Definition zeroReplace : Replace := mkReplace zeroVersion zeroVersion None.

(** [modfile.File], restricted to what the linker reads and edits:
    the module path, the replace directives, and the other directives,
    carried along untouched.  One list stands for both [f.Replace] and
    the replace lines of [f.Syntax], in the order of [f.Replace]. *)
Record File := mkFile {
  ModPath : string;
  Replace_ : list Replace;
  Other : list string
}.

Definition withReplace (f : File) (rs : list Replace) : File :=
  mkFile (ModPath f) rs (Other f).

Definition sameKey (r : Replace) (oldPath oldVers : string) : bool :=
  String.eqb (module.Path (Old r)) oldPath
  && String.eqb (module.Version_ (Old r)) oldVers.

Definition dropReplace (rs : list Replace) (oldPath oldVers : string)
  : list Replace :=
  map (fun r => if sameKey r oldPath oldVers then zeroReplace else r) rs.

(** [File.DropReplace]: every entry with that exact key is zeroed in
    place; the slice keeps its length until [Cleanup]. *)
Definition DropReplace (f : File) (oldPath oldVers : string) : File :=
  withReplace f (dropReplace (Replace_ f) oldPath oldVers).

Definition updateLine (l : option ReplaceLine) (old new : module.Version)
  : option ReplaceLine :=
  match l with
  | Some ln => Some (mkLine (old, new) (InBlock ln) (LSuffix ln))
  | None => None
  end.

(** The condition of the loop of modfile's [addReplace],
    [r.Old.Path == oldPath && (oldVers == "" || r.Old.Version == oldVers)]:
    an empty [oldVers] matches every version of [oldPath]. *)
Definition hits (r : Replace) (old : module.Version) : bool :=
  String.eqb (module.Path (Old r)) (module.Path old)
  && (String.eqb (module.Version_ old) ""
      || String.eqb (module.Version_ (Old r)) (module.Version_ old)).

(** The loop itself: the first hit gets the new target and the new
    tokens (its [Old] is left as it was), later hits are zeroed. *)
Fixpoint addReplaceLoop (rs : list Replace) (old new : module.Version)
  (need : bool) : list Replace * bool :=
  match rs with
  | [] => ([], need)
  | r :: rest =>
      let r' := if hits r old
                then if need
                     then mkReplace (Old r) new (updateLine (Syntax r) old new)
                     else zeroReplace
                else r in
      let '(rest', need') :=
        addReplaceLoop rest old new (if hits r old then false else need) in
      (r' :: rest', need')
  end.

Definition addReplace (rs : list Replace) (old new : module.Version)
  : list Replace :=
  let '(rs', need) := addReplaceLoop rs old new true in
  if need
  then rs' ++ [mkReplace old new (Some (mkLine (old, new) false []))]
  else rs'.

(** [File.AddReplace]. *)
Definition AddReplace (f : File) (oldPath oldVers newPath newVers : string)
  : File :=
  withReplace f (addReplace (Replace_ f) (module.mkVersion oldPath oldVers)
                                         (module.mkVersion newPath newVers)).

(** [File.Cleanup]: the lines marked removed leave the syntax tree
    (and the zeroed entries leave [f.Replace], which nothing reads
    afterwards). *)
Definition live (r : Replace) : bool :=
  match Syntax r with Some _ => true | None => false end.

Definition Cleanup (f : File) : File :=
  withReplace f (filter (fun r => live r = true) (Replace_ f)).

(** *** Text of a manifest

    A file on disk is kept at the level of its directives: what
    [Format] prints of a line is its tokens and its suffix comments. *)
Record Text (T : Type) := mkText { TTok : T; TSuffix : list string }.
Arguments mkText {T}.
Arguments TTok {T}.
Arguments TSuffix {T}.

Definition parseLine {T} (t : Text T) : Line T :=
  mkLine (TTok t) false (map (fun c => mkComment c true) (TSuffix t)).

Definition formatLine {T} (l : Line T) : Text T :=
  mkText (LToken l) (map Token (LSuffix l)).

Record ModText := mkModText {
  MTModule : string;
  MTReplace : list (Text (module.Version * module.Version));
  MTOther : list string
}.

(** [modfile.Parse] on a well-formed go.mod. *)
Definition parseMod (t : ModText) : File :=
  mkFile (MTModule t)
    (map (fun x => mkReplace (fst (TTok x)) (snd (TTok x)) (Some (parseLine x)))
         (MTReplace t))
    (MTOther t).

(** [File.Format]. *)
Definition FormatMod (f : File) : ModText :=
  mkModText (ModPath f)
    (omap (fun r => formatLine <$> Syntax r) (Replace_ f))
    (Other f).

(** *** go.work *)

(** [modfile.Use]. *)
Record Use := mkUse {
  UPath : string;
  ModulePath : string;
  USyntax : option UseLine
}.

Definition zeroUse : Use := mkUse "" "" None.

(** [modfile.WorkFile]: the use directives, and the rest. *)
Record WorkFile := mkWorkFile {
  Use_ : list Use;
  WOther : list string
}.

(** [WorkFile.DropUse]. *)
Definition DropUse (f : WorkFile) (path : string) : WorkFile :=
  mkWorkFile
    (map (fun u => if String.eqb (UPath u) path then zeroUse else u) (Use_ f))
    (WOther f).

(** [WorkFile.AddNewUse]: a new line, with no look at the present
    ones. *)
Definition AddNewUse (f : WorkFile) (diskPath modulePath : string)
  : WorkFile :=
  mkWorkFile
    (Use_ f ++ [mkUse diskPath modulePath (Some (mkLine diskPath false []))])
    (WOther f).

Definition liveUse (u : Use) : bool :=
  match USyntax u with Some _ => true | None => false end.

(** [WorkFile.Cleanup], as [Cleanup] above. *)
Definition CleanupWork (f : WorkFile) : WorkFile :=
  mkWorkFile (filter (fun u => liveUse u = true) (Use_ f)) (WOther f).

(** [WorkFile.SortBlocks] sorts the lines inside each block of the
    syntax tree.  The blocks are below this model, so a [SortBlocks]
    is taken as given; what is known of it is that it rearranges the
    use lines and neither adds nor loses one.  [Use_] of its result
    stands for the use lines in the order of the syntax tree, the
    order in which [Format] prints them. *)
Definition sortsBlocks (SortBlocks : WorkFile -> WorkFile) : Prop :=
  forall f, Permutation (Use_ (SortBlocks f)) (Use_ f).

Record WorkText := mkWorkText {
  WTUse : list (Text string);
  WTOther : list string
}.

(** [modfile.ParseWork] on a well-formed go.work. *)
Definition parseWork (t : WorkText) : WorkFile :=
  mkWorkFile (map (fun x => mkUse (TTok x) "" (Some (parseLine x))) (WTUse t))
             (WTOther t).

(** [modfile.Format] of a work file: the use lines in the order of the
    syntax tree, which is that of [Use_] once [SortBlocks] has run. *)
Definition FormatWork (f : WorkFile) : WorkText :=
  mkWorkText (omap (fun u => formatLine <$> USyntax u) (Use_ f)) (WOther f).

End modfile.

(** ** Errors, results, the file system *)

Inductive error :=
| ErrNotExist (name : string)
| ErrParse (name : string)
| ErrNotGoWorkspace (name : string)
| ErrRel (base targ : string)
| ErrForeignReplace (old : module.Version).

Inductive result (A : Type) :=
| Ok (a : A)
| Err (e : error).
Arguments Ok {A}.
Arguments Err {A}.

Definition bind {A B} (r : result A) (k : A -> result B) : result B :=
  match r with
  | Ok a => k a
  | Err e => Err e
  end.

#[global] Instance result_bind : MBind result := fun A B k r => bind r k.

Definition isErr {A} (r : result A) : bool :=
  match r with Ok _ => false | Err _ => true end.

(** What a file holds: the text of a go.mod that [modfile.Parse]
    accepts, the text of a go.work that [modfile.ParseWork] accepts, or
    bytes that neither accepts. *)
Inductive Content :=
| ModContent (t : modfile.ModText)
| WorkContent (t : modfile.WorkText)
| Unparsable (raw : string).

(** The files of the machine. *)
Abbreviation Files := (gmap string Content).

Module os.

Definition Stat (fs : Files) (name : string) : result unit :=
  match fs !! name with
  | Some _ => Ok tt
  | None => Err (ErrNotExist name)
  end.

Definition ReadFile (fs : Files) (name : string) : result Content :=
  match fs !! name with
  | Some c => Ok c
  | None => Err (ErrNotExist name)
  end.

Definition WriteFile (fs : Files) (name : string) (c : Content) : Files :=
  <[name := c]> fs.

End os.

(** [modfile.Parse] and [modfile.ParseWork] on the content of a file.
    What [Format] prints for a file that was parsed and then edited is
    taken to be a text that parses again.  [Parse] is strict where
    [AddReplace] checks nothing (a replacement without a version has
    to be a directory path), so a property of a run that reads a
    manifest which a linking wrote has the success of that run for
    hypothesis. *)
Definition Parse (name : string) (c : Content) : result modfile.File :=
  match c with
  | ModContent t => Ok (modfile.parseMod t)
  | _ => Err (ErrParse name)
  end.

Definition ParseWork (name : string) (c : Content) : result modfile.WorkFile :=
  match c with
  | WorkContent t => Ok (modfile.parseWork t)
  | _ => Err (ErrParse name)
  end.

(** ** The linker *)

Inductive blazedockReplaceType :=
| blazedockReplaceDirect
| blazedockReplaceIndirect
| blazedockReplaceIgnore.

#[global] Instance blazedockReplaceType_eq_dec : EqDecision blazedockReplaceType.
Proof. solve_decision. Defined.

(** The loop of [isBlazedockReplace] over [rep.Suffix]. *)
Fixpoint scanSuffix (cs : list modfile.Comment) : bool * blazedockReplaceType :=
  match cs with
  | [] => (false, blazedockReplaceDirect)
  | c :: rest =>
      if strings.Contains (modfile.Token c) "blazedock" then
        (true,
         if strings.Contains (modfile.Token c) " indirect "
         then blazedockReplaceIndirect
         else if strings.Contains (modfile.Token c) " ignore "
              then blazedockReplaceIgnore
              else blazedockReplaceDirect)
      else scanSuffix rest
  end.

Definition isBlazedockReplace {T} (rep : option (modfile.Line T))
  : bool * blazedockReplaceType :=
  match rep with
  | None => (false, blazedockReplaceIgnore)
  | Some l => scanSuffix (modfile.LSuffix l)
  end.

(** A [for i := range] loop over a slice of pointers whose length is
    fixed when the loop starts: the body reads the cell [i] of the
    state as it is when its turn comes. *)
Fixpoint rangeFrom {A} (body : nat -> A -> result A) (i n : nat) (a : A)
  : result A :=
  match n with
  | O => Ok a
  | S n' => a' ← body i a; rangeFrom body (S i) n' a'
  end.

Fixpoint foldM {A B} (f : A -> B -> result A) (l : list B) (a : A)
  : result A :=
  match l with
  | [] => Ok a
  | b :: l' => a' ← f a b; foldM f l' a'
  end.

(** [sort.Slice] and [sort.Strings], as an insertion sort (that keeps
    the order of equal elements; Go promises no order among them). *)
Fixpoint insertBy {A} (less : A -> A -> bool) (x : A) (l : list A) : list A :=
  match l with
  | [] => [x]
  | y :: l' => if less y x then y :: insertBy less x l' else x :: y :: l'
  end.

Definition sortBy {A} (less : A -> A -> bool) (l : list A) : list A :=
  fold_right (insertBy less) [] l.

(** [pkg/blazedock]: what the linker reads of a package and of a
    workspace.  [Packages] is a Go map; the list is its entries in the
    order an iteration meets them. *)
Inductive PackageType :=
| GoPackage
| OtherPackage (kind : string).

#[warnings="-register-all"]
Inductive Package := mkPackage {
  FullName : string;
  Type_ : PackageType;
  COrigin : string;
  Sources : list string;
  GetTransitiveDependencies : list Package
}.

Record Workspace := mkWorkspace {
  Origin : string;
  Packages : list (string * Package)
}.

Definition isGo (t : PackageType) : bool :=
  match t with GoPackage => true | OtherPackage _ => false end.

Record goModule := mkGoModule {
  Name : string;
  OriginPath : string;
  OriginPackage : string;
  Replacements : list modfile.Replace
}.

(** The first source whose name ends in go.mod, or the empty string. *)
Fixpoint findGoMod (sources : list string) : string :=
  match sources with
  | [] => ""
  | f :: rest => if strings.HasSuffix f "go.mod" then f else findGoMod rest
  end.

(** The test [ok && tpe != blazedockReplaceIgnore] of [addReplace]; the
    teardown loop continues on its negation. *)
Definition owned {T} (rep : option (modfile.Line T)) : bool :=
  let '(ok, tpe) := isBlazedockReplace rep in
  ok && negb (bool_decide (tpe = blazedockReplaceIgnore)).

Definition keyIs (r : modfile.Replace) (old : module.Version) : bool :=
  modfile.sameKey r (module.Path old) (module.Version_ old).

Definition modifyGoMod (fs : Files) (dst : Package)
  (mod_ : string -> modfile.File -> result modfile.File)
  : Files * option error :=
  let goModFn := findGoMod (Sources dst) in
  if String.eqb goModFn "" then (fs, Some (ErrNotExist "go.mod"))
  else
    match (fc ← os.ReadFile fs goModFn;
           gomod ← Parse goModFn fc;
           mod_ goModFn gomod) with
    | Err e => (fs, Some e)
    | Ok gomod =>
        (os.WriteFile fs goModFn
           (ModContent (modfile.FormatMod (modfile.Cleanup gomod))), None)
    end.

Definition removeBody (i : nat) (gomod : modfile.File) : result modfile.File :=
  match modfile.Replace_ gomod !! i with
  | None => Ok gomod
  | Some rep =>
      if owned (modfile.Syntax rep)
      then Ok (modfile.DropReplace gomod (module.Path (modfile.Old rep))
                                         (module.Version_ (modfile.Old rep)))
      else Ok gomod
  end.

Definition removeBlazedockReplaceRules (fs : Files) (dst : Package)
  : Files * option error :=
  modifyGoMod fs dst (fun _ gomod =>
    rangeFrom removeBody 0 (length (modfile.Replace_ gomod)) gomod).

(** The first loop of [addReplace]. *)
Definition checkBody (old : module.Version) (i : nat) (gomod : modfile.File)
  : result modfile.File :=
  match modfile.Replace_ gomod !! i with
  | None => Ok gomod
  | Some rep =>
      if negb (keyIs rep old) then Ok gomod
      else if owned (modfile.Syntax rep)
           then Ok (modfile.DropReplace gomod (module.Path old)
                                              (module.Version_ old))
           else Err (ErrForeignReplace old)
  end.

Definition blazedockComment (direct : bool) (source : string) : string :=
  if direct then "// blazedock"
  else "// blazedock" ++ " indirect from " ++ source.

(** The last loop of [addReplace]: the lines of the key are put in a
    block and given the sentinel comment.  (With a non-empty old path
    the entries it meets are those [AddReplace] wrote or kept, whose
    line is there.) *)
Definition annotate (comment : string) (old : module.Version)
  (r : modfile.Replace) : modfile.Replace :=
  if keyIs r old then
    modfile.mkReplace (modfile.Old r) (modfile.New r)
      (match modfile.Syntax r with
       | Some l => Some (modfile.mkLine (modfile.LToken l) true
                           [modfile.mkComment comment true])
       | None => None
       end)
  else r.

Definition addReplace (gomod : modfile.File) (old new : module.Version)
  (direct : bool) (source : string) : result modfile.File :=
  gomod1 ← rangeFrom (checkBody old) 0 (length (modfile.Replace_ gomod)) gomod;
  let gomod2 := modfile.AddReplace gomod1 (module.Path old) (module.Version_ old)
                                   (module.Path new) (module.Version_ new) in
  Ok (modfile.withReplace gomod2
        (map (annotate (blazedockComment direct source) old)
             (modfile.Replace_ gomod2))).

Section Linker.

(** [path/filepath], taken as given. *)
Variable Join : string -> string -> string.
Variable Dir : string -> string.
Variable Rel : string -> string -> option string.

(** [WorkFile.SortBlocks], taken as given. *)
Variable SortBlocks : modfile.WorkFile -> modfile.WorkFile.

Definition linkDirect (goModFN : string) (gomod : modfile.File)
  (m : goModule) : result modfile.File :=
  match Rel (Dir goModFN) (OriginPath m) with
  | None => Err (ErrRel (Dir goModFN) (OriginPath m))
  | Some relpath =>
      addReplace gomod (module.mkVersion (Name m) "")
                 (module.mkVersion relpath "") true (OriginPackage m)
  end.

Definition linkIndirect (gomod : modfile.File) (m : goModule)
  : result modfile.File :=
  foldM (fun g r => addReplace g (modfile.Old r) (modfile.New r) false
                      (OriginPackage m))
        (Replacements m) gomod.

Definition linkBody (mods : list goModule) (goModFN : string)
  (gomod : modfile.File) : result modfile.File :=
  gomod1 ← foldM (linkDirect goModFN) mods gomod;
  foldM linkIndirect mods gomod1.

Definition linkGoModule (fs : Files) (dst : Package) (mods : list goModule)
  : Files * option error :=
  match removeBlazedockReplaceRules fs dst with
  | (fs1, Some e) => (fs1, Some e)
  | (fs1, None) => modifyGoMod fs1 dst (linkBody mods)
  end.

(** One turn of the loop of [collectReplacements]. *)
Definition collectOne (fs : Files) (mods : gmap string goModule)
  (np : string * Package) : result (gmap string goModule) :=
  let '(n, p) := np in
  if negb (isGo (Type_ p)) then Ok mods
  else
    let goModFn := findGoMod (Sources p) in
    if String.eqb goModFn "" then Ok mods
    else
      fc ← os.ReadFile fs goModFn;
      gomod ← Parse goModFn fc;
      let replace :=
        filter (fun rep => fst (isBlazedockReplace (modfile.Syntax rep)) = false)
               (modfile.Replace_ gomod) in
      Ok (<[n := mkGoModule (modfile.ModPath gomod) (Dir goModFn) n replace]> mods).

(** The two results of the Go function: the map (nil on failure) and
    the error. *)
Definition collectReplacements (fs : Files) (workspace : Workspace)
  : option (gmap string goModule) * option error :=
  match foldM (collectOne fs) (Packages workspace) ∅ with
  | Ok mods => (Some mods, None)
  | Err e => (None, Some e)
  end.

(** The inner loop of [LinkGoModules]: the modules of the Go
    dependencies found in the registry, and the warnings logged for
    those that are not. *)
Fixpoint resolveDeps (mods : gmap string goModule) (deps : list Package)
  : list goModule * list string :=
  match deps with
  | [] => ([], [])
  | dep :: rest =>
      let '(apmods, warns) := resolveDeps mods rest in
      if negb (isGo (Type_ dep)) then (apmods, warns)
      else match mods !! FullName dep with
           | None => (apmods, FullName dep :: warns)
           | Some m => (m :: apmods, warns)
           end
  end.

Definition lessName (a b : goModule) : bool := String.ltb (Name a) (Name b).

Definition skipped (target : option Package) (p : Package) : bool :=
  negb (isGo (Type_ p))
  || match target with
     | Some t => negb (String.eqb (FullName p) (FullName t))
     | None => false
     end.

Fixpoint linkPackages (mods : gmap string goModule) (target : option Package)
  (ps : list (string * Package)) (fs : Files) (log : list string)
  : Files * list string * option error :=
  match ps with
  | [] => (fs, log, None)
  | (_, p) :: rest =>
      if skipped target p then linkPackages mods target rest fs log
      else
        let '(apmods, warns) := resolveDeps mods (GetTransitiveDependencies p) in
        match linkGoModule fs p (sortBy lessName apmods) with
        | (fs', Some e) => (fs', (log ++ warns)%list, Some e)
        | (fs', None) => linkPackages mods target rest fs' (log ++ warns)%list
        end
  end.

(** [LinkGoModules]; the second component is the warnings logged. *)
Definition LinkGoModules (fs : Files) (workspace : Workspace)
  (target : option Package) : Files * list string * option error :=
  match collectReplacements fs workspace with
  | (_, Some e) => (fs, [], Some e)
  | (mods, None) =>
      linkPackages (default ∅ mods) target (Packages workspace) fs []
  end.

(** The first loop of [LinkGoWorkspace]. *)
Definition dropUseBody (i : nat) (workFile : modfile.WorkFile)
  : result modfile.WorkFile :=
  match modfile.Use_ workFile !! i with
  | None => Ok workFile
  | Some use =>
      if fst (isBlazedockReplace (modfile.USyntax use))
      then Ok (modfile.DropUse workFile (modfile.UPath use))
      else Ok workFile
  end.

(** The keys of the map [goModules], one per turn of the loop that
    fills it. *)
Definition goModulePaths (workspace : Workspace) : list string :=
  omap (fun np : string * Package =>
          if isGo (Type_ np.2)
          then Some (strings.TrimPrefix
                       (strings.TrimPrefix (COrigin np.2) (Origin workspace))
                       "/")
          else None)
       (Packages workspace).

Definition inGoModules (workspace : Workspace) (path : string) : bool :=
  existsb (String.eqb path) (goModulePaths workspace).

Definition sortedPaths (workspace : Workspace) : list string :=
  sortBy String.ltb (remove_dups (goModulePaths workspace)).

(** The loop that marks the use lines of the Go modules. *)
Definition markUse (workspace : Workspace) (use : modfile.Use) : modfile.Use :=
  if inGoModules workspace (modfile.UPath use) then
    match modfile.USyntax use with
    | None => use
    | Some l =>
        modfile.mkUse (modfile.UPath use) (modfile.ModulePath use)
          (Some (modfile.mkLine (modfile.LToken l) true
                   [modfile.mkComment "// blazedock" true]))
    end
  else use.

(** The work file as [LinkGoWorkspace] has it when it formats it. *)
Definition syncWorkFile (workspace : Workspace) (workFile : modfile.WorkFile)
  : result modfile.WorkFile :=
  workFile1 ← rangeFrom dropUseBody 0 (length (modfile.Use_ workFile)) workFile;
  let workFile2 :=
    fold_left (fun f pth => modfile.AddNewUse f pth "")
              (sortedPaths workspace) workFile1 in
  let workFile3 :=
    modfile.mkWorkFile (map (markUse workspace) (modfile.Use_ workFile2))
                       (modfile.WOther workFile2) in
  Ok (modfile.CleanupWork (SortBlocks workFile3)).

(** The last loop: the teardown of every Go package. *)
Fixpoint dropAll (ps : list (string * Package)) (fs : Files)
  : Files * option error :=
  match ps with
  | [] => (fs, None)
  | (_, p) :: rest =>
      if negb (isGo (Type_ p)) then dropAll rest fs
      else match removeBlazedockReplaceRules fs p with
           | (fs', Some e) => (fs', Some e)
           | (fs', None) => dropAll rest fs'
           end
  end.

Definition LinkGoWorkspace (fs : Files) (workspace : Workspace)
  : Files * option error :=
  let workFN := Join (Origin workspace) "go.work" in
  match os.Stat fs workFN with
  | Err _ => (fs, Some (ErrNotGoWorkspace workFN))
  | Ok _ =>
      match (fc ← os.ReadFile fs workFN;
             workFile ← ParseWork workFN fc;
             syncWorkFile workspace workFile) with
      | Err e => (fs, Some e)
      | Ok workFile =>
          dropAll (Packages workspace)
            (os.WriteFile fs workFN
               (WorkContent (modfile.FormatWork workFile)))
      end
  end.

End Linker.

(** ** The vet checks *)

Module vet.

(** A finding of a check.  The field [Component] of the Go struct is
    [pkg.C], which the model of a package does not carry. *)
Record Finding := mkFinding {
  Description : string;
  Error : bool;
  FPackage : option Package
}.

(** The loop of [checkGolangHasGomod]: [None] when it returns from
    inside the loop, the two flags when it runs to its end. *)
Fixpoint scanSources (sources : list string) (foundGoMod foundGoSum : bool)
  : option (bool * bool) :=
  match sources with
  | [] => Some (foundGoMod, foundGoSum)
  | src :: rest =>
      let foundGoMod :=
        if strings.HasSuffix src "/go.mod" then true else foundGoMod in
      let foundGoSum :=
        if strings.HasSuffix src "/go.sum" then true else foundGoSum in
      if foundGoSum && foundGoMod then None
      else scanSources rest foundGoMod foundGoSum
  end.

Definition checkGolangHasGomod (pkg : Package) : list Finding * option error :=
  match scanSources (Sources pkg) false false with
  | None => ([], None)
  | Some (foundGoMod, foundGoSum) =>
      let f := [] in
      let f :=
        if negb foundGoMod
        then (f ++ [mkFinding "package sources contain no go.mod file"
                              true (Some pkg)])%list
        else f in
      let f :=
        if negb foundGoSum
        then (f ++ [mkFinding "package sources contain no go.sum file"
                              true (Some pkg)])%list
        else f in
      (f, None)
  end.

(** One turn of the loop of [checkBuildLayout] over the entry
    [(dep, loc)] of [pkg.Layout]; the state is the index [layoutIdx]
    and the findings so far. *)
Definition layoutBody (pkg : Package)
  (st : gmap string string * list Finding) (e : string * string)
  : gmap string string * list Finding :=
  let '(layoutIdx, findings) := st in
  let '(dep, loc) := e in
  match layoutIdx !! loc with
  | None => (<[loc := dep]> layoutIdx, findings)
  | Some otherdep =>
      (layoutIdx,
       (findings ++
        [mkFinding ("build-time location " ++ loc ++ " is used by " ++ dep
                    ++ " and " ++ otherdep)
                   true (Some pkg)])%list)
  end.

(** [pkg.Layout] is a Go map from dependency to location; [layout] is
    the list of its entries in the order the iteration meets them. *)
Definition checkBuildLayout (pkg : Package) (layout : list (string * string))
  : list Finding * option error :=
  ((fold_left (layoutBody pkg) layout (∅, [])).2, None).

End vet.

(** ** The command line *)

Module cmd.

(** The loop of [getBuildArgs]; [res] is the map built so far.  A nil
    map is [None], and the error is its message. *)
Fixpoint buildArgsLoop (buildArgs : list string) (res : gmap string string)
  : option (gmap string string) * option string :=
  match buildArgs with
  | [] => (Some res, None)
  | arg :: rest =>
      let segs := strings.Split arg "=" in
      if Nat.ltb (length segs) 2
      then (None,
            Some ("invalid build argument (format is key=value): " ++ arg))
      else buildArgsLoop rest
             (<[hd "" segs := strings.Join (tl segs) "="]> res)
  end.

(** [buildArgs] is the package variable that the flag of the same name
    fills. *)
Definition getBuildArgs (buildArgs : list string)
  : option (gmap string string) * option string :=
  if Nat.eqb (length buildArgs) 0 then (None, None)
  else buildArgsLoop buildArgs ∅.

End cmd.

(** ** Provenance assertions *)

(** What the assertions read of a statement and of an envelope
    (sigs.k8s.io/bom): [Predicate.Builder.ID],
    [Predicate.Invocation.ConfigSource.EntryPoint] and the URIs of
    [Predicate.Materials]; the payload of an envelope. *)
Module provenance.

Record Material := mkMaterial { URI : string }.

Record Statement := mkStatement {
  BuilderID : string;
  EntryPoint : string;
  Materials : list Material
}.

Record Envelope := mkEnvelope { Payload : string }.

End provenance.

Module provutil.

(** A violation; [A] is the type of assertions, and a nil pointer is
    [None]. *)
Record Violation (A : Type) := mkViolation {
  VAssertion : option A;
  VStatement : option provenance.Statement;
  Desc : string
}.

Arguments mkViolation {A} _ _ _.
Arguments VAssertion {A} _.
Arguments VStatement {A} _.
Arguments Desc {A} _.

#[warnings="-register-all"]
Inductive Assertion := mkAssertion {
  Name : string;
  Description : string;
  Run : option (provenance.Statement -> list (Violation Assertion));
  RunBundle : option (provenance.Envelope -> list (Violation Assertion))
}.

(** [Violation.String]; [None] when it dereferences the nil
    [v.Assertion]. *)
Definition String_ (v : Violation Assertion) : option string :=
  match VStatement v with
  | None =>
      match VAssertion v with
      | None => None
      | Some a => Some ("failed " ++ Name a ++ ": " ++ Desc v)%string
      end
  | Some stmt =>
      match VAssertion v with
      | None => None
      | Some a =>
          Some (provenance.EntryPoint stmt ++ " failed " ++ Name a ++ ": "
                ++ Desc v)%string
      end
  end.

Definition AssertBundle (a : list Assertion) (bundle : provenance.Envelope)
  : list (Violation Assertion) :=
  fold_left
    (fun failed as_ =>
       match RunBundle as_ with
       | None => failed
       | Some run =>
           let res := run bundle in
           let res :=
             map (fun v => mkViolation (Some as_) (VStatement v) (Desc v)) res in
           (failed ++ res)%list
       end)
    a [].

Definition AssertStatement (a : list Assertion) (stmt : provenance.Statement)
  : list (Violation Assertion) :=
  let s := stmt in
  fold_left
    (fun failed as_ =>
       match Run as_ with
       | None => failed
       | Some run =>
           let res := run stmt in
           let res := map (fun v => mkViolation (Some as_) (Some s) (Desc v)) res in
           (failed ++ res)%list
       end)
    a [].

Section Builder.

(** The constant [blazedock.ProvenanceBuilderID]. *)
Variable ProvenanceBuilderID : string.

Definition AssertBuiltWithBlazedock : Assertion :=
  mkAssertion "built-with-blazedock"
    "ensures all bundle entries have been built with blazedock"
    (Some (fun stmt =>
             if strings.HasPrefix (provenance.BuilderID stmt) ProvenanceBuilderID
             then []
             else [mkViolation None None "was not built using blazedock"]))
    None.

Definition AssertBuiltWithBlazedockVersion (version : string) : Assertion :=
  mkAssertion "built-with-blazedock-version"
    ("ensures all bundle entries which have been built using blazedock, used version "
     ++ version)
    (Some (fun stmt =>
             if negb (strings.HasPrefix (provenance.BuilderID stmt)
                        ProvenanceBuilderID)
             then []
             else if negb (String.eqb (provenance.BuilderID stmt)
                             (ProvenanceBuilderID ++ ":" ++ version))
                  then [mkViolation None None
                          ("was built using blazedock version "
                           ++ strings.TrimPrefix (provenance.BuilderID stmt)
                                (ProvenanceBuilderID ++ ":"))]
                  else []))
    None.

End Builder.

(** The loop of [AssertGitMaterialOnly]. *)
Fixpoint gitMaterials (materials : list provenance.Material)
  : list (Violation Assertion) :=
  match materials with
  | [] => []
  | m :: rest =>
      if strings.HasPrefix (provenance.URI m) "git+"
         || strings.HasPrefix (provenance.URI m) "git://"
      then gitMaterials rest
      else [mkViolation None None
              ("contains non-Git material, e.g. " ++ provenance.URI m)]
  end.

Definition AssertGitMaterialOnly : Assertion :=
  mkAssertion "git-material-only"
    "ensures all subjects were built from Git material only"
    (Some (fun stmt => gitMaterials (provenance.Materials stmt)))
    None.

End provutil.

(** * Vocabulary of the properties *)

Definition suffixOf {T} (rep : option (modfile.Line T)) : list modfile.Comment :=
  match rep with
  | None => []
  | Some l => modfile.LSuffix l
  end.

Definition hasSentinel (c : modfile.Comment) : bool :=
  strings.Contains (modfile.Token c) "blazedock".

Definition subKind (c : modfile.Comment) : blazedockReplaceType :=
  if strings.Contains (modfile.Token c) " indirect " then blazedockReplaceIndirect
  else if strings.Contains (modfile.Token c) " ignore " then blazedockReplaceIgnore
  else blazedockReplaceDirect.

(** Reading and parsing the manifest of a package. *)
Definition loadGoMod (fs : Files) (p : Package) : result modfile.File :=
  fc ← os.ReadFile fs (findGoMod (Sources p));
  Parse (findGoMod (Sources p)) fc.

Definition dropKeys (ks : list module.Version) (rs : list modfile.Replace)
  : list modfile.Replace :=
  map (fun r => if existsb (keyIs r) ks then modfile.zeroReplace else r) rs.

Definition ownedKeys (rs : list modfile.Replace) : list module.Version :=
  omap (fun r => if owned (modfile.Syntax r) then Some (modfile.Old r) else None) rs.

(** What the loop of [removeBlazedockReplaceRules] leaves of [f.Replace]:
    every entry that has the key of an owned entry is zeroed. *)
Definition teardownList (rs : list modfile.Replace) : list modfile.Replace :=
  dropKeys (ownedKeys rs) rs.

Definition ownedText {T} (x : modfile.Text T) : bool :=
  owned (Some (modfile.parseLine x)).

(** The text a teardown writes. *)
Definition teardownText (t : modfile.ModText) : modfile.ModText :=
  modfile.FormatMod
    (modfile.Cleanup
       (modfile.withReplace (modfile.parseMod t)
          (teardownList (modfile.Replace_ (modfile.parseMod t))))).

Definition updated (old new : module.Version) (y : modfile.Replace)
  : modfile.Replace :=
  modfile.mkReplace (modfile.Old y) new
                    (modfile.updateLine (modfile.Syntax y) old new).

(** The entry [addReplace] appends when nothing matches. *)
Definition newEntry (old new : module.Version) (c : string) : modfile.Replace :=
  modfile.mkReplace old new
    (Some (modfile.mkLine (old, new) true [modfile.mkComment c true])).

(** What [addReplace] may do to an entry [y]: nothing unless modfile's
    loop matches it; a matched entry is gone, or keeps its [Old] with
    its comments either kept or replaced by the sentinel comment. *)
Definition entryRel (old : module.Version) (c : string)
  (y x : modfile.Replace) : Prop :=
  if modfile.hits y old then
    modfile.Syntax x = None
    \/ (modfile.Old x = modfile.Old y
        /\ exists l l', modfile.Syntax y = Some l /\ modfile.Syntax x = Some l'
             /\ (modfile.LSuffix l' = modfile.LSuffix l
                 \/ modfile.LSuffix l' = [modfile.mkComment c true]))
  else x = y.

(** The entry [e] is in the file, and no entry of its key is owned. *)
Definition standing (e : modfile.Replace) (g : modfile.File) : Prop :=
  In e (modfile.Replace_ g)
  /\ forall r, In r (modfile.Replace_ g) -> keyIs r (modfile.Old e) = true ->
               owned (modfile.Syntax r) = false.

(** The keys a linking of [mods] overrides: one per module, then the
    overrides each module hands on. *)
Definition overrideKeys (mods : list goModule) : list module.Version :=
  (map (fun m => module.mkVersion (Name m) "") mods
   ++ flat_map (fun m => map modfile.Old (Replacements m)) mods)%list.

Definition parseEntry (x : modfile.Text (module.Version * module.Version))
  : modfile.Replace :=
  modfile.mkReplace (fst (modfile.TTok x)) (snd (modfile.TTok x))
                    (Some (modfile.parseLine x)).

(** No foreign or ignored entry of the text has the key of an owned
    one (the manifest has at most one entry per key). *)
Definition cleanKeys (t : modfile.ModText) : Prop :=
  forall z w, In z (modfile.MTReplace t) -> In w (modfile.MTReplace t) ->
    ownedText z = true -> ownedText w = false ->
    fst (modfile.TTok z) <> fst (modfile.TTok w).

Definition unowned (l : list (modfile.Text (module.Version * module.Version)))
  : list (modfile.Text (module.Version * module.Version)) :=
  filter (fun z => ownedText z = false) l.

Definition sentinel {T} (rep : option (modfile.Line T)) : bool :=
  fst (isBlazedockReplace rep).

Definition dropPaths (ps : list string) (us : list modfile.Use)
  : list modfile.Use :=
  map (fun u => if existsb (String.eqb (modfile.UPath u)) ps
                then modfile.zeroUse else u) us.

Definition ownedPaths (us : list modfile.Use) : list string :=
  omap (fun u => if sentinel (modfile.USyntax u)
                 then Some (modfile.UPath u) else None) us.

Definition newUse (p : string) : modfile.Use :=
  modfile.mkUse p "" (Some (modfile.mkLine p false [])).

Definition parseUse (z : modfile.Text string) : modfile.Use :=
  modfile.mkUse (modfile.TTok z) "" (Some (modfile.parseLine z)).

(** A use line as the synchronizer marks it. *)
Definition ownedUse (p : string) : modfile.Text string :=
  modfile.mkText p ["// blazedock"].

(** The lines of the old text that are still there. *)
Definition keptUses (workspace : Workspace) (l : list (modfile.Text string))
  : list (modfile.Text string) :=
  omap (fun u => modfile.formatLine <$> modfile.USyntax u)
    (filter (fun u => modfile.liveUse u = true)
       (map (markUse workspace)
          (dropPaths (ownedPaths (map parseUse l)) (map parseUse l)))).

Definition isDirect {T} (rep : option (modfile.Line T)) : bool :=
  bool_decide (isBlazedockReplace rep = (true, blazedockReplaceDirect)).

Definition directLive (r : modfile.Replace) : Prop :=
  isDirect (modfile.Syntax r) = true.

Definition isDirectText {T} (z : modfile.Text T) : Prop :=
  isDirect (Some (modfile.parseLine z)) = true.

#[global] Instance isDirectText_dec {T} (z : modfile.Text T) :
  Decision (isDirectText z).
Proof. unfold isDirectText. apply _. Defined.

(** The entry that links the module [m] from the manifest [fn]. *)
Definition directEntry (Dir : string -> string)
  (Rel : string -> string -> option string) (fn : string) (m : goModule) (d : modfile.Replace) : Prop :=
  exists relpath,
    Rel (Dir fn) (OriginPath m) = Some relpath
    /\ d = newEntry (module.mkVersion (Name m) "") (module.mkVersion relpath "")
                    "// blazedock".

(** The line that links the module [m] from the manifest [fn]. *)
Definition directText (Dir : string -> string)
  (Rel : string -> string -> option string) (fn : string) (m : goModule)
  (z : modfile.Text (module.Version * module.Version)) : Prop :=
  exists relpath,
    Rel (Dir fn) (OriginPath m) = Some relpath
    /\ z = modfile.mkText (module.mkVersion (Name m) "",
                           module.mkVersion relpath "") ["// blazedock"].

(** The modules of the Go dependencies that the registry knows. *)
Definition resolved (mods : gmap string goModule) (deps : list Package)
  : list goModule :=
  omap (fun d => if isGo (Type_ d) then mods !! FullName d else None) deps.

(** The Go dependencies that the registry does not know, by name. *)
Definition missing (mods : gmap string goModule) (deps : list Package)
  : list string :=
  omap (fun d => if isGo (Type_ d)
                 then match mods !! FullName d with
                      | None => Some (FullName d)
                      | Some _ => None
                      end
                 else None) deps.

(** Some owned direct or indirect line of [l] has the key of [z]. *)
Definition hasOwnedKey (l : list (modfile.Text (module.Version * module.Version)))
  (z : modfile.Text (module.Version * module.Version)) : bool :=
  existsb (fun w => ownedText w
                    && bool_decide (fst (modfile.TTok w) = fst (modfile.TTok z))) l.

(** An entry with a line that is not owned direct or indirect: what a
    teardown keeps. *)
Definition keptEntry (r : modfile.Replace) : Prop :=
  modfile.live r = true /\ owned (modfile.Syntax r) = false.

(** What a linking keeps true of the file it edits: the entries a
    teardown keeps are [base], every line spells an entry of [base] or
    one of the [keys], and the module path and the other directives are
    those of [t]. *)
Definition linkInv (base : list modfile.Replace) (keys : list module.Version)
  (t : modfile.ModText) (g : modfile.File) : Prop :=
  filter keptEntry (modfile.Replace_ g) = base
  /\ (forall x l, In x (modfile.Replace_ g) -> modfile.Syntax x = Some l ->
        In x base \/ In (fst (modfile.LToken l)) keys)
  /\ modfile.ModPath g = modfile.MTModule t
  /\ modfile.Other g = modfile.MTOther t.

(** The registry entry that [collectReplacements] builds for the
    package named [n] whose go.mod is [fn], with text [t]. *)
Definition registryEntry (Dir : string -> string) (n fn : string)
  (t : modfile.ModText) : goModule :=
  mkGoModule (modfile.MTModule t) (Dir fn) n
    (filter (fun rep => fst (isBlazedockReplace (modfile.Syntax rep)) = false)
            (map parseEntry (modfile.MTReplace t))).

(** A package the collector registers. *)
Definition collected (p : Package) : Prop :=
  isGo (Type_ p) = true /\ findGoMod (Sources p) <> "".

(** The go.work that the synchronizer writes over [w]. *)
Definition syncText (workspace : Workspace) (w : modfile.WorkText)
  : modfile.WorkText :=
  modfile.mkWorkText
    (keptUses workspace (modfile.WTUse w) ++ map ownedUse (sortedPaths workspace))
    (modfile.WTOther w).

(** What the synchronizer makes of the use line [z] when the paths
    [ps] are dropped: nothing, the line marked, or the line itself. *)
Definition syncLine (workspace : Workspace) (ps : list string)
  (z : modfile.Text string) : option (modfile.Text string) :=
  if existsb (String.eqb (modfile.TTok z)) ps then None
  else Some (if inGoModules workspace (modfile.TTok z)
             then ownedUse (modfile.TTok z) else z).

(** No use line without the sentinel names the directory of a Go
    package. *)
Definition disjointUses (workspace : Workspace) (w : modfile.WorkText) : Prop :=
  forall z, In z (modfile.WTUse w) ->
    sentinel (Some (modfile.parseLine z)) = false ->
    inGoModules workspace (modfile.TTok z) = false.

(** The go.mod of the package is there and a teardown leaves it as it
    is. *)
Definition settled (fs : Files) (p : Package) : Prop :=
  findGoMod (Sources p) <> ""
  /\ exists t, fs !! findGoMod (Sources p) = Some (ModContent t)
               /\ teardownText t = t.

(** The two findings of the has-gomod check. *)
Definition noGoMod (pkg : Package) : vet.Finding :=
  vet.mkFinding "package sources contain no go.mod file" true (Some pkg).

Definition noGoSum (pkg : Package) : vet.Finding :=
  vet.mkFinding "package sources contain no go.sum file" true (Some pkg).

Definition endsIn (suffix : string) (sources : list string) : bool :=
  existsb (fun src => strings.HasSuffix src suffix) sources.

(** The finding of the build-layout check for the location [loc], met
    at the entry of [dep] when the index holds [otherdep]. *)
Definition collision (pkg : Package) (loc dep otherdep : string) : vet.Finding :=
  vet.mkFinding ("build-time location " ++ loc ++ " is used by " ++ dep
                 ++ " and " ++ otherdep)
                true (Some pkg).

(** The index holds, for each location of the entries [pre] met so far,
    the first dependency met there. *)
Definition indexOf (pre : list (string * string)) (idx : gmap string string)
  : Prop :=
  (forall loc d, idx !! loc = Some d ->
     exists l1 l2, pre = (l1 ++ (d, loc) :: l2)%list /\ ~ In loc (map snd l1))
  /\ (forall e, In e pre -> is_Some (idx !! e.2)).

(** The URI of the material names a Git source. *)
Definition isGit (m : provenance.Material) : bool :=
  strings.HasPrefix (provenance.URI m) "git+"
  || strings.HasPrefix (provenance.URI m) "git://".

(** The violations of one assertion, as [AssertStatement] and
    [AssertBundle] return them. *)
Definition stated (stmt : provenance.Statement) (as_ : provutil.Assertion)
  : list (provutil.Violation provutil.Assertion) :=
  match provutil.Run as_ with
  | None => []
  | Some run =>
      map (fun v => provutil.mkViolation (Some as_) (Some stmt) (provutil.Desc v))
          (run stmt)
  end.

Definition bundled (bundle : provenance.Envelope) (as_ : provutil.Assertion)
  : list (provutil.Violation provutil.Assertion) :=
  match provutil.RunBundle as_ with
  | None => []
  | Some run =>
      map (fun v => provutil.mkViolation (Some as_) (provutil.VStatement v)
                      (provutil.Desc v))
          (run bundle)
  end.


(** The paths of the use lines of the text that carry the sentinel. *)
Definition sentinelPaths (l : list (modfile.Text string)) : list string :=
  ownedPaths (map parseUse l).

(** * Scenarios *)

(** Stand-ins for [path/filepath] on slash-separated absolute paths:
    the last element of a path, the path without it, a sibling reached
    through the parent directory. *)
Fixpoint baseFrom (s cur : string) : string :=
  match s with
  | EmptyString => cur
  | String c s' =>
      if Ascii.eqb c "/"%char then baseFrom s' ""
      else baseFrom s' (cur ++ String c "")
  end.

Definition exBase (s : string) : string := baseFrom s "".

Definition exDir (s : string) : string :=
  String.substring 0 (String.length s - String.length (exBase s) - 1) s.

Definition exJoin (dir name : string) : string := dir ++ "/" ++ name.

Definition exRel (base targ : string) : option string :=
  Some ("../" ++ exBase targ).

Definition ver (p v : string) : module.Version := module.mkVersion p v.

Definition line (o n : module.Version) (c : list string)
  : modfile.Text (module.Version * module.Version) :=
  modfile.mkText (o, n) c.

(** A package [app] with a go.mod that pins [example.com/k] by hand,
    holds a link to [example.com/a] from an earlier run, and an entry
    marked to be ignored. *)
Definition appFN : string := "/ws/app/go.mod".

Definition pinK : modfile.Text (module.Version * module.Version) :=
  line (ver "example.com/k" "v1.0.0") (ver "example.com/fork" "v1.0.1") [].

Definition linkA : modfile.Text (module.Version * module.Version) :=
  line (ver "example.com/a" "") (ver "../a" "") ["// blazedock"].

Definition ignoredI : modfile.Text (module.Version * module.Version) :=
  line (ver "example.com/i" "") (ver "../i" "") ["// blazedock ignore me"].

Definition appText : modfile.ModText :=
  modfile.mkModText "example.com/app" [pinK; linkA; ignoredI] ["go 1.20"].

Definition app : Package :=
  mkPackage "app:app" GoPackage "/ws/app" ["/ws/app/main.go"; appFN] [].

Definition appFiles : Files := {[ appFN := ModContent appText ]}.

(** A module [example.com/b] that hands on an override of the same
    [example.com/k]. *)
Definition modB : goModule :=
  mkGoModule "example.com/b" "/ws/b" "b:lib"
    [parseEntry (line (ver "example.com/k" "v1.0.0")
                      (ver "example.com/other" "v2.0.0") [])].

(** A package whose go.mod does not parse, and a workspace of both. *)
Definition bad : Package :=
  mkPackage "bad:lib" GoPackage "/ws/bad" ["/ws/bad/go.mod"] [].

Definition wsFiles : Files :=
  <["/ws/bad/go.mod" := Unparsable "modul example.com/bad"]> appFiles.

Definition ws : Workspace :=
  mkWorkspace "/ws" [("app:app", app); ("bad:lib", bad)].

(** A workspace at [/w]: the libraries [b] and [c] both pin
    [example.com/k] by hand, to different forks; [top] depends on
    both. *)
Definition pinOne : modfile.Text (module.Version * module.Version) :=
  line (ver "example.com/k" "v1.0.0") (ver "example.com/fork-one" "v1.0.1") [].

Definition pinTwo : modfile.Text (module.Version * module.Version) :=
  line (ver "example.com/k" "v1.0.0") (ver "example.com/fork-two" "v1.0.2") [].

Definition libB : Package :=
  mkPackage "b:lib" GoPackage "/w/b" ["/w/b/go.mod"] [].

Definition libC : Package :=
  mkPackage "c:lib" GoPackage "/w/c" ["/w/c/go.mod"] [].

Definition top : Package :=
  mkPackage "top:app" GoPackage "/w/top" ["/w/top/go.mod"] [libC; libB].

Definition forkFiles : Files :=
  <["/w/b/go.mod" := ModContent (modfile.mkModText "example.com/b" [pinOne] [])]>
  (<["/w/c/go.mod" := ModContent (modfile.mkModText "example.com/c" [pinTwo] [])]>
   {[ "/w/top/go.mod" := ModContent (modfile.mkModText "example.com/top" [] []) ]}).

Definition forkWs : Workspace :=
  mkWorkspace "/w" [("b:lib", libB); ("c:lib", libC); ("top:app", top)].

Definition topLinked : modfile.ModText :=
  modfile.mkModText "example.com/top"
    [line (ver "example.com/b" "") (ver "../b" "") ["// blazedock"];
     line (ver "example.com/c" "") (ver "../c" "") ["// blazedock"];
     line (ver "example.com/k" "v1.0.0") (ver "example.com/fork-two" "v1.0.2")
          ["// blazedock indirect from c:lib"]]
    [].

(** A workspace at [/m]: [svc] depends on its siblings [a] and [b], and
    its go.mod pins one version of [example.com/a] to a fork, by
    hand. *)
Definition pinA : modfile.Text (module.Version * module.Version) :=
  line (ver "example.com/a" "v1.0.0") (ver "example.com/a-fork" "v1.0.1") [].

Definition sibA : Package :=
  mkPackage "a:lib" GoPackage "/m/a" ["/m/a/go.mod"] [].

Definition sibB : Package :=
  mkPackage "b:lib" GoPackage "/m/b" ["/m/b/go.mod"] [].

Definition svc : Package :=
  mkPackage "svc:app" GoPackage "/m/svc" ["/m/svc/go.mod"] [sibA; sibB].

Definition svcText : modfile.ModText :=
  modfile.mkModText "example.com/svc" [pinA] [].

Definition pinFiles : Files :=
  <["/m/a/go.mod" := ModContent (modfile.mkModText "example.com/a" [] [])]>
  (<["/m/b/go.mod" := ModContent (modfile.mkModText "example.com/b" [] [])]>
   {[ "/m/svc/go.mod" := ModContent svcText ]}).

Definition pinWs : Workspace :=
  mkWorkspace "/m" [("a:lib", sibA); ("b:lib", sibB); ("svc:app", svc)].

(** What the first linking of [svc] writes: the line of the pin now
    spells the link to the sibling, without a sentinel. *)
Definition svcOnce : modfile.ModText :=
  modfile.mkModText "example.com/svc"
    [line (ver "example.com/a" "") (ver "../a" "") [];
     line (ver "example.com/b" "") (ver "../b" "") ["// blazedock"]]
    [].

(** What the second linking leaves. *)
Definition svcTwice : modfile.ModText :=
  modfile.mkModText "example.com/svc"
    [line (ver "example.com/a" "") (ver "../a" "") []]
    [].

(** The workspace [/w] with a go.work that lists a directory by hand
    and two lines from earlier runs. *)
Definition oldWork : modfile.WorkText :=
  modfile.mkWorkText
    [modfile.mkText "./legacy" [];
     modfile.mkText "gone" ["// blazedock"];
     modfile.mkText "parked" ["// blazedock ignore for now"]]
    ["go 1.20"].

Definition newWork : modfile.WorkText :=
  modfile.mkWorkText
    [modfile.mkText "./legacy" []; ownedUse "b"; ownedUse "c"; ownedUse "top"]
    ["go 1.20"].

Definition syncFiles : Files := <["/w/go.work" := WorkContent oldWork]> forkFiles.

Definition syncedFiles : Files := <["/w/go.work" := WorkContent newWork]> forkFiles.

(** A workspace at [/v]: [app] depends on [a], on [b] and on [ghost],
    a Go package without a go.mod; the go.mod of [b] holds the lines
    [bReps]. *)
Definition vA : Package := mkPackage "a:lib" GoPackage "/v/a" ["/v/a/go.mod"] [].

Definition vB : Package := mkPackage "b:lib" GoPackage "/v/b" ["/v/b/go.mod"] [].

Definition ghost : Package := mkPackage "ghost:lib" GoPackage "/v/ghost" [] [].

Definition vApp : Package :=
  mkPackage "app:app" GoPackage "/v/app" ["/v/app/go.mod"] [vA; vB; ghost].

Definition vFiles (bReps : list (modfile.Text (module.Version * module.Version)))
  : Files :=
  <["/v/a/go.mod" := ModContent (modfile.mkModText "example.com/a" [] [])]>
  (<["/v/b/go.mod" := ModContent (modfile.mkModText "example.com/b" bReps [])]>
   {[ "/v/app/go.mod" := ModContent (modfile.mkModText "example.com/app" [] []) ]}).

Definition vWs : Workspace :=
  mkWorkspace "/v" [("a:lib", vA); ("b:lib", vB); ("app:app", vApp)].

(** The registry of that workspace. *)
Definition vMods (bReps : list (modfile.Text (module.Version * module.Version)))
  : gmap string goModule :=
  <["a:lib" := mkGoModule "example.com/a" "/v/a" "a:lib" []]>
  (<["b:lib" := mkGoModule "example.com/b" "/v/b" "b:lib" (map parseEntry bReps)]>
   (<["app:app" := mkGoModule "example.com/app" "/v/app" "app:app" []]> ∅)).

(** [b] swaps [example.com/a] for a vendored copy, by hand. *)
Definition vendoredA : modfile.Text (module.Version * module.Version) :=
  line (ver "example.com/a" "") (ver "../vendored-a" "") [].

Definition vLinked : modfile.ModText :=
  modfile.mkModText "example.com/app"
    [line (ver "example.com/b" "") (ver "../b" "") ["// blazedock"];
     line (ver "example.com/a" "") (ver "../vendored-a" "")
          ["// blazedock indirect from b:lib"]]
    [].

Definition vLinkedPlain : modfile.ModText :=
  modfile.mkModText "example.com/app"
    [line (ver "example.com/a" "") (ver "../a" "") ["// blazedock"];
     line (ver "example.com/b" "") (ver "../b" "") ["// blazedock"]]
    [].

(** The sibling module [example.com/a] of [app], and the go.mod of
    [app] once it is linked against it. *)
Definition modA : goModule := mkGoModule "example.com/a" "/ws/a" "a:lib" [].

Definition appLinked : modfile.ModText :=
  modfile.mkModText "example.com/app" [pinK; ignoredI; linkA] ["go 1.20"].

(** The registry of the workspace [/w]. *)
Definition forkMods : gmap string goModule :=
  <["b:lib" := mkGoModule "example.com/b" "/w/b" "b:lib" [parseEntry pinOne]]>
  (<["c:lib" := mkGoModule "example.com/c" "/w/c" "c:lib" [parseEntry pinTwo]]>
   (<["top:app" := mkGoModule "example.com/top" "/w/top" "top:app" []]> ∅)).

(** A Go package without a go.mod among its sources, in a workspace
    with [a]. *)
Definition tool : Package :=
  mkPackage "tool:cli" GoPackage "/v/tool" ["/v/tool/main.go"] [vA].

Definition toolWs : Workspace :=
  mkWorkspace "/v" [("a:lib", vA); ("tool:cli", tool)].

(** A layout that puts two dependencies at the same location. *)
Definition crowded : list (string * string) :=
  [("a:lib", "lib"); ("b:lib", "lib"); ("c:lib", "vendor/c")].

(** A builder identifier, and a statement built by version 0.9 from
    one Git source and one archive. *)
Definition builderID : string := "github.com/khulnasoft/blazedock".

Definition stmtOld : provenance.Statement :=
  provenance.mkStatement "github.com/khulnasoft/blazedock:0.9" "app:app"
    [provenance.mkMaterial "git+https://example.com/app.git";
     provenance.mkMaterial "https://example.com/blob.tar.gz";
     provenance.mkMaterial "file:///tmp/x"].

(** An assertion on bundles that always finds one violation. *)
Definition grumpy : provutil.Assertion :=
  provutil.mkAssertion "grumpy" "never content" None
    (Some (fun _ => [provutil.mkViolation None None "no"])).

(** The [SortBlocks] of a go.work whose use lines are all in one
    block: the lines in the order of their paths. *)
Definition oneBlock (f : modfile.WorkFile) : modfile.WorkFile :=
  modfile.mkWorkFile
    (sortBy (fun a b => String.ltb (modfile.UPath a) (modfile.UPath b))
            (modfile.Use_ f))
    (modfile.WOther f).

(** The [SortBlocks] of a go.work where every use line is a statement
    of its own: nothing moves. *)
Definition noBlock (f : modfile.WorkFile) : modfile.WorkFile := f.



(** * Properties *)
(** ** Substrings *)

Lemma append_cons (a : ascii) (s t : string) :
  (String a s ++ t)%string = String a (s ++ t)%string.
Proof. reflexivity. Qed.

Lemma append_nil (t : string) : ("" ++ t)%string = t.
Proof. reflexivity. Qed.

Lemma HasPrefix_spec (s prefix : string) :
  strings.HasPrefix s prefix = true <-> exists post, s = (prefix ++ post)%string.
Proof.
  revert s; induction prefix as [|b p IH]; intros s; simpl.
  - split; [intros _; exists s; reflexivity | destruct s; reflexivity].
  - destruct s as [|a s]; simpl.
    + split; [discriminate | intros [post H]; rewrite append_cons in H; discriminate].
    + destruct (Ascii.eqb_spec a b) as [->|Hne].
      * rewrite IH. split; intros [post H]; exists post;
          rewrite append_cons in *; congruence.
      * split; [discriminate|].
        intros [post H]; rewrite append_cons in H; congruence.
Qed.

Lemma Contains_eq (s substr : string) :
  strings.Contains s substr
  = if strings.HasPrefix s substr then true
    else match s with
         | EmptyString => false
         | String _ s' => strings.Contains s' substr
         end.
Proof. destruct s; reflexivity. Qed.

Lemma Contains_spec (s substr : string) :
  strings.Contains s substr = true <->
  exists pre post, s = (pre ++ substr ++ post)%string.
Proof.
  induction s as [|a s IH]; rewrite Contains_eq.
  - destruct (strings.HasPrefix "" substr) eqn:E.
    + apply HasPrefix_spec in E as [post E].
      split; [intros _; exists "", post; exact E | reflexivity].
    + split; [discriminate|].
      intros [pre [post H]]. destruct pre; [|rewrite append_cons in H; discriminate].
      rewrite append_nil in H.
      assert (strings.HasPrefix "" substr = true)
        by (apply HasPrefix_spec; eauto).
      congruence.
  - destruct (strings.HasPrefix (String a s) substr) eqn:E.
    + apply HasPrefix_spec in E as [post E].
      split; [intros _; exists "", post; exact E | reflexivity].
    + rewrite IH. split.
      * intros [pre [post H]]. exists (String a pre), post.
        rewrite append_cons. congruence.
      * intros [pre [post H]]. destruct pre as [|a' pre].
        -- rewrite append_nil in H.
           assert (strings.HasPrefix (String a s) substr = true)
             by (apply HasPrefix_spec; eauto).
           congruence.
        -- rewrite append_cons in H. injection H as _ H. eauto.
Qed.

(** ** The ownership classifier *)

Lemma scanSuffix_free (cs : list modfile.Comment) :
  forallb (fun c => negb (hasSentinel c)) cs = true ->
  scanSuffix cs = (false, blazedockReplaceDirect).
Proof.
  induction cs as [|c cs IH]; simpl; [reflexivity|].
  unfold hasSentinel at 1. destruct (strings.Contains _ _); simpl; [discriminate|].
  exact IH.
Qed.

Lemma scanSuffix_first (pre post : list modfile.Comment) (c : modfile.Comment) :
  forallb (fun c => negb (hasSentinel c)) pre = true ->
  hasSentinel c = true ->
  scanSuffix (pre ++ c :: post) = (true, subKind c).
Proof.
  intros Hpre Hc. induction pre as [|p pre IH]; simpl in *.
  - unfold hasSentinel in Hc. rewrite Hc. reflexivity.
  - unfold hasSentinel in Hpre at 1.
    destruct (strings.Contains (modfile.Token p) "blazedock"); simpl in Hpre;
      [discriminate|]. auto.
Qed.

(** C5.  A line none of whose suffix comments contains the sentinel is
    foreign, whatever else its comments say (and so is a missing line);
    a line whose first suffix comment with the sentinel is [c] is owned,
    of sub-kind indirect when [c] contains " indirect ", else ignore
    when it contains " ignore ", else direct. *)
Theorem isBlazedockReplace_classifies {T} (rep : option (modfile.Line T)) :
  (forallb (fun c => negb (hasSentinel c)) (suffixOf rep) = true ->
   fst (isBlazedockReplace rep) = false)
  /\ (forall pre c post,
        suffixOf rep = (pre ++ c :: post)%list ->
        forallb (fun c => negb (hasSentinel c)) pre = true ->
        hasSentinel c = true ->
        isBlazedockReplace rep
        = (true,
           if strings.Contains (modfile.Token c) " indirect "
           then blazedockReplaceIndirect
           else if strings.Contains (modfile.Token c) " ignore "
                then blazedockReplaceIgnore
                else blazedockReplaceDirect)).
Proof.
  split.
  - destruct rep as [l|]; simpl; [|reflexivity].
    intros H. rewrite scanSuffix_free by exact H. reflexivity.
  - intros pre c post Hs Hpre Hc. destruct rep as [l|]; simpl in *.
    + rewrite Hs. apply scanSuffix_first; assumption.
    + destruct pre; discriminate.
Qed.

(** ** Loops that stop at the first error *)

Lemma foldM_app {A B} (f : A -> B -> result A) (l1 l2 : list B) (a : A) :
  foldM f (l1 ++ l2)%list a = (a' ← foldM f l1 a; foldM f l2 a').
Proof.
  revert a; induction l1 as [|b l1 IH]; intros a; simpl; [reflexivity|].
  destruct (f a b) as [a'|e]; simpl; [apply IH | reflexivity].
Qed.

Lemma foldM_fails {A B} (f : A -> B -> result A) (l : list B) (x : B) (a : A) :
  In x l -> (forall a', isErr (f a' x) = true) -> isErr (foldM f l a) = true.
Proof.
  intros Hin Hx. revert a. induction l as [|b l IH]; intros a; [destruct Hin|].
  simpl. destruct Hin as [->|Hin].
  - specialize (Hx a). destruct (f a x); [discriminate | reflexivity].
  - destruct (f a b); simpl; [apply IH, Hin | reflexivity].
Qed.

Section Properties.

Variable Join : string -> string -> string.
Variable Dir : string -> string.
Variable Rel : string -> string -> option string.
Variable SortBlocks : modfile.WorkFile -> modfile.WorkFile.

(** ** The workspace synchronizer without a go.work *)

(** C7.  Without a go.work at the origin of the workspace,
    [LinkGoWorkspace] returns an error and leaves every file as it
    was. *)
Theorem LinkGoWorkspace_absent (fs : Files) (workspace : Workspace) :
  fs !! Join (Origin workspace) "go.work" = None ->
  LinkGoWorkspace Join SortBlocks fs workspace
  = (fs, Some (ErrNotGoWorkspace (Join (Origin workspace) "go.work"))).
Proof.
  intros H. unfold LinkGoWorkspace, os.Stat. rewrite H. reflexivity.
Qed.

(** ** The override collector *)

Lemma collectOne_fails (fs : Files) (n : string) (p : Package)
  (mods : gmap string goModule) :
  isGo (Type_ p) = true ->
  findGoMod (Sources p) <> "" ->
  isErr (loadGoMod fs p) = true ->
  isErr (collectOne Dir fs mods (n, p)) = true.
Proof.
  intros Hgo Hfn Hload. unfold collectOne. rewrite Hgo. simpl.
  destruct (String.eqb_spec (findGoMod (Sources p)) "") as [E|_]; [contradiction|].
  unfold loadGoMod in Hload.
  destruct (os.ReadFile fs (findGoMod (Sources p))) as [fc|e]; simpl in *;
    [|reflexivity].
  destruct (Parse (findGoMod (Sources p)) fc); simpl in *;
    [discriminate | reflexivity].
Qed.

(** C8.  When the manifest of one Go package of the workspace cannot
    be read or parsed, [collectReplacements] returns no map at all
    together with an error, and [LinkGoModules] stops there, with
    every file as it was. *)
Theorem collectReplacements_all_or_nothing (fs : Files)
  (workspace : Workspace) (n : string) (p : Package)
  (target : option Package) :
  In (n, p) (Packages workspace) ->
  isGo (Type_ p) = true ->
  findGoMod (Sources p) <> "" ->
  isErr (loadGoMod fs p) = true ->
  exists e,
    collectReplacements Dir fs workspace = (None, Some e)
    /\ LinkGoModules Dir Rel fs workspace target = (fs, [], Some e).
Proof.
  intros Hin Hgo Hfn Hload.
  pose proof (foldM_fails (collectOne Dir fs) (Packages workspace) (n, p) ∅ Hin)
    as Hf.
  unfold LinkGoModules, collectReplacements.
  destruct (foldM (collectOne Dir fs) (Packages workspace) ∅) as [m|e].
  - exfalso. enough (false = true) by discriminate. apply Hf.
    intros mods. apply collectOne_fails; assumption.
  - exists e. split; reflexivity.
Qed.

End Properties.

(** ** The teardown loop in closed form *)

Lemma lookup_map {A B} (f : A -> B) (l : list A) (i : nat) :
  map f l !! i = f <$> (l !! i).
Proof.
  revert i; induction l as [|a l IH]; intros [|i]; simpl; try reflexivity.
  apply IH.
Qed.

Lemma keyIs_eq (r : modfile.Replace) (k : module.Version) :
  keyIs r k = true <-> modfile.Old r = k.
Proof.
  unfold keyIs, modfile.sameKey. rewrite andb_true_iff, !String.eqb_eq.
  destruct (modfile.Old r), k; simpl. split; [intros [-> ->]; reflexivity|].
  intros H; injection H; auto.
Qed.

Lemma keyIs_zero_owned (k : module.Version) :
  owned (modfile.Syntax modfile.zeroReplace) = false.
Proof. reflexivity. Qed.

Lemma ownedKeys_snoc (pre : list modfile.Replace) (r : modfile.Replace) :
  ownedKeys (pre ++ [r])
  = (ownedKeys pre
     ++ if owned (modfile.Syntax r) then [modfile.Old r] else [])%list.
Proof.
  unfold ownedKeys. rewrite omap_app. simpl.
  destruct (owned (modfile.Syntax r)); reflexivity.
Qed.

Lemma dropKeys_snoc_drop (ks : list module.Version) (k : module.Version)
  (rs : list modfile.Replace) :
  dropKeys (ks ++ [k]) rs
  = modfile.dropReplace (dropKeys ks rs) (module.Path k) (module.Version_ k).
Proof.
  unfold dropKeys, modfile.dropReplace. rewrite map_map.
  apply map_ext. intros r. rewrite existsb_app. simpl. rewrite orb_false_r.
  destruct (existsb (keyIs r) ks); simpl.
  - destruct (modfile.sameKey _ _ _); reflexivity.
  - reflexivity.
Qed.

Lemma dropKeys_snoc_absorb (ks : list module.Version) (r : modfile.Replace)
  (rs : list modfile.Replace) :
  existsb (keyIs r) ks = true ->
  dropKeys (ks ++ [modfile.Old r]) rs = dropKeys ks rs.
Proof.
  intros H. unfold dropKeys. apply map_ext. intros x.
  rewrite existsb_app. simpl. rewrite orb_false_r.
  destruct (existsb (keyIs x) ks) eqn:E; [reflexivity|]. simpl.
  destruct (keyIs x (modfile.Old r)) eqn:K; [|reflexivity].
  apply keyIs_eq in K. exfalso.
  assert (existsb (keyIs x) ks = true); [|congruence].
  apply existsb_exists in H as [k [Hk Hr]]. apply existsb_exists.
  exists k. split; [exact Hk|]. apply keyIs_eq. apply keyIs_eq in Hr. congruence.
Qed.

Lemma rangeFrom_S {A} (body : nat -> A -> result A) (i n : nat) (a : A) :
  rangeFrom body i (S n) a = (a' ← body i a; rangeFrom body (S i) n a').
Proof. reflexivity. Qed.

Lemma bind_Ok {A B} (a : A) (k : A -> result B) : (Ok a ≫= k) = k a.
Proof. reflexivity. Qed.

Lemma bind_Err {A B} (e : error) (k : A -> result B) : (Err e ≫= k) = Err e.
Proof. reflexivity. Qed.

Lemma removeBody_at (f : modfile.File) (ks : list module.Version)
  (pre suf : list modfile.Replace) (r : modfile.Replace) :
  removeBody (length pre) (modfile.withReplace f (dropKeys ks (pre ++ r :: suf)))
  = Ok (modfile.withReplace f
          (if existsb (keyIs r) ks then dropKeys ks (pre ++ r :: suf)
           else if owned (modfile.Syntax r)
                then dropKeys (ks ++ [modfile.Old r]) (pre ++ r :: suf)
                else dropKeys ks (pre ++ r :: suf))).
Proof.
  unfold removeBody. simpl modfile.Replace_.
  unfold dropKeys at 1. rewrite lookup_map, list_lookup_middle by reflexivity.
  simpl. destruct (existsb (keyIs r) ks); simpl; [reflexivity|].
  destruct (owned (modfile.Syntax r)); [|reflexivity].
  rewrite dropKeys_snoc_drop. reflexivity.
Qed.

Lemma removeLoop_from (f : modfile.File) (suf pre : list modfile.Replace) :
  rangeFrom removeBody (length pre) (length suf)
    (modfile.withReplace f (dropKeys (ownedKeys pre) (pre ++ suf)))
  = Ok (modfile.withReplace f (teardownList (pre ++ suf))).
Proof.
  revert pre. induction suf as [|r suf IH]; intros pre.
  - simpl. rewrite app_nil_r. reflexivity.
  - simpl length. rewrite rangeFrom_S, removeBody_at, bind_Ok.
    specialize (IH (pre ++ [r])%list).
    rewrite length_app, Nat.add_1_r, <- app_assoc in IH. simpl in IH.
    rewrite ownedKeys_snoc in IH.
    destruct (existsb (keyIs r) (ownedKeys pre)) eqn:E; simpl.
    + destruct (owned (modfile.Syntax r)).
      * rewrite dropKeys_snoc_absorb in IH by exact E. exact IH.
      * rewrite app_nil_r in IH. exact IH.
    + destruct (owned (modfile.Syntax r)).
      * exact IH.
      * rewrite app_nil_r in IH. exact IH.
Qed.

Lemma removeLoop_spec (f : modfile.File) :
  rangeFrom removeBody 0 (length (modfile.Replace_ f)) f
  = Ok (modfile.withReplace f (teardownList (modfile.Replace_ f))).
Proof.
  pose proof (removeLoop_from f (modfile.Replace_ f) []) as H.
  simpl in H. unfold dropKeys in H. simpl in H.
  rewrite map_id in H. destruct f; exact H.
Qed.

(** ** One read-modify-write of a manifest *)

Lemma modifyGoMod_run (fs : Files) (dst : Package) (t : modfile.ModText)
  (mod_ : string -> modfile.File -> result modfile.File) :
  findGoMod (Sources dst) <> "" ->
  fs !! findGoMod (Sources dst) = Some (ModContent t) ->
  modifyGoMod fs dst mod_
  = match mod_ (findGoMod (Sources dst)) (modfile.parseMod t) with
    | Ok gomod =>
        (<[findGoMod (Sources dst) :=
             ModContent (modfile.FormatMod (modfile.Cleanup gomod))]> fs, None)
    | Err e => (fs, Some e)
    end.
Proof.
  intros Hfn Hfs. unfold modifyGoMod, os.ReadFile, os.WriteFile.
  destruct (String.eqb_spec (findGoMod (Sources dst)) "") as [E|_]; [contradiction|].
  rewrite Hfs. reflexivity.
Qed.

Lemma modifyGoMod_ok (fs fs' : Files) (dst : Package)
  (mod_ : string -> modfile.File -> result modfile.File) :
  modifyGoMod fs dst mod_ = (fs', None) ->
  exists t gomod,
    findGoMod (Sources dst) <> ""
    /\ fs !! findGoMod (Sources dst) = Some (ModContent t)
    /\ mod_ (findGoMod (Sources dst)) (modfile.parseMod t) = Ok gomod
    /\ fs' = <[findGoMod (Sources dst) :=
                 ModContent (modfile.FormatMod (modfile.Cleanup gomod))]> fs.
Proof.
  unfold modifyGoMod, os.ReadFile, os.WriteFile.
  destruct (String.eqb_spec (findGoMod (Sources dst)) "") as [E|Hne];
    [discriminate|].
  destruct (fs !! findGoMod (Sources dst)) as [c|] eqn:Hfs; simpl;
    [|discriminate].
  destruct c as [t|w|raw]; simpl; try discriminate.
  destruct (mod_ _ _) as [gomod|e] eqn:Hm; simpl; [|discriminate].
  intros H. injection H as <-. exists t, gomod. auto.
Qed.

Lemma modifyGoMod_err (fs fs' : Files) (dst : Package) (e : error)
  (mod_ : string -> modfile.File -> result modfile.File) :
  modifyGoMod fs dst mod_ = (fs', Some e) -> fs' = fs.
Proof.
  unfold modifyGoMod.
  destruct (String.eqb _ _); [intros H; injection H; auto|].
  destruct (_ ≫= _) as [g|e']; intros H; [discriminate|].
  injection H; auto.
Qed.

(** ** Ownership survives printing and parsing *)

Lemma scanSuffix_tokens (cs1 cs2 : list modfile.Comment) :
  map modfile.Token cs1 = map modfile.Token cs2 -> scanSuffix cs1 = scanSuffix cs2.
Proof.
  revert cs2; induction cs1 as [|c1 cs1 IH]; intros [|c2 cs2] H;
    try discriminate; [reflexivity|].
  simpl in H. injection H as Hc H. simpl. rewrite Hc, (IH cs2 H). reflexivity.
Qed.

Lemma classify_roundtrip {T} (l : modfile.Line T) :
  isBlazedockReplace (Some (modfile.parseLine (modfile.formatLine l)))
  = isBlazedockReplace (Some l).
Proof.
  unfold isBlazedockReplace. simpl. apply scanSuffix_tokens.
  rewrite map_map. simpl. rewrite map_id. reflexivity.
Qed.

Lemma ownedText_formatLine {T} (l : modfile.Line T) :
  ownedText (modfile.formatLine l) = owned (Some l).
Proof. unfold ownedText, owned. rewrite classify_roundtrip. reflexivity. Qed.

Lemma removeBlazedockReplaceRules_run (fs : Files) (dst : Package)
  (t : modfile.ModText) :
  findGoMod (Sources dst) <> "" ->
  fs !! findGoMod (Sources dst) = Some (ModContent t) ->
  removeBlazedockReplaceRules fs dst
  = (<[findGoMod (Sources dst) := ModContent (teardownText t)]> fs, None).
Proof.
  intros Hfn Hfs. unfold removeBlazedockReplaceRules.
  rewrite (modifyGoMod_run fs dst t) by assumption.
  rewrite removeLoop_spec. reflexivity.
Qed.

Lemma teardownList_owned (rs : list modfile.Replace) (r : modfile.Replace) :
  In r (teardownList rs) -> owned (modfile.Syntax r) = false.
Proof.
  unfold teardownList, dropKeys. rewrite in_map_iff. intros [x [Hx Hin]].
  destruct (existsb (keyIs x) (ownedKeys rs)) eqn:E; [subst r; reflexivity|].
  subst x. destruct (owned (modfile.Syntax r)) eqn:Ho; [|reflexivity].
  exfalso. assert (existsb (keyIs r) (ownedKeys rs) = true); [|congruence].
  apply existsb_exists. exists (modfile.Old r). split; [|apply keyIs_eq; reflexivity].
  unfold ownedKeys. apply list_elem_of_In, list_elem_of_omap.
  exists r. split; [apply list_elem_of_In, Hin|]. rewrite Ho. reflexivity.
Qed.

Lemma FormatMod_Cleanup_In (f : modfile.File)
  (x : modfile.Text (module.Version * module.Version)) :
  In x (modfile.MTReplace (modfile.FormatMod (modfile.Cleanup f))) ->
  exists r l, In r (modfile.Replace_ f) /\ modfile.Syntax r = Some l
              /\ x = modfile.formatLine l.
Proof.
  simpl. intros H. apply list_elem_of_In, list_elem_of_omap in H as [r [Hr Hx]].
  apply list_elem_of_filter in Hr as [_ Hr].
  destruct (modfile.Syntax r) as [l|] eqn:E; simpl in Hx; [|discriminate].
  injection Hx as <-. exists r, l. split; [apply list_elem_of_In, Hr|]. auto.
Qed.

(** ** The check loop of [addReplace] *)

Lemma rangeFrom_inv {A} (I : A -> Prop) (body : nat -> A -> result A)
  (n i : nat) (a a' : A) :
  I a ->
  (forall j x x', I x -> body j x = Ok x' -> I x') ->
  rangeFrom body i n a = Ok a' -> I a'.
Proof.
  intros Ha Hstep. revert i a Ha. induction n as [|n IH]; intros i a Ha; simpl.
  - intros H; injection H as <-; exact Ha.
  - destruct (body i a) as [x|e] eqn:E; simpl; [|discriminate].
    apply IH. eapply Hstep; eauto.
Qed.

Lemma withReplace_idem (f : modfile.File) (rs rs' : list modfile.Replace) :
  modfile.withReplace (modfile.withReplace f rs) rs' = modfile.withReplace f rs'.
Proof. reflexivity. Qed.

Lemma dropReplace_idem (rs : list modfile.Replace) (p v : string) :
  modfile.dropReplace (modfile.dropReplace rs p v) p v = modfile.dropReplace rs p v.
Proof.
  unfold modfile.dropReplace. rewrite map_map. apply map_ext. intros r.
  destruct (modfile.sameKey r p v) eqn:E; [|rewrite E; reflexivity].
  destruct (modfile.sameKey modfile.zeroReplace p v); reflexivity.
Qed.

(** When the loop passes, it has dropped the key or done nothing. *)
Lemma checkLoop_ok (old : module.Version) (f g : modfile.File) :
  rangeFrom (checkBody old) 0 (length (modfile.Replace_ f)) f = Ok g ->
  g = f
  \/ g = modfile.withReplace f
           (modfile.dropReplace (modfile.Replace_ f) (module.Path old)
                                (module.Version_ old)).
Proof.
  apply (rangeFrom_inv (fun g => g = f \/ g = modfile.withReplace f
           (modfile.dropReplace (modfile.Replace_ f) (module.Path old)
                                (module.Version_ old)))); [left; reflexivity|].
  intros j x x' Hx. unfold checkBody.
  destruct (modfile.Replace_ x !! j) as [rep|];
    [|intros H; injection H as <-; exact Hx].
  destruct (negb (keyIs rep old)); [intros H; injection H as <-; exact Hx|].
  destruct (owned (modfile.Syntax rep)); [|discriminate].
  intros H; injection H as <-. right. destruct Hx as [->| ->].
  - reflexivity.
  - unfold modfile.DropReplace. simpl. rewrite dropReplace_idem. reflexivity.
Qed.

Lemma checkBody_at (old : module.Version) (f : modfile.File)
  (pre suf : list modfile.Replace) (r : modfile.Replace) :
  checkBody old (length pre) (modfile.withReplace f (pre ++ r :: suf))
  = if negb (keyIs r old) then Ok (modfile.withReplace f (pre ++ r :: suf))
    else if owned (modfile.Syntax r)
         then Ok (modfile.DropReplace (modfile.withReplace f (pre ++ r :: suf))
                    (module.Path old) (module.Version_ old))
         else Err (ErrForeignReplace old).
Proof.
  unfold checkBody. simpl modfile.Replace_.
  rewrite list_lookup_middle by reflexivity. reflexivity.
Qed.

(** The loop stops with the error at the first entry of the key when
    no entry of the key is owned. *)
Lemma checkLoop_conflict_from (old : module.Version) (f : modfile.File)
  (suf pre : list modfile.Replace) :
  (exists y, In y suf /\ keyIs y old = true) ->
  (forall y, In y suf -> keyIs y old = true -> owned (modfile.Syntax y) = false) ->
  rangeFrom (checkBody old) (length pre) (length suf)
    (modfile.withReplace f (pre ++ suf))
  = Err (ErrForeignReplace old).
Proof.
  revert pre. induction suf as [|r suf IH]; intros pre [y [Hy Hk]] Hown.
  - destruct Hy.
  - simpl length. rewrite rangeFrom_S, checkBody_at.
    destruct (keyIs r old) eqn:E; simpl.
    + rewrite (Hown r (or_introl eq_refl) E). reflexivity.
    + try rewrite bind_Ok. specialize (IH (pre ++ [r])%list).
      rewrite length_app, Nat.add_1_r, <- app_assoc in IH. apply IH.
      * destruct Hy as [->|Hy]; [congruence|]. exists y. auto.
      * intros z Hz. apply Hown. right. exact Hz.
Qed.

Lemma checkLoop_absent_from (old : module.Version) (f : modfile.File)
  (suf pre : list modfile.Replace) :
  (forall y, In y suf -> keyIs y old = false) ->
  rangeFrom (checkBody old) (length pre) (length suf)
    (modfile.withReplace f (pre ++ suf))
  = Ok (modfile.withReplace f (pre ++ suf)).
Proof.
  revert pre. induction suf as [|r suf IH]; intros pre Hno; [reflexivity|].
  simpl length. rewrite rangeFrom_S, checkBody_at.
  rewrite (Hno r (or_introl eq_refl)). simpl. try rewrite bind_Ok.
  specialize (IH (pre ++ [r])%list).
  rewrite length_app, Nat.add_1_r, <- app_assoc in IH. apply IH.
  intros z Hz. apply Hno. right. exact Hz.
Qed.

Lemma withReplace_self (f : modfile.File) :
  modfile.withReplace f (modfile.Replace_ f) = f.
Proof. destruct f; reflexivity. Qed.

Lemma checkLoop_conflict (old : module.Version) (f : modfile.File) :
  (exists y, In y (modfile.Replace_ f) /\ keyIs y old = true) ->
  (forall y, In y (modfile.Replace_ f) -> keyIs y old = true ->
             owned (modfile.Syntax y) = false) ->
  rangeFrom (checkBody old) 0 (length (modfile.Replace_ f)) f
  = Err (ErrForeignReplace old).
Proof.
  intros H1 H2.
  pose proof (checkLoop_conflict_from old f (modfile.Replace_ f) [] H1 H2) as H.
  simpl in H. rewrite withReplace_self in H. exact H.
Qed.

Lemma checkLoop_absent (old : module.Version) (f : modfile.File) :
  (forall y, In y (modfile.Replace_ f) -> keyIs y old = false) ->
  rangeFrom (checkBody old) 0 (length (modfile.Replace_ f)) f = Ok f.
Proof.
  intros H1.
  pose proof (checkLoop_absent_from old f (modfile.Replace_ f) [] H1) as H.
  simpl in H. rewrite withReplace_self in H. exact H.
Qed.

(** ** [addReplace], entry by entry *)

Lemma keyIs_hits (y : modfile.Replace) (old : module.Version) :
  keyIs y old = true -> modfile.hits y old = true.
Proof.
  unfold keyIs, modfile.sameKey, modfile.hits.
  rewrite !andb_true_iff. intros [-> ->]. rewrite orb_true_r. auto.
Qed.

Lemma Forall2_map_both {A B} (P : A -> B -> Prop) (f : A -> B) (l : list A) :
  (forall a, P a (f a)) -> Forall2 P l (map f l).
Proof. intros H. induction l; simpl; constructor; auto. Qed.

Lemma Forall2_map_l' {A B C} (P : B -> C -> Prop) (f : A -> B) (l : list A)
  (k : list C) :
  Forall2 P (map f l) k -> Forall2 (fun a c => P (f a) c) l k.
Proof.
  revert k; induction l as [|a l IH]; intros k H; inversion H; subst;
    constructor; auto.
Qed.

Lemma Forall2_map_r' {A B C} (P : A -> C -> Prop) (f : B -> C) (l : list A)
  (k : list B) :
  Forall2 (fun a b => P a (f b)) l k -> Forall2 P l (map f k).
Proof. induction 1; simpl; constructor; auto. Qed.

Lemma addReplaceLoop_rel (old new : module.Version) (rs : list modfile.Replace)
  (need : bool) :
  Forall2 (fun y x => if modfile.hits y old
                      then x = modfile.zeroReplace \/ x = updated old new y
                      else x = y)
          rs (modfile.addReplaceLoop rs old new need).1
  /\ (modfile.addReplaceLoop rs old new need).2
     = need && forallb (fun y => negb (modfile.hits y old)) rs.
Proof.
  revert need; induction rs as [|r rs IH]; intros need; simpl.
  - split; [constructor | rewrite andb_true_r; reflexivity].
  - specialize (IH (if modfile.hits r old then false else need)).
    destruct (modfile.addReplaceLoop rs old new _) as [rest need'].
    simpl in *. destruct IH as [IH1 IH2]. split.
    + constructor; [|exact IH1].
      destruct (modfile.hits r old); [|reflexivity].
      destruct need; [right|left]; reflexivity.
    + rewrite IH2. destruct (modfile.hits r old); simpl;
        [rewrite andb_false_r|]; reflexivity.
Qed.

Lemma modfile_addReplace_rel (old new : module.Version)
  (rs : list modfile.Replace) :
  exists xs tail,
    modfile.addReplace rs old new = (xs ++ tail)%list
    /\ Forall2 (fun y x => if modfile.hits y old
                           then x = modfile.zeroReplace \/ x = updated old new y
                           else x = y) rs xs
    /\ (tail = [] \/ tail = [modfile.mkReplace old new
                               (Some (modfile.mkLine (old, new) false []))]).
Proof.
  unfold modfile.addReplace.
  destruct (addReplaceLoop_rel old new rs true) as [H1 _].
  destruct (modfile.addReplaceLoop rs old new true) as [xs need]. simpl in H1.
  destruct need.
  - exists xs, [modfile.mkReplace old new
                  (Some (modfile.mkLine (old, new) false []))]. auto.
  - exists xs, []. rewrite app_nil_r. auto.
Qed.

Lemma modfile_addReplace_fresh (old new : module.Version)
  (rs : list modfile.Replace) :
  (forall y, In y rs -> modfile.hits y old = false) ->
  modfile.addReplace rs old new
  = (rs ++ [modfile.mkReplace old new
              (Some (modfile.mkLine (old, new) false []))])%list.
Proof.
  intros H. unfold modfile.addReplace.
  assert (forall need, modfile.addReplaceLoop rs old new need = (rs, need)) as E.
  { induction rs as [|r rs IH]; intros need; simpl; [reflexivity|].
    rewrite (H r (or_introl eq_refl)), IH; [reflexivity|].
    intros y Hy. apply H. right. exact Hy. }
  rewrite E. reflexivity.
Qed.

Lemma keyIs_refl (r : modfile.Replace) : keyIs r (modfile.Old r) = true.
Proof. apply keyIs_eq. reflexivity. Qed.

Lemma addReplace_conflict (g : modfile.File) (old new : module.Version)
  (direct : bool) (source : string) :
  (exists y, In y (modfile.Replace_ g) /\ keyIs y old = true) ->
  (forall y, In y (modfile.Replace_ g) -> keyIs y old = true ->
             owned (modfile.Syntax y) = false) ->
  addReplace g old new direct source = Err (ErrForeignReplace old).
Proof.
  intros H1 H2. unfold addReplace. rewrite checkLoop_conflict by assumption.
  reflexivity.
Qed.

Lemma annotate_other (c : string) (old : module.Version) (rs : list modfile.Replace) :
  (forall y, In y rs -> keyIs y old = false) ->
  map (annotate c old) rs = rs.
Proof.
  intros H. induction rs as [|r rs IH]; simpl; [reflexivity|].
  unfold annotate at 1. rewrite (H r (or_introl eq_refl)). f_equal.
  apply IH. intros y Hy. apply H. right. exact Hy.
Qed.

Lemma hits_false_keyIs (y : modfile.Replace) (old : module.Version) :
  modfile.hits y old = false -> keyIs y old = false.
Proof.
  intros H. destruct (keyIs y old) eqn:E; [|reflexivity].
  apply keyIs_hits in E. congruence.
Qed.

(** Nothing matches: the entry is appended, with its comment. *)
Lemma addReplace_fresh (g : modfile.File) (old new : module.Version)
  (direct : bool) (source : string) :
  (forall y, In y (modfile.Replace_ g) -> modfile.hits y old = false) ->
  addReplace g old new direct source
  = Ok (modfile.withReplace g
          (modfile.Replace_ g
           ++ [newEntry old new (blazedockComment direct source)])%list).
Proof.
  intros H. unfold addReplace. rewrite checkLoop_absent.
  2:{ intros y Hy. apply hits_false_keyIs, H, Hy. }
  rewrite bind_Ok. unfold modfile.AddReplace. destruct old as [op ov], new as [np nv].
  simpl module.Path. simpl module.Version_.
  rewrite modfile_addReplace_fresh by exact H. simpl modfile.Replace_.
  rewrite map_app, annotate_other.
  2:{ intros y Hy. apply hits_false_keyIs, H, Hy. }
  simpl. unfold annotate. rewrite keyIs_refl. reflexivity.
Qed.

Lemma annotate_dead (c : string) (old : module.Version) (r : modfile.Replace) :
  modfile.Syntax r = None -> modfile.Syntax (annotate c old r) = None.
Proof.
  intros H. unfold annotate. destruct (keyIs r old); simpl; rewrite H; reflexivity.
Qed.

Lemma annotate_Old (c : string) (old : module.Version) (r : modfile.Replace) :
  modfile.Old (annotate c old r) = modfile.Old r.
Proof. unfold annotate. destruct (keyIs r old); reflexivity. Qed.

Lemma addReplace_rel (g g' : modfile.File) (old new : module.Version)
  (direct : bool) (source : string) :
  addReplace g old new direct source = Ok g' ->
  modfile.ModPath g' = modfile.ModPath g
  /\ modfile.Other g' = modfile.Other g
  /\ exists xs tail,
       modfile.Replace_ g' = (xs ++ tail)%list
       /\ Forall2 (entryRel old (blazedockComment direct source))
                  (modfile.Replace_ g) xs
       /\ (tail = []
           \/ tail = [newEntry old new (blazedockComment direct source)]).
Proof.
  unfold addReplace.
  destruct (rangeFrom (checkBody old) 0 _ g) as [g1|e] eqn:Hc; [|discriminate].
  rewrite bind_Ok. intros H. injection H as <-. simpl.
  apply checkLoop_ok in Hc.
  set (c := blazedockComment direct source).
  set (d := fun b y => if (b && modfile.sameKey y (module.Path old)
                                (module.Version_ old))%bool
                       then modfile.zeroReplace else y).
  assert (exists b, g1 = modfile.withReplace g (map (d b) (modfile.Replace_ g)))
    as [b ->].
  { destruct Hc as [->| ->].
    - exists false. unfold d. simpl. rewrite map_id, withReplace_self. reflexivity.
    - exists true. reflexivity. }
  simpl. split; [reflexivity|]. split; [reflexivity|].
  destruct old as [op ov], new as [np nv]. simpl module.Path. simpl module.Version_.
  destruct (modfile_addReplace_rel (module.mkVersion op ov) (module.mkVersion np nv)
              (map (d b) (modfile.Replace_ g))) as (ys & tail & -> & Hys & Ht).
  rewrite map_app.
  exists (map (annotate c (module.mkVersion op ov)) ys),
         (map (annotate c (module.mkVersion op ov)) tail).
  split; [reflexivity|]. split.
  - apply Forall2_map_r'. apply Forall2_map_l' in Hys.
    eapply Forall2_impl; [exact Hys|]. clear Hys.
    intros y x Hx. simpl in Hx. unfold entryRel.
    destruct (modfile.hits y (module.mkVersion op ov)) eqn:Hy.
    + (* matched by the library's loop *)
      assert (d b y = y \/ d b y = modfile.zeroReplace) as [Ed|Ed].
      { unfold d. destruct (_ && _)%bool; auto. }
      * rewrite Ed, Hy in Hx.
        destruct Hx as [->| ->]; [left; apply annotate_dead; reflexivity|].
        destruct (modfile.Syntax y) as [l|] eqn:El.
        -- right. split; [rewrite annotate_Old; reflexivity|].
           unfold annotate, updated. simpl. rewrite El. simpl.
           destruct (keyIs _ _); simpl; eauto 10.
        -- left. apply annotate_dead. unfold updated. simpl. rewrite El.
           reflexivity.
      * rewrite Ed in Hx. left. apply annotate_dead.
        destruct (modfile.hits modfile.zeroReplace _);
          [destruct Hx as [->| ->]|subst x]; reflexivity.
    + assert (d b y = y) as Ed.
      { unfold d. fold (keyIs y (module.mkVersion op ov)).
        rewrite (hits_false_keyIs _ _ Hy), andb_false_r. reflexivity. }
      rewrite Ed, Hy in Hx. subst x. unfold annotate.
      rewrite (hits_false_keyIs _ _ Hy). reflexivity.
  - destruct Ht as [->| ->]; [left; reflexivity|right].
    simpl. unfold annotate. rewrite keyIs_refl. reflexivity.
Qed.

(** ** An entry the linker does not own stays, or the linker stops *)

Lemma foldM_keeps {A B} (I : A -> Prop) (f : A -> B -> result A) (l : list B)
  (a a' : A) :
  I a ->
  (forall x b x', In b l -> I x -> f x b = Ok x' -> I x') ->
  foldM f l a = Ok a' -> I a'.
Proof.
  revert a. induction l as [|b l IH]; intros a Ha Hstep; simpl.
  - intros H; injection H as <-; exact Ha.
  - destruct (f a b) as [x|e] eqn:E; [|discriminate]. rewrite bind_Ok.
    apply IH.
    + eapply Hstep; [left; reflexivity|exact Ha|exact E].
    + intros y b' y' Hb. apply Hstep. right. exact Hb.
Qed.

Lemma foldM_blocked {A B} (I : A -> Prop) (f : A -> B -> result A) (l : list B)
  (a : A) :
  I a ->
  (forall x b x', In b l -> I x -> f x b = Ok x' -> I x') ->
  (exists b, In b l /\ forall x, I x -> isErr (f x b) = true) ->
  isErr (foldM f l a) = true.
Proof.
  revert a. induction l as [|b l IH]; intros a Ha Hstep [b0 [Hin Hb0]];
    [destruct Hin|].
  simpl. destruct (f a b) as [x|e] eqn:E; [|reflexivity]. rewrite bind_Ok.
  destruct Hin as [->|Hin].
  - specialize (Hb0 a Ha). rewrite E in Hb0. discriminate.
  - apply IH.
    + eapply Hstep; [left; reflexivity|exact Ha|exact E].
    + intros y b' y' Hb. apply Hstep. right. exact Hb.
    + exists b0. auto.
Qed.

Lemma Forall2_In_l {A B} (P : A -> B -> Prop) (l : list A) (k : list B) (a : A) :
  Forall2 P l k -> In a l -> exists b, In b k /\ P a b.
Proof.
  induction 1 as [|x y l k Hxy _ IH]; intros Hin; [destruct Hin|].
  destruct Hin as [->|Hin]; [exists y; simpl; auto|].
  destruct (IH Hin) as [b [Hb Pb]]. exists b. simpl. auto.
Qed.

Lemma Forall2_In_r {A B} (P : A -> B -> Prop) (l : list A) (k : list B) (b : B) :
  Forall2 P l k -> In b k -> exists a, In a l /\ P a b.
Proof.
  induction 1 as [|x y l k Hxy _ IH]; intros Hin; [destruct Hin|].
  destruct Hin as [->|Hin]; [exists x; simpl; auto|].
  destruct (IH Hin) as [a [Ha Pa]]. exists a. simpl. auto.
Qed.

Lemma hits_Old (y e : modfile.Replace) (old : module.Version) :
  modfile.Old y = modfile.Old e -> modfile.hits y old = modfile.hits e old.
Proof. unfold modfile.hits. intros ->. reflexivity. Qed.

Lemma addReplace_stops (e : modfile.Replace) (g : modfile.File)
  (new : module.Version) (direct : bool) (source : string) :
  standing e g ->
  addReplace g (modfile.Old e) new direct source
  = Err (ErrForeignReplace (modfile.Old e)).
Proof.
  intros [Hin Hown]. apply addReplace_conflict; [|exact Hown].
  exists e. split; [exact Hin | apply keyIs_refl].
Qed.

Lemma addReplace_keeps (e : modfile.Replace) (g g' : modfile.File)
  (old new : module.Version) (direct : bool) (source : string) :
  standing e g ->
  modfile.hits e old = false ->
  addReplace g old new direct source = Ok g' ->
  standing e g'.
Proof.
  intros [Hin Hown] Hh H.
  apply addReplace_rel in H as (_ & _ & xs & tail & Heq & Hrel & Ht).
  unfold standing. rewrite Heq. split.
  - apply in_or_app. left.
    destruct (Forall2_In_l _ _ _ e Hrel Hin) as [x [Hx Hr]].
    unfold entryRel in Hr. rewrite Hh in Hr. subst x. exact Hx.
  - intros r Hr Hk. apply in_app_or in Hr as [Hr|Hr].
    + destruct (Forall2_In_r _ _ _ r Hrel Hr) as [y [Hy Hyr]].
      unfold entryRel in Hyr.
      destruct (modfile.hits y old) eqn:Hyh.
      * destruct Hyr as [Hd|[Ho _]]; [unfold owned; rewrite Hd; reflexivity|].
        apply keyIs_eq in Hk. rewrite Ho in Hk.
        rewrite (hits_Old y e old Hk) in Hyh. congruence.
      * subst r. apply Hown; assumption.
    + destruct Ht as [->| ->]; [destruct Hr|].
      destruct Hr as [<-|[]]. simpl in Hk. apply keyIs_eq in Hk. simpl in Hk.
      exfalso. assert (keyIs e old = true) by (apply keyIs_eq; auto).
      apply keyIs_hits in H. congruence.
Qed.

Section Linking.

Variable Dir : string -> string.
Variable Rel : string -> string -> option string.

Lemma addReplace_step (e : modfile.Replace) (g g' : modfile.File)
  (old new : module.Version) (direct : bool) (source : string) :
  old = modfile.Old e \/ modfile.hits e old = false ->
  standing e g ->
  addReplace g old new direct source = Ok g' ->
  standing e g'.
Proof.
  intros [->|Hh] Hs H.
  - rewrite (addReplace_stops e g new direct source Hs) in H. discriminate.
  - eapply addReplace_keeps; eauto.
Qed.

Lemma linkDirect_step (e : modfile.Replace) (fn : string)
  (g g' : modfile.File) (m : goModule) :
  module.mkVersion (Name m) "" = modfile.Old e
  \/ modfile.hits e (module.mkVersion (Name m) "") = false ->
  standing e g ->
  linkDirect Dir Rel fn g m = Ok g' ->
  standing e g'.
Proof.
  intros Hk Hs. unfold linkDirect.
  destruct (Rel (Dir fn) (OriginPath m)); [|discriminate].
  apply addReplace_step; assumption.
Qed.

Lemma linkIndirect_step (e : modfile.Replace) (g g' : modfile.File)
  (m : goModule) :
  (forall r, In r (Replacements m) ->
     modfile.Old r = modfile.Old e \/ modfile.hits e (modfile.Old r) = false) ->
  standing e g ->
  linkIndirect g m = Ok g' ->
  standing e g'.
Proof.
  intros Hk Hs. unfold linkIndirect. apply foldM_keeps; [exact Hs|].
  intros x r x' Hr Hx. apply addReplace_step; auto.
Qed.

Lemma overrideKeys_direct (mods : list goModule) (m : goModule) :
  In m mods -> In (module.mkVersion (Name m) "") (overrideKeys mods).
Proof.
  intros H. apply in_or_app. left.
  apply (in_map (fun m => module.mkVersion (Name m) "")), H.
Qed.

Lemma overrideKeys_indirect (mods : list goModule) (m : goModule)
  (r : modfile.Replace) :
  In m mods -> In r (Replacements m) -> In (modfile.Old r) (overrideKeys mods).
Proof.
  intros Hm Hr. apply in_or_app. right. apply in_flat_map.
  exists m. split; [exact Hm|]. apply in_map, Hr.
Qed.

Lemma overrideKeys_inv (mods : list goModule) (k : module.Version) :
  In k (overrideKeys mods) ->
  (exists m, In m mods /\ k = module.mkVersion (Name m) "")
  \/ (exists m r, In m mods /\ In r (Replacements m) /\ k = modfile.Old r).
Proof.
  intros H. apply in_app_or in H as [H|H].
  - left. apply in_map_iff in H as [m [<- Hm]]. eauto.
  - right. apply in_flat_map in H as [m [Hm H]].
    apply in_map_iff in H as [r [<- Hr]]. eauto.
Qed.

(** With [e] standing in the file, a linking that overrides the key
    of [e] stops with an error, as long as none of its other keys is
    the path of [e] without a version. *)
Lemma linkBody_blocked (e : modfile.Replace) (mods : list goModule)
  (fn : string) (g : modfile.File) :
  standing e g ->
  In (modfile.Old e) (overrideKeys mods) ->
  (forall k, In k (overrideKeys mods) ->
     k = modfile.Old e \/ modfile.hits e k = false) ->
  isErr (linkBody Dir Rel mods fn g) = true.
Proof.
  intros Hs Hreq Hwild. unfold linkBody.
  assert (forall x m x', In m mods -> standing e x ->
            linkDirect Dir Rel fn x m = Ok x' -> standing e x') as Hd.
  { intros x m x' Hm. apply linkDirect_step, Hwild, overrideKeys_direct, Hm. }
  assert (forall x m x', In m mods -> standing e x ->
            linkIndirect x m = Ok x' -> standing e x') as Hi.
  { intros x m x' Hm. apply linkIndirect_step. intros r Hr.
    apply Hwild. eapply overrideKeys_indirect; eauto. }
  apply overrideKeys_inv in Hreq as [(m & Hm & Hk)|(m & r & Hm & Hr & Hk)].
  - assert (isErr (foldM (linkDirect Dir Rel fn) mods g) = true) as E.
    { apply (foldM_blocked (standing e)); [exact Hs|exact Hd|].
      exists m. split; [exact Hm|]. intros x Hx. unfold linkDirect.
      destruct (Rel (Dir fn) (OriginPath m)); [|reflexivity].
      rewrite <- Hk, (addReplace_stops e x _ true (OriginPackage m) Hx).
      reflexivity. }
    destruct (foldM (linkDirect Dir Rel fn) mods g); [discriminate|reflexivity].
  - destruct (foldM (linkDirect Dir Rel fn) mods g) as [g1|err] eqn:E1;
      [|reflexivity].
    rewrite bind_Ok.
    apply (foldM_blocked (standing e)); [|exact Hi|].
    + eapply foldM_keeps; [exact Hs|exact Hd|exact E1].
    + exists m. split; [exact Hm|]. intros x Hx. unfold linkIndirect.
      apply (foldM_blocked (standing e)); [exact Hx| |].
      * intros y r' y' Hr'. apply addReplace_step, Hwild.
        eapply overrideKeys_indirect; eauto.
      * exists r. split; [exact Hr|]. intros y Hy.
        rewrite <- Hk, (addReplace_stops e y _ false (OriginPackage m) Hy).
        reflexivity.
Qed.

End Linking.

(** ** The text a teardown leaves *)

Lemma format_parse {T} (x : modfile.Text T) :
  modfile.formatLine (modfile.parseLine x) = x.
Proof.
  destruct x as [tok suf]. unfold modfile.formatLine, modfile.parseLine. simpl.
  rewrite map_map. simpl. rewrite map_id. reflexivity.
Qed.

Lemma teardown_filter_gen (ks : list module.Version)
  (l : list (modfile.Text (module.Version * module.Version))) :
  (forall z, In z l -> existsb (keyIs (parseEntry z)) ks = ownedText z) ->
  omap (fun r => modfile.formatLine <$> modfile.Syntax r)
       (filter (fun r => modfile.live r = true) (dropKeys ks (map parseEntry l)))
  = unowned l.
Proof.
  induction l as [|z l IH]; intros H; [reflexivity|].
  simpl. unfold unowned. rewrite !filter_cons.
  rewrite (H z (or_introl eq_refl)).
  destruct (ownedText z) eqn:E; simpl.
  - apply IH. intros w Hw. apply H. right. exact Hw.
  - rewrite format_parse. f_equal.
    apply IH. intros w Hw. apply H. right. exact Hw.
Qed.

Lemma ownedKeys_parse (l : list (modfile.Text (module.Version * module.Version)))
  (k : module.Version) :
  In k (ownedKeys (map parseEntry l)) <->
  exists z, In z l /\ ownedText z = true /\ fst (modfile.TTok z) = k.
Proof.
  unfold ownedKeys. rewrite <- list_elem_of_In, list_elem_of_omap. split.
  - intros [r [Hr Hk]]. apply list_elem_of_In, in_map_iff in Hr as [z [<- Hz]].
    simpl in Hk. fold (ownedText z) in Hk.
    destruct (ownedText z) eqn:E; [|discriminate]. injection Hk as <-. eauto.
  - intros [z [Hz [Ho <-]]]. exists (parseEntry z). split.
    + apply list_elem_of_In, in_map, Hz.
    + simpl. fold (ownedText z). rewrite Ho. reflexivity.
Qed.

Lemma teardownText_clean (t : modfile.ModText) :
  cleanKeys t ->
  teardownText t
  = modfile.mkModText (modfile.MTModule t) (unowned (modfile.MTReplace t))
                      (modfile.MTOther t).
Proof.
  intros Hc. unfold teardownText, modfile.FormatMod. simpl. f_equal.
  fold parseEntry. unfold teardownList. apply teardown_filter_gen.
  intros z Hz. destruct (ownedText z) eqn:E.
  - apply existsb_exists. exists (fst (modfile.TTok z)).
    split; [|apply keyIs_eq; reflexivity].
    apply ownedKeys_parse. eauto.
  - destruct (existsb _ _) eqn:X; [|reflexivity]. exfalso.
    apply existsb_exists in X as [k [Hk Hz']]. apply keyIs_eq in Hz'.
    apply ownedKeys_parse in Hk as [w [Hw [Ho Hwk]]].
    apply (Hc w z Hw Hz Ho E). simpl in Hz'. congruence.
Qed.

Lemma hits_or_key (e : modfile.Replace) (k : module.Version) :
  (module.Path k = module.Path (modfile.Old e) -> module.Version_ k = "" ->
   k = modfile.Old e) ->
  k = modfile.Old e \/ modfile.hits e k = false.
Proof.
  intros H. destruct (modfile.hits e k) eqn:E; [left|right; reflexivity].
  unfold modfile.hits in E. apply andb_true_iff in E as [Hp Hv].
  apply String.eqb_eq in Hp. apply orb_true_iff in Hv as [Hv|Hv];
    apply String.eqb_eq in Hv.
  - apply H; auto.
  - destruct k, (modfile.Old e); simpl in *; congruence.
Qed.

Lemma In_unowned (l : list (modfile.Text (module.Version * module.Version)))
  (x : modfile.Text (module.Version * module.Version)) :
  In x (unowned l) <-> In x l /\ ownedText x = false.
Proof.
  unfold unowned. rewrite <- !list_elem_of_In, list_elem_of_filter. tauto.
Qed.

Lemma dropKeys_text (ks : list module.Version)
  (l : list (modfile.Text (module.Version * module.Version))) :
  omap (fun r => modfile.formatLine <$> modfile.Syntax r)
       (filter (fun r => modfile.live r = true) (dropKeys ks (map parseEntry l)))
  = filter (fun z => existsb (keyIs (parseEntry z)) ks = false) l.
Proof.
  induction l as [|z l IH]; [reflexivity|].
  simpl. rewrite (filter_cons (fun z => existsb (keyIs (parseEntry z)) ks = false)).
  destruct (existsb (keyIs (parseEntry z)) ks) eqn:E; simpl.
  - exact IH.
  - rewrite format_parse. f_equal. exact IH.
Qed.

Lemma hasOwnedKey_keys (l : list (modfile.Text (module.Version * module.Version)))
  (z : modfile.Text (module.Version * module.Version)) :
  existsb (keyIs (parseEntry z)) (ownedKeys (map parseEntry l)) = hasOwnedKey l z.
Proof.
  apply eq_true_iff_eq. unfold hasOwnedKey. rewrite !existsb_exists. split.
  - intros [k [Hk Hz]]. apply ownedKeys_parse in Hk as [w [Hw [Ho <-]]].
    apply keyIs_eq in Hz. exists w. split; [exact Hw|].
    rewrite Ho. simpl. apply bool_decide_eq_true. simpl in Hz. congruence.
  - intros [w [Hw H]]. apply andb_true_iff in H as [Ho Hk].
    apply bool_decide_eq_true in Hk. exists (fst (modfile.TTok w)). split.
    + apply ownedKeys_parse. eauto.
    + apply keyIs_eq. simpl. congruence.
Qed.

Lemma teardownText_exact (t : modfile.ModText) :
  teardownText t
  = modfile.mkModText (modfile.MTModule t)
      (filter (fun z => hasOwnedKey (modfile.MTReplace t) z = false)
              (modfile.MTReplace t))
      (modfile.MTOther t).
Proof.
  unfold teardownText, modfile.FormatMod. simpl. f_equal.
  fold parseEntry. unfold teardownList. rewrite dropKeys_text.
  apply list_filter_iff. intros z. rewrite hasOwnedKey_keys. tauto.
Qed.

Lemma hasOwnedKey_spec (l : list (modfile.Text (module.Version * module.Version)))
  (z : modfile.Text (module.Version * module.Version)) :
  hasOwnedKey l z = true
  <-> exists w, In w l /\ ownedText w = true
                /\ fst (modfile.TTok w) = fst (modfile.TTok z).
Proof.
  unfold hasOwnedKey. rewrite existsb_exists.
  split; intros (w & Hw & H); exists w; (split; [exact Hw|]).
  - apply andb_true_iff in H as [Ho Hk]. apply bool_decide_eq_true in Hk. auto.
  - destruct H as [Ho Hk]. apply andb_true_iff.
    split; [exact Ho | apply bool_decide_eq_true, Hk].
Qed.

Lemma In_keptText (l : list (modfile.Text (module.Version * module.Version)))
  (x : modfile.Text (module.Version * module.Version)) :
  In x (filter (fun z => hasOwnedKey l z = false) l) ->
  In x l /\ ownedText x = false.
Proof.
  rewrite <- !list_elem_of_In, list_elem_of_filter. intros [Hk Hx].
  split; [exact Hx|]. destruct (ownedText x) eqn:Ho; [|reflexivity].
  assert (hasOwnedKey l x = true); [|congruence].
  apply hasOwnedKey_spec. exists x. rewrite list_elem_of_In in Hx. auto.
Qed.

Section Conflict.

Variable Dir : string -> string.
Variable Rel : string -> string -> option string.

(** C1 (amended).  The target's go.mod has an entry [x] that the
    linker does not own, and the closure overrides the key of [x].
    Then, as long as no other key of the closure is the module path of
    [x] without a version, [linkGoModule] fails, and the go.mod on
    disk is the one its teardown step wrote: the owned direct and
    indirect entries are gone, the others, [x] among them, are
    there. *)
Theorem linkGoModule_conflict (fs : Files) (dst : Package)
  (mods : list goModule) (t : modfile.ModText)
  (x : modfile.Text (module.Version * module.Version)) :
  findGoMod (Sources dst) <> "" ->
  fs !! findGoMod (Sources dst) = Some (ModContent t) ->
  cleanKeys t ->
  In x (modfile.MTReplace t) ->
  ownedText x = false ->
  In (fst (modfile.TTok x)) (overrideKeys mods) ->
  (forall k, In k (overrideKeys mods) ->
     module.Path k = module.Path (fst (modfile.TTok x)) ->
     module.Version_ k = "" -> k = fst (modfile.TTok x)) ->
  exists err,
    linkGoModule Dir Rel fs dst mods
    = (<[findGoMod (Sources dst) :=
           ModContent (modfile.mkModText (modfile.MTModule t)
                         (unowned (modfile.MTReplace t))
                         (modfile.MTOther t))]> fs,
       Some err)
    /\ In x (unowned (modfile.MTReplace t)).
Proof.
  intros Hfn Hfs Hclean Hx Hox Hreq Hwild.
  unfold linkGoModule.
  rewrite (removeBlazedockReplaceRules_run fs dst t Hfn Hfs).
  rewrite (teardownText_clean t Hclean).
  set (t1 := modfile.mkModText _ _ _).
  rewrite (modifyGoMod_run _ dst t1 _ Hfn (lookup_insert_eq _ _ _)).
  assert (isErr (linkBody Dir Rel mods (findGoMod (Sources dst))
                   (modfile.parseMod t1)) = true) as E.
  { apply (linkBody_blocked Dir Rel (parseEntry x)).
    - split.
      + simpl. fold parseEntry. apply in_map, In_unowned. auto.
      + intros r Hr _. simpl in Hr. fold parseEntry in Hr.
        apply in_map_iff in Hr as [z [<- Hz]].
        apply In_unowned in Hz as [_ Hz]. exact Hz.
    - exact Hreq.
    - intros k Hk. apply hits_or_key. apply Hwild, Hk. }
  destruct (linkBody Dir Rel mods _ _) as [g|err]; [discriminate|].
  exists err. split; [reflexivity|]. apply In_unowned. auto.
Qed.

End Conflict.

(** * The scenarios, checked *)

Lemma isBlazedockReplace_classifies_witness :
  fst (isBlazedockReplace (Some (modfile.parseLine pinK))) = false
  /\ isBlazedockReplace
       (Some (modfile.parseLine
                (line (ver "example.com/k" "") (ver "../k" "")
                      ["// blazedock indirect from b:lib"])))
     = (true, blazedockReplaceIndirect).
Proof.
  split.
  - apply (proj1 (isBlazedockReplace_classifies
                    (Some (modfile.parseLine pinK)))).
    reflexivity.
  - apply (proj2 (isBlazedockReplace_classifies
                    (Some (modfile.parseLine
                       (line (ver "example.com/k" "") (ver "../k" "")
                             ["// blazedock indirect from b:lib"]))))
                 [] (modfile.mkComment "// blazedock indirect from b:lib" true) []);
      reflexivity.
Defined.

Lemma LinkGoWorkspace_absent_witness :
  LinkGoWorkspace exJoin oneBlock wsFiles ws
  = (wsFiles, Some (ErrNotGoWorkspace (exJoin (Origin ws) "go.work"))).
Proof.
  apply (LinkGoWorkspace_absent exJoin oneBlock wsFiles ws). reflexivity.
Defined.

Lemma collectReplacements_all_or_nothing_witness :
  exists e,
    collectReplacements exDir wsFiles ws = (None, Some e)
    /\ LinkGoModules exDir exRel wsFiles ws None = (wsFiles, [], Some e).
Proof.
  apply (collectReplacements_all_or_nothing exDir exRel wsFiles ws "bad:lib" bad None).
  - right. left. reflexivity.
  - reflexivity.
  - discriminate.
  - reflexivity.
Defined.

(** C3, as stated, fails: the teardown leaves the entry marked ignore,
    which carries the sentinel. *)
Lemma removeBlazedockReplaceRules_keeps_ignore :
  removeBlazedockReplaceRules appFiles app
  = (<[appFN := ModContent (modfile.mkModText "example.com/app"
                              [pinK; ignoredI] ["go 1.20"])]> appFiles, None)
  /\ isBlazedockReplace (Some (modfile.parseLine ignoredI))
     = (true, blazedockReplaceIgnore).
Proof.
  split; [|reflexivity].
  rewrite (removeBlazedockReplaceRules_run appFiles app appText);
    [reflexivity | discriminate | reflexivity].
Qed.

Lemma appText_cleanKeys : cleanKeys appText.
Proof.
  intros z w [<-|[<-|[<-|[]]]] [<-|[<-|[<-|[]]]] Hz Hw;
    try (vm_compute in Hz; discriminate Hz);
    try (vm_compute in Hw; discriminate Hw);
    discriminate.
Qed.

Lemma linkGoModule_conflict_witness :
  exists err,
    linkGoModule exDir exRel appFiles app [modB]
    = (<[findGoMod (Sources app) :=
           ModContent (modfile.mkModText (modfile.MTModule appText)
                         (unowned (modfile.MTReplace appText))
                         (modfile.MTOther appText))]> appFiles,
       Some err)
    /\ In pinK (unowned (modfile.MTReplace appText)).
Proof.
  apply (linkGoModule_conflict exDir exRel appFiles app [modB] appText pinK).
  - discriminate.
  - reflexivity.
  - exact appText_cleanKeys.
  - left. reflexivity.
  - reflexivity.
  - right. left. reflexivity.
  - intros k [<-|[<-|[]]]; simpl; intros; [discriminate | reflexivity].
Defined.

(** C1, as stated, fails: the conflict is met after the teardown has
    written the file, which has lost the link to [example.com/a]. *)
Lemma linkGoModule_conflict_rewrites :
  linkGoModule exDir exRel appFiles app [modB]
  = (<[appFN := ModContent (modfile.mkModText "example.com/app"
                              [pinK; ignoredI] ["go 1.20"])]> appFiles,
     Some (ErrForeignReplace (ver "example.com/k" "v1.0.0")))
  /\ (<[appFN := ModContent (modfile.mkModText "example.com/app"
                               [pinK; ignoredI] ["go 1.20"])]> appFiles) !! appFN
     <> appFiles !! appFN.
Proof.
  split; [vm_compute; reflexivity|].
  rewrite lookup_insert_eq. unfold appFiles. rewrite lookup_singleton_eq.
  intros H. injection H as H. discriminate H.
Qed.

(** C10.  Here [b] and [c] hand on an override of the same key with
    different targets; linking [top] raises no error and logs nothing,
    and the go.mod written holds one entry for the key: the target of
    [c], the later of the two in the order of module names, marked as
    coming from [c].  On the way, the replay of the override of [c]
    zeroes the entry written for [b] and appends its own. *)
Theorem linkGoModule_last_override_wins :
  LinkGoModules exDir exRel forkFiles forkWs (Some top)
  = (<["/w/top/go.mod" := ModContent topLinked]> forkFiles, [], None)
  /\ (exists mods mb mc,
        collectReplacements exDir forkFiles forkWs = (Some mods, None)
        /\ mods !! "b:lib" = Some mb
        /\ mods !! "c:lib" = Some mc
        /\ lessName mb mc = true
        /\ Replacements mb = [parseEntry pinOne]
        /\ Replacements mc = [parseEntry pinTwo])
  /\ (let linkB := newEntry (ver "example.com/b" "") (ver "../b" "") "// blazedock" in
      let linkC := newEntry (ver "example.com/c" "") (ver "../c" "") "// blazedock" in
      let key := ver "example.com/k" "v1.0.0" in
      addReplace
        (modfile.mkFile "example.com/top"
           [linkB; linkC;
            newEntry key (ver "example.com/fork-one" "v1.0.1")
                     (blazedockComment false "b:lib")] [])
        key (ver "example.com/fork-two" "v1.0.2") false "c:lib"
      = Ok (modfile.mkFile "example.com/top"
              [linkB; linkC; modfile.zeroReplace;
               newEntry key (ver "example.com/fork-two" "v1.0.2")
                        (blazedockComment false "c:lib")] [])).
Proof.
  split; [vm_compute; reflexivity|].
  split; [|vm_compute; reflexivity].
  eexists _,
    (mkGoModule "example.com/b" "/w/b" "b:lib" [parseEntry pinOne]),
    (mkGoModule "example.com/c" "/w/c" "c:lib" [parseEntry pinTwo]).
  split; [vm_compute; reflexivity|].
  repeat split; vm_compute; reflexivity.
Qed.

(** C2 at this input: the pin is foreign, and linking [svc] succeeds
    and rewrites it; no entry with its key and target is left. *)
Theorem LinkGoModules_rewrites_pin :
  ownedText pinA = false
  /\ fst (isBlazedockReplace (Some (modfile.parseLine pinA))) = false
  /\ LinkGoModules exDir exRel pinFiles pinWs (Some svc)
     = (<["/m/svc/go.mod" := ModContent svcOnce]> pinFiles, [], None)
  /\ ~ In (modfile.TTok pinA) (map modfile.TTok (modfile.MTReplace svcOnce)).
Proof.
  split; [reflexivity|]. split; [reflexivity|].
  split; [vm_compute; reflexivity|].
  simpl. intros [H|[H|[]]]; discriminate H.
Qed.

(** C4 at this input: with nothing changed in between, the second
    linking of [svc] fails and leaves a go.mod that differs from what
    the first one wrote. *)
Theorem LinkGoModules_second_run_differs :
  LinkGoModules exDir exRel pinFiles pinWs (Some svc)
  = (<["/m/svc/go.mod" := ModContent svcOnce]> pinFiles, [], None)
  /\ LinkGoModules exDir exRel
       (<["/m/svc/go.mod" := ModContent svcOnce]> pinFiles) pinWs (Some svc)
     = (<["/m/svc/go.mod" := ModContent svcTwice]> pinFiles, [],
        Some (ErrForeignReplace (ver "example.com/a" "")))
  /\ svcTwice <> svcOnce.
Proof.
  split; [vm_compute; reflexivity|].
  split; [vm_compute; reflexivity|].
  discriminate.
Qed.

(** ** The workspace manifest *)

Lemma ownedPaths_snoc (pre : list modfile.Use) (u : modfile.Use) :
  ownedPaths (pre ++ [u])
  = (ownedPaths pre
     ++ if sentinel (modfile.USyntax u) then [modfile.UPath u] else [])%list.
Proof.
  unfold ownedPaths. rewrite omap_app. simpl.
  destruct (sentinel (modfile.USyntax u)); reflexivity.
Qed.

Lemma dropPaths_snoc_drop (ps : list string) (p : string) (us : list modfile.Use)
  (o : list string) :
  modfile.DropUse (modfile.mkWorkFile (dropPaths ps us) o) p
  = modfile.mkWorkFile (dropPaths (ps ++ [p]) us) o.
Proof.
  unfold modfile.DropUse, dropPaths. simpl. f_equal. rewrite map_map.
  apply map_ext. intros u. rewrite existsb_app. simpl. rewrite orb_false_r.
  destruct (existsb (String.eqb (modfile.UPath u)) ps); simpl.
  - destruct p; reflexivity.
  - reflexivity.
Qed.

Lemma dropPaths_snoc_absorb (ps : list string) (p : string)
  (us : list modfile.Use) :
  existsb (String.eqb p) ps = true ->
  dropPaths (ps ++ [p]) us = dropPaths ps us.
Proof.
  intros H. unfold dropPaths. apply map_ext. intros u.
  rewrite existsb_app. simpl. rewrite orb_false_r.
  destruct (existsb (String.eqb (modfile.UPath u)) ps) eqn:E; [reflexivity|].
  rewrite orb_false_l.
  destruct (String.eqb_spec (modfile.UPath u) p) as [Hp|]; [|reflexivity].
  rewrite Hp in E. congruence.
Qed.

Lemma dropUseBody_at (ps : list string) (o : list string)
  (pre suf : list modfile.Use) (u : modfile.Use) :
  dropUseBody (length pre)
    (modfile.mkWorkFile (dropPaths ps (pre ++ u :: suf)) o)
  = Ok (modfile.mkWorkFile
          (if existsb (String.eqb (modfile.UPath u)) ps
           then dropPaths ps (pre ++ u :: suf)
           else if sentinel (modfile.USyntax u)
                then dropPaths (ps ++ [modfile.UPath u]) (pre ++ u :: suf)
                else dropPaths ps (pre ++ u :: suf)) o).
Proof.
  unfold dropUseBody. simpl modfile.Use_.
  unfold dropPaths at 1. rewrite lookup_map, list_lookup_middle by reflexivity.
  simpl. destruct (existsb (String.eqb (modfile.UPath u)) ps); simpl;
    [reflexivity|].
  fold (sentinel (modfile.USyntax u)).
  destruct (sentinel (modfile.USyntax u)); [|reflexivity].
  rewrite dropPaths_snoc_drop. reflexivity.
Qed.

Lemma dropUseLoop_from (o : list string) (suf pre : list modfile.Use) :
  rangeFrom dropUseBody (length pre) (length suf)
    (modfile.mkWorkFile (dropPaths (ownedPaths pre) (pre ++ suf)) o)
  = Ok (modfile.mkWorkFile (dropPaths (ownedPaths (pre ++ suf)) (pre ++ suf)) o).
Proof.
  revert pre. induction suf as [|u suf IH]; intros pre.
  - simpl. rewrite app_nil_r. reflexivity.
  - simpl length. rewrite rangeFrom_S, dropUseBody_at, bind_Ok.
    specialize (IH (pre ++ [u])%list).
    rewrite length_app, Nat.add_1_r, <- app_assoc in IH. simpl in IH.
    rewrite ownedPaths_snoc in IH.
    destruct (existsb (String.eqb (modfile.UPath u)) (ownedPaths pre)) eqn:E.
    + destruct (sentinel (modfile.USyntax u)).
      * rewrite dropPaths_snoc_absorb in IH by exact E. exact IH.
      * rewrite app_nil_r in IH. exact IH.
    + destruct (sentinel (modfile.USyntax u)).
      * exact IH.
      * rewrite app_nil_r in IH. exact IH.
Qed.

Lemma dropUseLoop_spec (f : modfile.WorkFile) :
  rangeFrom dropUseBody 0 (length (modfile.Use_ f)) f
  = Ok (modfile.mkWorkFile
          (dropPaths (ownedPaths (modfile.Use_ f)) (modfile.Use_ f))
          (modfile.WOther f)).
Proof.
  pose proof (dropUseLoop_from (modfile.WOther f) (modfile.Use_ f) []) as H.
  simpl in H. unfold dropPaths at 1 in H. simpl in H.
  rewrite map_id in H. destruct f; exact H.
Qed.

(** ** Sorting *)

Lemma In_insertBy {A} (less : A -> A -> bool) (x a : A) (l : list A) :
  In a (insertBy less x l) <-> a = x \/ In a l.
Proof.
  induction l as [|y l IH]; simpl; [intuition|].
  destruct (less y x); simpl; [rewrite IH|]; intuition.
Qed.

Lemma In_sortBy {A} (less : A -> A -> bool) (a : A) (l : list A) :
  In a (sortBy less l) <-> In a l.
Proof.
  induction l as [|x l IH]; simpl; [tauto|].
  rewrite In_insertBy, IH. intuition.
Qed.

Lemma ltb_trichotomy (a b : string) :
  String.ltb b a = false -> a <> b -> String.ltb a b = true.
Proof.
  unfold String.ltb. rewrite (String.compare_antisym a b).
  destruct (String.compare b a) eqn:E; simpl; try reflexivity; try discriminate.
  intros _ H. apply String.compare_eq_iff in E. congruence.
Qed.

Lemma Sorted_insertBy_ltb (x : string) (l : list string) :
  ~ In x l ->
  Sorted (fun a b => String.ltb a b = true) l ->
  Sorted (fun a b => String.ltb a b = true) (insertBy String.ltb x l).
Proof.
  intros Hx Hs. induction Hs as [|y l Hs IH Hd]; simpl.
  - constructor; constructor.
  - destruct (String.ltb y x) eqn:E.
    + constructor; [apply IH; intros H; apply Hx; right; exact H|].
      destruct Hd as [|z l Hz]; simpl.
      * constructor. exact E.
      * destruct (String.ltb z x); constructor; assumption.
    + constructor; [constructor; assumption|]. constructor.
      apply ltb_trichotomy; [exact E|]. intros ->. apply Hx. left. reflexivity.
Qed.

Lemma Sorted_sortBy_ltb (l : list string) :
  NoDup l -> Sorted (fun a b => String.ltb a b = true) (sortBy String.ltb l).
Proof.
  induction 1 as [|x l Hx Hnd IH]; simpl; [constructor|].
  apply Sorted_insertBy_ltb; [|exact IH].
  rewrite In_sortBy. rewrite <- list_elem_of_In. exact Hx.
Qed.

(** ** What the synchronizer writes *)

Lemma fold_AddNewUse (ps : list string) (f : modfile.WorkFile) :
  fold_left (fun f pth => modfile.AddNewUse f pth "") ps f
  = modfile.mkWorkFile (modfile.Use_ f ++ map newUse ps) (modfile.WOther f).
Proof.
  revert f; induction ps as [|p ps IH]; intros f; simpl.
  - rewrite app_nil_r. destruct f; reflexivity.
  - rewrite IH. simpl. rewrite <- app_assoc. reflexivity.
Qed.

Lemma inGoModules_In (workspace : Workspace) (p : string) :
  inGoModules workspace p = true <-> In p (goModulePaths workspace).
Proof.
  unfold inGoModules. rewrite existsb_exists. split.
  - intros [q [Hq E]]. apply String.eqb_eq in E. subst. exact Hq.
  - intros H. exists p. split; [exact H | apply String.eqb_refl].
Qed.

Lemma In_sortedPaths (workspace : Workspace) (p : string) :
  In p (sortedPaths workspace) <-> In p (goModulePaths workspace).
Proof.
  unfold sortedPaths. rewrite In_sortBy, <- !list_elem_of_In.
  apply elem_of_remove_dups.
Qed.

Lemma marked_new (workspace : Workspace) (ps : list string) :
  (forall p, In p ps -> inGoModules workspace p = true) ->
  omap (fun u => modfile.formatLine <$> modfile.USyntax u)
    (filter (fun u => modfile.liveUse u = true)
       (map (markUse workspace) (map newUse ps)))
  = map ownedUse ps.
Proof.
  induction ps as [|p ps IH]; intros H; [reflexivity|].
  simpl. unfold markUse at 1. simpl. rewrite (H p (or_introl eq_refl)).
  rewrite filter_cons. simpl. f_equal. apply IH.
  intros q Hq. apply H. right. exact Hq.
Qed.

Lemma Permutation_insertBy {A} (less : A -> A -> bool) (x : A) (l : list A) :
  Permutation (insertBy less x l) (x :: l).
Proof.
  induction l as [|y l IH]; [reflexivity|].
  cbn [insertBy]. destruct (less y x); [|reflexivity].
  rewrite IH. apply perm_swap.
Qed.

Lemma Permutation_sortBy {A} (less : A -> A -> bool) (l : list A) :
  Permutation (sortBy less l) l.
Proof.
  induction l as [|x l IH]; [reflexivity|].
  cbn [sortBy fold_right]. fold (sortBy less l).
  rewrite Permutation_insertBy, IH. reflexivity.
Qed.

Lemma oneBlock_sorts : modfile.sortsBlocks oneBlock.
Proof. intros f. apply Permutation_sortBy. Qed.

Lemma noBlock_sorts : modfile.sortsBlocks noBlock.
Proof. intros f. reflexivity. Qed.

Lemma syncWorkFile_text (SortBlocks : modfile.WorkFile -> modfile.WorkFile)
  (workspace : Workspace) (w : modfile.WorkText) :
  modfile.sortsBlocks SortBlocks ->
  exists f',
    syncWorkFile SortBlocks workspace (modfile.parseWork w) = Ok f'
    /\ Permutation (modfile.WTUse (modfile.FormatWork f'))
                   (modfile.WTUse (syncText workspace w)).
Proof.
  intros HS. unfold syncWorkFile.
  rewrite dropUseLoop_spec, bind_Ok, fold_AddNewUse.
  eexists. split; [reflexivity|].
  unfold modfile.FormatWork, modfile.CleanupWork.
  cbn [modfile.WTUse modfile.Use_].
  etransitivity; [apply omap_Permutation, filter_Permutation, HS|].
  cbn [modfile.Use_ syncText modfile.WTUse].
  rewrite map_app, filter_app, omap_app.
  rewrite (marked_new workspace (sortedPaths workspace))
    by (intros p Hp; apply inGoModules_In, In_sortedPaths, Hp).
  reflexivity.
Qed.

Lemma ownedPaths_parse (l : list (modfile.Text string)) (z : modfile.Text string) :
  In z l -> sentinel (Some (modfile.parseLine z)) = true ->
  existsb (String.eqb (modfile.TTok z)) (ownedPaths (map parseUse l)) = true.
Proof.
  intros Hz Hs. apply existsb_exists. exists (modfile.TTok z).
  split; [|apply String.eqb_refl].
  unfold ownedPaths. apply list_elem_of_In, list_elem_of_omap.
  exists (parseUse z). split; [apply list_elem_of_In, in_map, Hz|].
  simpl. rewrite Hs. reflexivity.
Qed.

Lemma keptUses_inv (workspace : Workspace) (l : list (modfile.Text string))
  (z : modfile.Text string) :
  In z (keptUses workspace l) ->
  exists z0,
    In z0 l
    /\ sentinel (Some (modfile.parseLine z0)) = false
    /\ z = if inGoModules workspace (modfile.TTok z0)
           then ownedUse (modfile.TTok z0) else z0.
Proof.
  unfold keptUses. intros H.
  apply list_elem_of_In, list_elem_of_omap in H as [u' [Hu' Hz]].
  apply list_elem_of_filter in Hu' as [_ Hu'].
  apply list_elem_of_In, in_map_iff in Hu' as [u1 [<- Hu1]].
  unfold dropPaths in Hu1. apply in_map_iff in Hu1 as [u [<- Hu]].
  apply in_map_iff in Hu as [z0 [<- Hz0]]. simpl in Hz.
  destruct (existsb (String.eqb (modfile.TTok z0)) _) eqn:E.
  - exfalso. unfold markUse in Hz. simpl in Hz.
    destruct (inGoModules workspace ""); discriminate.
  - exists z0. split; [exact Hz0|]. split.
    + destruct (sentinel (Some (modfile.parseLine z0))) eqn:S; [|reflexivity].
      rewrite (ownedPaths_parse l z0 Hz0 S) in E. discriminate.
    + unfold markUse in Hz. simpl in Hz.
      destruct (inGoModules workspace (modfile.TTok z0)); simpl in Hz;
        injection Hz as <-; [reflexivity|].
      fold (modfile.parseLine z0). apply format_parse.
Qed.



Lemma markUse_zero (workspace : Workspace) :
  markUse workspace modfile.zeroUse = modfile.zeroUse.
Proof.
  unfold markUse. destruct (inGoModules workspace _); reflexivity.
Qed.

Lemma keptUses_gen (workspace : Workspace) (ps : list string)
  (l : list (modfile.Text string)) :
  omap (fun u => modfile.formatLine <$> modfile.USyntax u)
    (filter (fun u => modfile.liveUse u = true)
       (map (markUse workspace) (dropPaths ps (map parseUse l))))
  = omap (syncLine workspace ps) l.
Proof.
  induction l as [|z l IH]; [reflexivity|].
  change (omap (syncLine workspace ps) (z :: l))
    with (match syncLine workspace ps z with
          | Some y => y :: omap (syncLine workspace ps) l
          | None => omap (syncLine workspace ps) l
          end).
  rewrite <- IH. clear IH.
  unfold dropPaths. cbn [map]. unfold syncLine.
  cbn [parseUse modfile.UPath].
  destruct (existsb (String.eqb (modfile.TTok z)) ps).
  - rewrite markUse_zero, filter_cons, decide_False by discriminate.
    reflexivity.
  - unfold markUse at 1. cbn [parseUse modfile.UPath modfile.USyntax].
    destruct (inGoModules workspace (modfile.TTok z));
      rewrite filter_cons, decide_True by reflexivity.
    + reflexivity.
    + simpl. rewrite format_parse. reflexivity.
Qed.

Lemma keptUses_syncLine (workspace : Workspace) (l : list (modfile.Text string)) :
  keptUses workspace l
  = omap (syncLine workspace (ownedPaths (map parseUse l))) l.
Proof. apply keptUses_gen. Qed.





Section Synchronizer.

Variable Join : string -> string -> string.
Variable SortBlocks : modfile.WorkFile -> modfile.WorkFile.
Hypothesis SortBlocks_sorts : modfile.sortsBlocks SortBlocks.

(** When go.work is there and parses, [LinkGoWorkspace] writes it,
    with the use lines of [syncText] in some order, and goes on to the
    teardowns. *)
Lemma LinkGoWorkspace_run (fs : Files) (workspace : Workspace)
  (w : modfile.WorkText) :
  fs !! Join (Origin workspace) "go.work" = Some (WorkContent w) ->
  exists w',
    Permutation (modfile.WTUse w') (modfile.WTUse (syncText workspace w))
    /\ LinkGoWorkspace Join SortBlocks fs workspace
       = dropAll (Packages workspace)
           (<[Join (Origin workspace) "go.work" := WorkContent w']> fs).
Proof.
  intros Hw. unfold LinkGoWorkspace, os.Stat, os.ReadFile, os.WriteFile.
  rewrite Hw. simpl.
  destruct (syncWorkFile_text SortBlocks workspace w SortBlocks_sorts)
    as (f' & -> & Hperm).
  try rewrite bind_Ok. exists (modfile.FormatWork f'). split; [exact Hperm|].
  reflexivity.
Qed.


End Synchronizer.



(** ** The direct links of a manifest *)

Lemma indirect_comment (source : string) :
  scanSuffix [modfile.mkComment (blazedockComment false source) true]
  = (true, blazedockReplaceIndirect).
Proof.
  unfold scanSuffix. cbn [modfile.Token].
  assert (strings.Contains (blazedockComment false source) "blazedock" = true) as ->.
  { apply Contains_spec. exists "// ", (" indirect from " ++ source). reflexivity. }
  assert (strings.Contains (blazedockComment false source) " indirect " = true) as ->.
  { apply Contains_spec. exists "// blazedock", ("from " ++ source). reflexivity. }
  reflexivity.
Qed.

Lemma direct_comment (source : string) :
  scanSuffix [modfile.mkComment (blazedockComment true source) true]
  = (true, blazedockReplaceDirect).
Proof. reflexivity. Qed.

Lemma entryRel_direct (old : module.Version) (source : string)
  (y x : modfile.Replace) :
  entryRel old (blazedockComment false source) y x ->
  (modfile.hits y old = true -> isDirect (modfile.Syntax y) = false) ->
  x = y \/ (isDirect (modfile.Syntax y) = false
            /\ isDirect (modfile.Syntax x) = false).
Proof.
  unfold entryRel. intros H Hy.
  destruct (modfile.hits y old); [|left; exact H].
  right. split; [apply Hy; reflexivity|].
  destruct H as [->|(_ & l & l' & Hl & -> & [Hs|Hs])]; [reflexivity| |].
  - rewrite <- (Hy eq_refl), Hl. unfold isDirect, isBlazedockReplace.
    rewrite Hs. reflexivity.
  - unfold isDirect, isBlazedockReplace. rewrite Hs, indirect_comment.
    reflexivity.
Qed.

Lemma newEntry_indirect (old new : module.Version) (source : string) :
  isDirect (modfile.Syntax (newEntry old new (blazedockComment false source)))
  = false.
Proof.
  unfold newEntry, isDirect, isBlazedockReplace.
  cbn [modfile.Syntax modfile.LSuffix]. rewrite indirect_comment. reflexivity.
Qed.

Lemma filter_directLive_rel (rs xs : list modfile.Replace) :
  Forall2 (fun y x => x = y \/ (isDirect (modfile.Syntax y) = false
                                /\ isDirect (modfile.Syntax x) = false)) rs xs ->
  filter directLive xs = filter directLive rs.
Proof.
  induction 1 as [|y x rs xs H _ IH]; [reflexivity|].
  rewrite !filter_cons, IH. unfold directLive at 1 3.
  destruct H as [->|[Hy Hx]]; [reflexivity|].
  rewrite decide_False by congruence. rewrite decide_False by congruence.
  reflexivity.
Qed.

(** Replaying an override whose path is no direct link's leaves the
    direct links as they are. *)
Lemma addReplace_indirect_keeps (g g' : modfile.File)
  (old new : module.Version) (source : string) :
  (forall y, In y (modfile.Replace_ g) -> directLive y ->
             module.Path (modfile.Old y) <> module.Path old) ->
  addReplace g old new false source = Ok g' ->
  filter directLive (modfile.Replace_ g') = filter directLive (modfile.Replace_ g).
Proof.
  intros Hd H.
  apply addReplace_rel in H as (_ & _ & xs & tail & -> & Hrel & Ht).
  rewrite filter_app.
  assert (filter directLive tail = []) as ->.
  { destruct Ht as [->| ->]; [reflexivity|]. rewrite filter_cons.
    rewrite decide_False; [reflexivity|].
    unfold directLive. rewrite newEntry_indirect. discriminate. }
  rewrite app_nil_r. apply filter_directLive_rel.
  assert (forall y, In y (modfile.Replace_ g) -> modfile.hits y old = true ->
                    isDirect (modfile.Syntax y) = false) as Hh.
  { intros y Hy Hhit. destruct (isDirect (modfile.Syntax y)) eqn:E; [|reflexivity].
    exfalso. apply (Hd y Hy E). unfold modfile.hits in Hhit.
    apply andb_true_iff in Hhit as [Hp _]. apply String.eqb_eq in Hp. exact Hp. }
  clear Hd. induction Hrel as [|y x rs xs Hyx _ IH]; constructor.
  - eapply entryRel_direct; [exact Hyx|]. apply Hh. left. reflexivity.
  - apply IH. intros z Hz. apply Hh. right. exact Hz.
Qed.

Lemma foldM_cons {A B} (f : A -> B -> result A) (b : B) (l : list B) (a : A) :
  foldM f (b :: l) a = (a' ← f a b; foldM f l a').
Proof. reflexivity. Qed.

Lemma hits_unversioned (y : modfile.Replace) (p : string) :
  modfile.hits y (module.mkVersion p "") = String.eqb (module.Path (modfile.Old y)) p.
Proof. unfold modfile.hits. simpl. apply andb_true_r. Qed.

Section DirectLinks.

Variable Dir : string -> string.
Variable Rel : string -> string -> option string.

Lemma linkDirect_all (fn : string) (ms : list goModule) (g g1 : modfile.File) :
  NoDup (map Name ms) ->
  (forall y, In y (modfile.Replace_ g) ->
             ~ In (module.Path (modfile.Old y)) (map Name ms)) ->
  foldM (linkDirect Dir Rel fn) ms g = Ok g1 ->
  exists ds,
    g1 = modfile.withReplace g (modfile.Replace_ g ++ ds)%list
    /\ Forall2 (directEntry Dir Rel fn) ms ds.
Proof.
  revert g. induction ms as [|m ms IH]; intros g Hnd Hbase.
  - intros H; injection H as <-. exists []. rewrite app_nil_r, withReplace_self.
    split; [reflexivity|constructor].
  - change (map Name (m :: ms)) with (Name m :: map Name ms) in Hnd.
    apply NoDup_cons in Hnd as [Hm Hnd].
    rewrite foldM_cons.
    destruct (linkDirect Dir Rel fn g m) as [g'|e] eqn:Hl;
      [|rewrite bind_Err; discriminate].
    rewrite bind_Ok. unfold linkDirect in Hl.
    destruct (Rel (Dir fn) (OriginPath m)) as [rp|] eqn:Hrel; [|discriminate].
    rewrite addReplace_fresh in Hl.
    2:{ intros y Hy. rewrite hits_unversioned.
        apply String.eqb_neq. intros E. apply (Hbase y Hy). left. auto. }
    injection Hl as <-.
    intros H. apply IH in H as (ds & -> & Hds); [|exact Hnd|].
    + exists (newEntry (module.mkVersion (Name m) "") (module.mkVersion rp "")
                       "// blazedock" :: ds).
      split.
      * simpl. rewrite <- app_assoc. reflexivity.
      * constructor; [|exact Hds]. exists rp. auto.
    + simpl. intros y Hy. apply in_app_or in Hy as [Hy|[<-|[]]].
      * intros Hin. apply (Hbase y Hy). right. exact Hin.
      * simpl. intros Hin. apply Hm. apply list_elem_of_In. exact Hin.
Qed.

Lemma linkIndirect_all (names : list string) (ms : list goModule)
  (g1 g2 : modfile.File) :
  (forall m r, In m ms -> In r (Replacements m) ->
               ~ In (module.Path (modfile.Old r)) names) ->
  (forall y, In y (modfile.Replace_ g1) -> directLive y ->
             In (module.Path (modfile.Old y)) names) ->
  foldM linkIndirect ms g1 = Ok g2 ->
  filter directLive (modfile.Replace_ g2) = filter directLive (modfile.Replace_ g1).
Proof.
  intros Hrep Hdir.
  set (I := fun g : modfile.File =>
              filter directLive (modfile.Replace_ g)
              = filter directLive (modfile.Replace_ g1)).
  assert (forall g y, I g -> In y (modfile.Replace_ g) -> directLive y ->
                      In (module.Path (modfile.Old y)) names) as Hin.
  { intros g y Hg Hy Hd.
    assert (y ∈ filter directLive (modfile.Replace_ g)) as Hf.
    { apply list_elem_of_filter. split; [exact Hd|apply list_elem_of_In, Hy]. }
    rewrite Hg in Hf. apply list_elem_of_filter in Hf as [_ Hf].
    apply Hdir; [apply list_elem_of_In, Hf|exact Hd]. }
  apply (foldM_keeps I); [reflexivity|].
  intros x m x' Hm Hx. unfold linkIndirect.
  apply (foldM_keeps I); [exact Hx|].
  intros y r y' Hr Hy Hadd. unfold I in *. rewrite <- Hy.
  eapply addReplace_indirect_keeps; [|exact Hadd].
  intros z Hz Hd E. apply (Hrep m r Hm Hr). rewrite <- E.
  eapply Hin; eauto.
Qed.

End DirectLinks.

Lemma filter_none {A} (P : A -> Prop) `{!forall x, Decision (P x)} (l : list A) :
  (forall x, In x l -> ~ P x) -> filter P l = [].
Proof.
  induction l as [|a l IH]; intros Hall; [reflexivity|].
  rewrite filter_cons, decide_False by (apply Hall; left; reflexivity).
  apply IH. intros x Hx. apply Hall. right. exact Hx.
Qed.

Lemma filter_all {A} (P : A -> Prop) `{!forall x, Decision (P x)} (l : list A) :
  (forall x, In x l -> P x) -> filter P l = l.
Proof.
  induction l as [|a l IH]; intros Hall; [reflexivity|].
  rewrite filter_cons, decide_True by (apply Hall; left; reflexivity).
  f_equal. apply IH. intros x Hx. apply Hall. right. exact Hx.
Qed.

Lemma isDirect_roundtrip {T} (l : modfile.Line T) :
  isDirect (Some (modfile.parseLine (modfile.formatLine l))) = isDirect (Some l).
Proof. unfold isDirect. rewrite classify_roundtrip. reflexivity. Qed.

Lemma isDirect_owned {T} (rep : option (modfile.Line T)) :
  isDirect rep = true -> owned rep = true.
Proof.
  unfold isDirect, owned. intros H. apply bool_decide_eq_true in H.
  rewrite H. reflexivity.
Qed.

Lemma filter_direct_text (rs : list modfile.Replace) :
  filter isDirectText
    (omap (fun r => modfile.formatLine <$> modfile.Syntax r)
          (filter (fun r => modfile.live r = true) rs))
  = omap (fun r => modfile.formatLine <$> modfile.Syntax r)
         (filter directLive rs).
Proof.
  induction rs as [|[o n [l|]] rs IH]; [reflexivity| |].
  - rewrite (filter_cons (fun r => modfile.live r = true)).
    rewrite decide_True by reflexivity.
    rewrite (filter_cons directLive).
    change (omap (fun r => modfile.formatLine <$> modfile.Syntax r)
              (modfile.mkReplace o n (Some l)
               :: filter (fun r => modfile.live r = true) rs))
      with (modfile.formatLine l
            :: omap (fun r => modfile.formatLine <$> modfile.Syntax r)
                    (filter (fun r => modfile.live r = true) rs)).
    rewrite filter_cons, IH.
    destruct (decide (directLive (modfile.mkReplace o n (Some l)))) as [D|D];
      unfold directLive in D; simpl in D.
    + rewrite decide_True; [reflexivity|].
      unfold isDirectText. rewrite isDirect_roundtrip. exact D.
    + rewrite decide_False; [reflexivity|].
      unfold isDirectText. rewrite isDirect_roundtrip. exact D.
  - rewrite (filter_cons (fun r => modfile.live r = true)).
    rewrite decide_False by discriminate.
    rewrite (filter_cons directLive).
    rewrite decide_False by discriminate. exact IH.
Qed.

Section Exactness.

Variable Dir : string -> string.
Variable Rel : string -> string -> option string.

Lemma directEntry_text (fn : string) (ms : list goModule)
  (ds : list modfile.Replace) :
  Forall2 (directEntry Dir Rel fn) ms ds ->
  Forall2 (directText Dir Rel fn) ms
    (omap (fun r => modfile.formatLine <$> modfile.Syntax r) ds)
  /\ forall d, In d ds ->
       directLive d /\ In (module.Path (modfile.Old d)) (map Name ms).
Proof.
  induction 1 as [|m d ms ds (rp & Hrp & ->) _ [IH1 IH2]].
  - split; [constructor|intros d []].
  - split.
    + simpl. constructor; [|exact IH1]. exists rp. auto.
    + intros d [<-|Hd].
      * split; [reflexivity|left; reflexivity].
      * destruct (IH2 d Hd). split; [assumption|right; assumption].
Qed.

(** With distinct module names that no other entry and no replayed
    override touches, the manifest a successful linking writes has
    the links to the modules as its owned direct entries, one each,
    in their order. *)
Lemma linkGoModule_direct_links (fs fs' : Files) (dst : Package)
  (ms : list goModule) (t : modfile.ModText) :
  findGoMod (Sources dst) <> "" ->
  fs !! findGoMod (Sources dst) = Some (ModContent t) ->
  NoDup (map Name ms) ->
  (forall z, In z (modfile.MTReplace t) -> ownedText z = false ->
             ~ In (module.Path (fst (modfile.TTok z))) (map Name ms)) ->
  (forall m r, In m ms -> In r (Replacements m) ->
               ~ In (module.Path (modfile.Old r)) (map Name ms)) ->
  linkGoModule Dir Rel fs dst ms = (fs', None) ->
  exists t',
    fs' !! findGoMod (Sources dst) = Some (ModContent t')
    /\ Forall2 (directText Dir Rel (findGoMod (Sources dst))) ms
               (filter isDirectText (modfile.MTReplace t')).
Proof.
  intros Hfn Hfs Hnd Hbase Hrep. unfold linkGoModule.
  rewrite (removeBlazedockReplaceRules_run fs dst t Hfn Hfs).
  rewrite teardownText_exact.
  set (t1 := modfile.mkModText _ _ _).
  rewrite (modifyGoMod_run _ dst t1 _ Hfn (lookup_insert_eq _ _ _)).
  destruct (linkBody Dir Rel ms _ _) as [g2|e] eqn:Hlink; [|discriminate].
  intros H. injection H as <-. eexists. split; [apply lookup_insert_eq|].
  unfold linkBody in Hlink.
  destruct (foldM (linkDirect Dir Rel _) ms _) as [g1|e] eqn:H1;
    [|rewrite bind_Err in Hlink; discriminate].
  rewrite bind_Ok in Hlink.
  apply linkDirect_all in H1 as (ds & -> & Hds); [|exact Hnd|].
  2:{ simpl. fold parseEntry. intros y Hy.
      apply in_map_iff in Hy as [z [<- Hz]]. apply In_keptText in Hz as [Hz Ho].
      simpl. apply Hbase; assumption. }
  destruct (directEntry_text _ _ _ Hds) as [Htext Hlive].
  apply (linkIndirect_all (map Name ms)) in Hlink; [|exact Hrep|].
  2:{ simpl. fold parseEntry. intros y Hy Hd.
      apply in_app_or in Hy as [Hy|Hy]; [|apply Hlive, Hy].
      exfalso. apply in_map_iff in Hy as [z [<- Hz]].
      apply In_keptText in Hz as [_ Ho]. apply isDirect_owned in Hd.
      simpl in Hd. unfold ownedText in Ho. congruence. }
  simpl modfile.MTReplace. rewrite filter_direct_text, Hlink.
  simpl modfile.Replace_. fold parseEntry. rewrite filter_app.
  rewrite (filter_none directLive).
  2:{ intros y Hy Hd. apply in_map_iff in Hy as [z [<- Hz]].
      apply In_keptText in Hz as [_ Ho]. apply isDirect_owned in Hd.
      simpl in Hd. unfold ownedText in Ho. congruence. }
  rewrite (filter_all directLive) by (intros d Hd; apply Hlive, Hd).
  exact Htext.
Qed.

End Exactness.

(** ** Dependencies without a registry entry *)

Lemma resolveDeps_spec (mods : gmap string goModule) (deps : list Package) :
  resolveDeps mods deps = (resolved mods deps, missing mods deps).
Proof.
  induction deps as [|d deps IH]; [reflexivity|].
  simpl. rewrite IH. destruct (isGo (Type_ d)); simpl; [|reflexivity].
  destruct (mods !! FullName d); reflexivity.
Qed.

Lemma In_missing (mods : gmap string goModule) (deps : list Package) (d : Package) :
  In d deps -> isGo (Type_ d) = true -> mods !! FullName d = None ->
  In (FullName d) (missing mods deps).
Proof.
  intros Hd Hgo Hm. apply list_elem_of_In, list_elem_of_omap. exists d.
  split; [apply list_elem_of_In, Hd|]. rewrite Hgo, Hm. reflexivity.
Qed.

Lemma In_resolved (mods : gmap string goModule) (deps : list Package)
  (m : goModule) :
  In m (resolved mods deps) <->
  exists d, In d deps /\ isGo (Type_ d) = true /\ mods !! FullName d = Some m.
Proof.
  unfold resolved. rewrite <- list_elem_of_In, list_elem_of_omap. split.
  - intros [d [Hd H]]. exists d. apply list_elem_of_In in Hd.
    destruct (isGo (Type_ d)); [auto|discriminate].
  - intros [d [Hd [Hgo H]]]. exists d. rewrite Hgo.
    split; [apply list_elem_of_In, Hd|exact H].
Qed.

Section Degraded.

Variable Dir : string -> string.
Variable Rel : string -> string -> option string.

Lemma linkPackages_skip (mods : gmap string goModule) (target : option Package)
  (l rest : list (string * Package)) (fs : Files) (log : list string) :
  Forall (fun q => skipped target q.2 = true) l ->
  linkPackages Dir Rel mods target (l ++ rest) fs log
  = linkPackages Dir Rel mods target rest fs log.
Proof.
  induction 1 as [|[n q] l Hq _ IH]; [reflexivity|].
  simpl in *. rewrite Hq. exact IH.
Qed.

Lemma linkPackages_one (mods : gmap string goModule) (target : option Package)
  (n : string) (p : Package) (post : list (string * Package)) (fs : Files)
  (log : list string) :
  skipped target p = false ->
  Forall (fun q => skipped target q.2 = true) post ->
  linkPackages Dir Rel mods target ((n, p) :: post) fs log
  = ((linkGoModule Dir Rel fs p
        (sortBy lessName (resolved mods (GetTransitiveDependencies p)))).1,
     (log ++ missing mods (GetTransitiveDependencies p))%list,
     (linkGoModule Dir Rel fs p
        (sortBy lessName (resolved mods (GetTransitiveDependencies p)))).2).
Proof.
  intros Hp Hpost. simpl. rewrite Hp, resolveDeps_spec.
  destruct (linkGoModule Dir Rel fs p _) as [fs' [e|]]; [reflexivity|].
  pose proof (linkPackages_skip mods target post [] fs'
                (log ++ missing mods (GetTransitiveDependencies p))%list Hpost) as H.
  rewrite app_nil_r in H. rewrite H. reflexivity.
Qed.

End Degraded.

Section MissingEntry.

Variable Dir : string -> string.
Variable Rel : string -> string -> option string.

(** C6 (amended).  A Go dependency of the target without a registry
    entry is not an error: it is logged and left out, and the target is
    linked with the modules of the dependencies the registry knows, in
    the order of their names; files and error are those of that
    linking.  When it succeeds, and the names of those modules are
    distinct and are the module path of no entry the manifest keeps
    and of no override handed on, the owned direct entries of the
    manifest written are the links to those modules, one each, in that
    order. *)
Theorem LinkGoModules_missing_dependency (fs : Files) (workspace : Workspace)
  (mods : gmap string goModule) (n : string) (p : Package)
  (pre post : list (string * Package)) :
  collectReplacements Dir fs workspace = (Some mods, None) ->
  Packages workspace = (pre ++ (n, p) :: post)%list ->
  Forall (fun q => skipped (Some p) q.2 = true) pre ->
  Forall (fun q => skipped (Some p) q.2 = true) post ->
  isGo (Type_ p) = true ->
  let deps := GetTransitiveDependencies p in
  let ms := sortBy lessName (resolved mods deps) in
  LinkGoModules Dir Rel fs workspace (Some p)
  = ((linkGoModule Dir Rel fs p ms).1, missing mods deps,
     (linkGoModule Dir Rel fs p ms).2)
  /\ (forall d, In d deps -> isGo (Type_ d) = true ->
                mods !! FullName d = None ->
                In (FullName d) (missing mods deps))
  /\ (forall m, In m ms <->
        exists d, In d deps /\ isGo (Type_ d) = true
                  /\ mods !! FullName d = Some m)
  /\ (forall t fs',
        fs !! findGoMod (Sources p) = Some (ModContent t) ->
        NoDup (map Name ms) ->
        (forall z, In z (modfile.MTReplace t) -> ownedText z = false ->
                   ~ In (module.Path (fst (modfile.TTok z))) (map Name ms)) ->
        (forall m r, In m ms -> In r (Replacements m) ->
                     ~ In (module.Path (modfile.Old r)) (map Name ms)) ->
        linkGoModule Dir Rel fs p ms = (fs', None) ->
        exists t',
          fs' !! findGoMod (Sources p) = Some (ModContent t')
          /\ Forall2 (directText Dir Rel (findGoMod (Sources p))) ms
                     (filter isDirectText (modfile.MTReplace t'))).
Proof.
  intros Hcol Hps Hpre Hpost Hgo deps ms.
  assert (skipped (Some p) p = false) as Hp.
  { unfold skipped. rewrite Hgo, String.eqb_refl. reflexivity. }
  split; [|split; [|split]].
  - unfold LinkGoModules. rewrite Hcol, Hps. simpl default.
    rewrite (linkPackages_skip Dir Rel mods (Some p) pre _ fs [] Hpre).
    rewrite (linkPackages_one Dir Rel mods (Some p) n p post fs [] Hp Hpost).
    reflexivity.
  - intros d Hd Hdgo Hm. apply In_missing; assumption.
  - intros m. unfold ms. rewrite In_sortBy. apply In_resolved.
  - intros t fs' Hfs Hnd Hbase Hrep Hlink.
    assert (findGoMod (Sources p) <> "") as Hfn.
    { unfold linkGoModule in Hlink.
      destruct (removeBlazedockReplaceRules fs p) as [fs1 [e|]] eqn:E;
        [discriminate|].
      unfold removeBlazedockReplaceRules in E.
      apply modifyGoMod_ok in E as (_ & _ & Hfn & _). exact Hfn. }
    eapply linkGoModule_direct_links; eauto.
Qed.

End MissingEntry.

(** C6, as stated, fails: [a] and [b] are both resolved and [ghost] is
    skipped with a warning, but the manifest written has one owned
    direct entry, the one for [b]; the link to [a] has been replaced by
    the override [b] hands on. *)
Lemma LinkGoModules_missing_not_exact :
  collectReplacements exDir (vFiles [vendoredA]) vWs
  = (Some (vMods [vendoredA]), None)
  /\ LinkGoModules exDir exRel (vFiles [vendoredA]) vWs (Some vApp)
     = (<["/v/app/go.mod" := ModContent vLinked]> (vFiles [vendoredA]),
        ["ghost:lib"], None)
  /\ map Name (resolved (vMods [vendoredA]) (GetTransitiveDependencies vApp))
     = ["example.com/a"; "example.com/b"]
  /\ filter isDirectText (modfile.MTReplace vLinked)
     = [line (ver "example.com/b" "") (ver "../b" "") ["// blazedock"]].
Proof. repeat split; vm_compute; reflexivity. Qed.

Lemma LinkGoModules_missing_dependency_witness :
  LinkGoModules exDir exRel (vFiles []) vWs (Some vApp)
  = (<["/v/app/go.mod" := ModContent vLinkedPlain]> (vFiles []),
     ["ghost:lib"], None)
  /\ In "ghost:lib" (missing (vMods []) (GetTransitiveDependencies vApp))
  /\ exists t',
       (<["/v/app/go.mod" := ModContent vLinkedPlain]> (vFiles []))
         !! findGoMod (Sources vApp) = Some (ModContent t')
       /\ Forall2 (directText exDir exRel (findGoMod (Sources vApp)))
            (sortBy lessName (resolved (vMods []) (GetTransitiveDependencies vApp)))
            (filter isDirectText (modfile.MTReplace t')).
Proof.
  destruct (LinkGoModules_missing_dependency exDir exRel (vFiles []) vWs
              (vMods []) "app:app" vApp [("a:lib", vA); ("b:lib", vB)] [])
    as (H1 & H2 & _ & H4).
  - vm_compute; reflexivity.
  - reflexivity.
  - repeat constructor.
  - constructor.
  - reflexivity.
  - split; [vm_compute; reflexivity|]. split.
    + apply (H2 ghost); [right; right; left; reflexivity|reflexivity|].
      vm_compute; reflexivity.
    + apply (H4 (modfile.mkModText "example.com/app" [] [])).
      * vm_compute; reflexivity.
      * refine (bool_decide_unpack _ _). vm_compute. exact I.
      * intros z [].
      * intros m r Hm Hr. apply In_sortBy in Hm.
        assert (Replacements m = []) as E.
        { vm_compute in Hm. destruct Hm as [<-|[<-|[]]]; reflexivity. }
        rewrite E in Hr. destruct Hr.
      * vm_compute; reflexivity.
Defined.

Section Keeping.

Variable Dir : string -> string.
Variable Rel : string -> string -> option string.

Lemma linkBody_keeps (e : modfile.Replace) (mods : list goModule)
  (fn : string) (g g' : modfile.File) :
  standing e g ->
  (forall k, In k (overrideKeys mods) -> modfile.hits e k = false) ->
  linkBody Dir Rel mods fn g = Ok g' ->
  standing e g'.
Proof.
  intros Hs Hk. unfold linkBody.
  destruct (foldM (linkDirect Dir Rel fn) mods g) as [g1|err] eqn:E1;
    [|rewrite bind_Err; discriminate].
  rewrite bind_Ok. apply foldM_keeps.
  - eapply foldM_keeps; [exact Hs| |exact E1].
    intros x m x' Hm. apply linkDirect_step. right.
    apply Hk, overrideKeys_direct, Hm.
  - intros x m x' Hm. apply linkIndirect_step. intros r Hr. right.
    apply Hk. eapply overrideKeys_indirect; eauto.
Qed.

(** An entry the linker does not own is in the manifest a successful
    linking writes, as it was, when no override of the closure is for
    its module path with its version or with none. *)
Lemma linkGoModule_keeps (fs fs' : Files) (dst : Package)
  (mods : list goModule) (t : modfile.ModText)
  (x : modfile.Text (module.Version * module.Version)) :
  fs !! findGoMod (Sources dst) = Some (ModContent t) ->
  cleanKeys t ->
  In x (modfile.MTReplace t) ->
  ownedText x = false ->
  (forall k, In k (overrideKeys mods) -> modfile.hits (parseEntry x) k = false) ->
  linkGoModule Dir Rel fs dst mods = (fs', None) ->
  exists t',
    fs' !! findGoMod (Sources dst) = Some (ModContent t')
    /\ In x (modfile.MTReplace t').
Proof.
  intros Hfs Hclean Hx Hox Hk Hlink.
  assert (findGoMod (Sources dst) <> "") as Hfn.
  { unfold linkGoModule in Hlink.
    destruct (removeBlazedockReplaceRules fs dst) as [fs1 [e|]] eqn:E;
      [discriminate|].
    unfold removeBlazedockReplaceRules in E.
    apply modifyGoMod_ok in E as (_ & _ & Hfn & _). exact Hfn. }
  unfold linkGoModule in Hlink.
  rewrite (removeBlazedockReplaceRules_run fs dst t Hfn Hfs) in Hlink.
  rewrite (teardownText_clean t Hclean) in Hlink.
  set (t1 := modfile.mkModText _ _ _) in Hlink.
  rewrite (modifyGoMod_run _ dst t1 _ Hfn (lookup_insert_eq _ _ _)) in Hlink.
  destruct (linkBody Dir Rel mods _ _) as [g2|e] eqn:Hb; [|discriminate].
  injection Hlink as <-. eexists. split; [apply lookup_insert_eq|].
  apply (linkBody_keeps (parseEntry x)) in Hb as [Hin _]; [| |exact Hk].
  - simpl. apply list_elem_of_In, list_elem_of_omap. exists (parseEntry x).
    split; [|simpl; rewrite format_parse; reflexivity].
    apply list_elem_of_filter. split; [reflexivity|apply list_elem_of_In, Hin].
  - split.
    + simpl. fold parseEntry. apply in_map, In_unowned. auto.
    + intros r Hr _. simpl in Hr. fold parseEntry in Hr.
      apply in_map_iff in Hr as [z [<- Hz]].
      apply In_unowned in Hz as [_ Hz]. exact Hz.
Qed.

End Keeping.

(** * Further properties of the linker *)

(** ** The teardown, exactly *)

(** C3 (amended).  A teardown that succeeds writes the manifest it
    read without the replace lines that are owned direct or indirect
    and without the lines that have the (path, version) key of such a
    line: no line of the manifest written is owned direct or indirect,
    every other line stays, in its place, and a line marked ignore
    stays exactly when no owned direct or indirect line has its key. *)
Theorem removeBlazedockReplaceRules_clears (fs fs' : Files) (dst : Package) :
  removeBlazedockReplaceRules fs dst = (fs', None) ->
  exists t t',
    fs !! findGoMod (Sources dst) = Some (ModContent t)
    /\ fs' !! findGoMod (Sources dst) = Some (ModContent t')
    /\ (forall x, In x (modfile.MTReplace t') ->
          isBlazedockReplace (Some (modfile.parseLine x))
            <> (true, blazedockReplaceDirect)
          /\ isBlazedockReplace (Some (modfile.parseLine x))
               <> (true, blazedockReplaceIndirect))
    /\ modfile.MTReplace t'
       = filter (fun z => hasOwnedKey (modfile.MTReplace t) z = false)
                (modfile.MTReplace t)
    /\ (forall z, In z (modfile.MTReplace t) ->
          isBlazedockReplace (Some (modfile.parseLine z))
          = (true, blazedockReplaceIgnore) ->
          (In z (modfile.MTReplace t')
           <-> ~ exists w, In w (modfile.MTReplace t)
                           /\ ownedText w = true
                           /\ fst (modfile.TTok w) = fst (modfile.TTok z)))
    /\ modfile.MTModule t' = modfile.MTModule t
    /\ modfile.MTOther t' = modfile.MTOther t.
Proof.
  intros H. pose proof H as H0. unfold removeBlazedockReplaceRules in H0.
  apply modifyGoMod_ok in H0 as (t & g & Hfn & Hfs & _ & _).
  rewrite (removeBlazedockReplaceRules_run fs dst t) in H by assumption.
  injection H as <-. exists t, (teardownText t).
  split; [exact Hfs|]. split; [apply lookup_insert_eq|]. split.
  { intros x Hx. apply FormatMod_Cleanup_In in Hx as (r & l & Hr & Hl & ->).
    apply teardownList_owned in Hr. rewrite Hl in Hr.
    rewrite classify_roundtrip. unfold owned, isBlazedockReplace in *.
    split; intros E; rewrite E in Hr; vm_compute in Hr; discriminate. }
  rewrite teardownText_exact. cbn [modfile.MTReplace modfile.MTModule modfile.MTOther].
  split; [reflexivity|]. split; [|split; reflexivity].
  intros z Hz _. rewrite <- hasOwnedKey_spec, <- list_elem_of_In, list_elem_of_filter.
  rewrite list_elem_of_In. split.
  - intros [Hk _]. rewrite Hk. discriminate.
  - intros Hk. split; [|exact Hz].
    destruct (hasOwnedKey (modfile.MTReplace t) z); [contradiction|reflexivity].
Qed.

Lemma removeBlazedockReplaceRules_clears_witness :
  exists t t',
    appFiles !! findGoMod (Sources app) = Some (ModContent t)
    /\ (<[appFN := ModContent (teardownText appText)]> appFiles)
         !! findGoMod (Sources app) = Some (ModContent t')
    /\ (forall x, In x (modfile.MTReplace t') ->
          isBlazedockReplace (Some (modfile.parseLine x))
            <> (true, blazedockReplaceDirect)
          /\ isBlazedockReplace (Some (modfile.parseLine x))
               <> (true, blazedockReplaceIndirect))
    /\ modfile.MTReplace t'
       = filter (fun z => hasOwnedKey (modfile.MTReplace t) z = false)
                (modfile.MTReplace t)
    /\ (forall z, In z (modfile.MTReplace t) ->
          isBlazedockReplace (Some (modfile.parseLine z))
          = (true, blazedockReplaceIgnore) ->
          (In z (modfile.MTReplace t')
           <-> ~ exists w, In w (modfile.MTReplace t)
                           /\ ownedText w = true
                           /\ fst (modfile.TTok w) = fst (modfile.TTok z)))
    /\ modfile.MTModule t' = modfile.MTModule t
    /\ modfile.MTOther t' = modfile.MTOther t.
Proof.
  apply (removeBlazedockReplaceRules_clears appFiles _ app).
  apply (removeBlazedockReplaceRules_run appFiles app appText);
    [discriminate | reflexivity].
Defined.

(** X1.  On a package whose go.mod is there and parses, the teardown
    cannot fail, and what it writes is the old manifest without the
    replace lines that have the key of an owned direct or indirect
    line: the other lines, the module path and the other directives are
    as they were, in their order. *)
Theorem removeBlazedockReplaceRules_exact (fs : Files) (dst : Package)
  (t : modfile.ModText) :
  findGoMod (Sources dst) <> "" ->
  fs !! findGoMod (Sources dst) = Some (ModContent t) ->
  removeBlazedockReplaceRules fs dst
  = (<[findGoMod (Sources dst) :=
         ModContent
           (modfile.mkModText (modfile.MTModule t)
              (filter (fun z => hasOwnedKey (modfile.MTReplace t) z = false)
                      (modfile.MTReplace t))
              (modfile.MTOther t))]> fs,
     None).
Proof.
  intros Hfn Hfs. rewrite (removeBlazedockReplaceRules_run fs dst t Hfn Hfs).
  rewrite teardownText_exact. reflexivity.
Qed.

Lemma removeBlazedockReplaceRules_exact_witness :
  removeBlazedockReplaceRules appFiles app
  = (<[findGoMod (Sources app) :=
         ModContent
           (modfile.mkModText (modfile.MTModule appText)
              (filter (fun z => hasOwnedKey (modfile.MTReplace appText) z = false)
                      (modfile.MTReplace appText))
              (modfile.MTOther appText))]> appFiles,
     None).
Proof.
  apply (removeBlazedockReplaceRules_exact appFiles app appText);
    [discriminate | reflexivity].
Defined.

Lemma teardownText_unowned (t : modfile.ModText)
  (x : modfile.Text (module.Version * module.Version)) :
  In x (modfile.MTReplace (teardownText t)) -> ownedText x = false.
Proof.
  intros Hx. apply FormatMod_Cleanup_In in Hx as (r & l & Hr & Hl & ->).
  apply teardownList_owned in Hr. rewrite Hl in Hr.
  rewrite ownedText_formatLine. exact Hr.
Qed.

Lemma teardownText_idem (t : modfile.ModText) :
  teardownText (teardownText t) = teardownText t.
Proof.
  rewrite (teardownText_clean (teardownText t)).
  - unfold unowned. rewrite filter_all.
    + destruct (teardownText t); reflexivity.
    + intros x Hx. apply (teardownText_unowned t x Hx).
  - intros z w Hz _ Ho. rewrite (teardownText_unowned t z Hz) in Ho. discriminate.
Qed.

(** X2.  A teardown that has succeeded changes nothing when it is run
    again. *)
Theorem removeBlazedockReplaceRules_idempotent (fs fs1 : Files) (dst : Package) :
  removeBlazedockReplaceRules fs dst = (fs1, None) ->
  removeBlazedockReplaceRules fs1 dst = (fs1, None).
Proof.
  intros H. pose proof H as H0. unfold removeBlazedockReplaceRules in H0.
  apply modifyGoMod_ok in H0 as (t & g & Hfn & Hfs & _ & _).
  rewrite (removeBlazedockReplaceRules_run fs dst t Hfn Hfs) in H.
  injection H as <-.
  rewrite (removeBlazedockReplaceRules_run _ dst (teardownText t) Hfn
             (lookup_insert_eq _ _ _)).
  rewrite teardownText_idem, insert_insert_eq. reflexivity.
Qed.

Lemma removeBlazedockReplaceRules_idempotent_witness :
  removeBlazedockReplaceRules
    (<[appFN := ModContent (teardownText appText)]> appFiles) app
  = (<[appFN := ModContent (teardownText appText)]> appFiles, None).
Proof.
  apply (removeBlazedockReplaceRules_idempotent appFiles _ app).
  apply (removeBlazedockReplaceRules_run appFiles app appText);
    [discriminate | reflexivity].
Defined.

(** ** What a linking can touch *)

Lemma modifyGoMod_frame (fs : Files) (dst : Package)
  (mod_ : string -> modfile.File -> result modfile.File) (k : string) :
  k <> findGoMod (Sources dst) ->
  (modifyGoMod fs dst mod_).1 !! k = fs !! k.
Proof.
  intros Hk. unfold modifyGoMod, os.WriteFile.
  destruct (String.eqb _ _); [reflexivity|].
  destruct (_ ≫= _) as [g|e]; [|reflexivity].
  simpl. apply lookup_insert_ne. congruence.
Qed.

Section Frame.

Variable Dir : string -> string.
Variable Rel : string -> string -> option string.

(** X3.  Whatever it returns, [linkGoModule] leaves every file other
    than the go.mod of its package as it was; so does the teardown. *)
Theorem linkGoModule_frame (fs : Files) (dst : Package) (mods : list goModule)
  (k : string) :
  k <> findGoMod (Sources dst) ->
  (linkGoModule Dir Rel fs dst mods).1 !! k = fs !! k
  /\ (removeBlazedockReplaceRules fs dst).1 !! k = fs !! k.
Proof.
  intros Hk.
  assert ((removeBlazedockReplaceRules fs dst).1 !! k = fs !! k) as Hr
    by (apply modifyGoMod_frame, Hk).
  split; [|exact Hr]. unfold linkGoModule.
  destruct (removeBlazedockReplaceRules fs dst) as [fs1 [e|]]; [exact Hr|].
  rewrite modifyGoMod_frame by exact Hk. exact Hr.
Qed.

(** X4.  A package none of whose sources ends in go.mod cannot be
    linked or torn down: both stop with the not-exist error, and no
    file is written. *)
Theorem linkGoModule_no_gomod (fs : Files) (dst : Package) (mods : list goModule) :
  Forall (fun f => strings.HasSuffix f "go.mod" = false) (Sources dst) ->
  linkGoModule Dir Rel fs dst mods = (fs, Some (ErrNotExist "go.mod"))
  /\ removeBlazedockReplaceRules fs dst = (fs, Some (ErrNotExist "go.mod")).
Proof.
  intros H.
  assert (findGoMod (Sources dst) = "") as E.
  { induction H as [|f l Hf _ IH]; [reflexivity|]. simpl. rewrite Hf. exact IH. }
  assert (removeBlazedockReplaceRules fs dst = (fs, Some (ErrNotExist "go.mod")))
    as Hr.
  { unfold removeBlazedockReplaceRules, modifyGoMod. rewrite E. reflexivity. }
  split; [|exact Hr]. unfold linkGoModule. rewrite Hr. reflexivity.
Qed.

End Frame.

Lemma linkGoModule_frame_witness :
  (linkGoModule exDir exRel wsFiles app [modB]).1 !! "/ws/bad/go.mod"
  = wsFiles !! "/ws/bad/go.mod"
  /\ (removeBlazedockReplaceRules wsFiles app).1 !! "/ws/bad/go.mod"
     = wsFiles !! "/ws/bad/go.mod".
Proof.
  apply (linkGoModule_frame exDir exRel wsFiles app [modB] "/ws/bad/go.mod").
  discriminate.
Defined.

Lemma linkGoModule_no_gomod_witness :
  linkGoModule exDir exRel (vFiles []) ghost [] = (vFiles [], Some (ErrNotExist "go.mod"))
  /\ removeBlazedockReplaceRules (vFiles []) ghost
     = (vFiles [], Some (ErrNotExist "go.mod")).
Proof.
  apply (linkGoModule_no_gomod exDir exRel (vFiles []) ghost []). constructor.
Defined.

(** ** [addReplace] alone *)

Lemma rangeFrom_err {A} (body : nat -> A -> result A) (n i : nat) (a : A)
  (e : error) :
  rangeFrom body i n a = Err e -> exists j x, body j x = Err e.
Proof.
  revert i a. induction n as [|n IH]; intros i a; simpl; [discriminate|].
  destruct (body i a) as [x|e'] eqn:E.
  - rewrite bind_Ok. apply IH.
  - rewrite bind_Err. intros H. injection H as <-. eauto.
Qed.

Lemma checkBody_err (old : module.Version) (j : nat) (x : modfile.File)
  (e : error) :
  checkBody old j x = Err e -> e = ErrForeignReplace old.
Proof.
  unfold checkBody. destruct (modfile.Replace_ x !! j); [|discriminate].
  destruct (negb _); [discriminate|].
  destruct (owned _); [discriminate|]. intros H. injection H as <-. reflexivity.
Qed.

(** X5.  [addReplace] has one way to fail.  It fails, with the error
    that names the key, when the file holds entries of exactly that
    (path, version) and none of them is owned direct or indirect; and
    when it fails, that is the error, and the file holds an entry of
    exactly that key. *)
Theorem addReplace_only_failure (g : modfile.File) (old new : module.Version)
  (direct : bool) (source : string) :
  ((exists y, In y (modfile.Replace_ g) /\ keyIs y old = true) ->
   (forall y, In y (modfile.Replace_ g) -> keyIs y old = true ->
              owned (modfile.Syntax y) = false) ->
   addReplace g old new direct source = Err (ErrForeignReplace old))
  /\ (forall e, addReplace g old new direct source = Err e ->
        e = ErrForeignReplace old
        /\ exists y, In y (modfile.Replace_ g) /\ keyIs y old = true).
Proof.
  split; [apply addReplace_conflict|].
  intros e H. unfold addReplace in H.
  destruct (rangeFrom (checkBody old) 0 _ g) as [g1|e1] eqn:E;
    [rewrite bind_Ok in H; discriminate|].
  rewrite bind_Err in H. injection H as <-. split.
  - apply rangeFrom_err in E as (j & x & E). eapply checkBody_err, E.
  - destruct (existsb (fun y => keyIs y old) (modfile.Replace_ g)) eqn:X.
    + apply existsb_exists in X. exact X.
    + exfalso. rewrite checkLoop_absent in E; [discriminate|].
      intros y Hy. destruct (keyIs y old) eqn:K; [|reflexivity].
      assert (existsb (fun y => keyIs y old) (modfile.Replace_ g) = true)
        by (apply existsb_exists; eauto).
      congruence.
Qed.

Lemma addReplace_only_failure_witness :
  addReplace (modfile.parseMod appText) (ver "example.com/k" "v1.0.0")
             (ver "example.com/other" "v2.0.0") false "b:lib"
  = Err (ErrForeignReplace (ver "example.com/k" "v1.0.0")).
Proof.
  apply (proj1 (addReplace_only_failure (modfile.parseMod appText)
                  (ver "example.com/k" "v1.0.0")
                  (ver "example.com/other" "v2.0.0") false "b:lib")).
  - exists (parseEntry pinK). split; [left; reflexivity|reflexivity].
  - intros y [<-|[<-|[<-|[]]]] Hk; try reflexivity; discriminate Hk.
Defined.

(** X6.  When no entry of the file has the path of [old] with the
    version of [old] (or with any version, when [old] has none),
    [addReplace] succeeds, leaves every entry as it was, and appends
    one entry for [old] and [new] whose comment is read back as owned:
    direct when [direct] is set, indirect otherwise, whatever the
    source. *)
Theorem addReplace_appends (g : modfile.File) (old new : module.Version)
  (direct : bool) (source : string) :
  (forall y, In y (modfile.Replace_ g) -> modfile.hits y old = false) ->
  exists r l,
    addReplace g old new direct source
    = Ok (modfile.withReplace g (modfile.Replace_ g ++ [r])%list)
    /\ modfile.Old r = old /\ modfile.New r = new
    /\ modfile.Syntax r = Some l
    /\ modfile.LToken l = (old, new)
    /\ isBlazedockReplace (Some l)
       = (true, if direct then blazedockReplaceDirect
                else blazedockReplaceIndirect).
Proof.
  intros H. exists (newEntry old new (blazedockComment direct source)).
  eexists. split; [apply addReplace_fresh, H|].
  repeat split. unfold isBlazedockReplace. cbn [modfile.LSuffix].
  destruct direct; [reflexivity|apply indirect_comment].
Qed.

Lemma addReplace_appends_witness :
  exists r l,
    addReplace (modfile.parseMod appText) (ver "example.com/b" "")
               (ver "../b" "") true "b:lib"
    = Ok (modfile.withReplace (modfile.parseMod appText)
            (modfile.Replace_ (modfile.parseMod appText) ++ [r])%list)
    /\ modfile.Old r = ver "example.com/b" "" /\ modfile.New r = ver "../b" ""
    /\ modfile.Syntax r = Some l
    /\ modfile.LToken l = (ver "example.com/b" "", ver "../b" "")
    /\ isBlazedockReplace (Some l) = (true, blazedockReplaceDirect).
Proof.
  apply (addReplace_appends (modfile.parseMod appText) (ver "example.com/b" "")
           (ver "../b" "") true "b:lib").
  intros y [<-|[<-|[<-|[]]]]; reflexivity.
Defined.

(** ** Linking again *)

Lemma filter_pointwise {A} (P : A -> Prop) `{!forall x, Decision (P x)}
  (rs xs : list A) :
  Forall2 (fun y x => x = y \/ (~ P y /\ ~ P x)) rs xs ->
  filter P xs = filter P rs.
Proof.
  induction 1 as [|y x rs xs Hyx _ IH]; [reflexivity|].
  rewrite !filter_cons, IH. destruct Hyx as [->|[Hy Hx]]; [reflexivity|].
  rewrite !decide_False by assumption. reflexivity.
Qed.

Lemma owned_suffix {T} (l l' : modfile.Line T) :
  modfile.LSuffix l' = modfile.LSuffix l -> owned (Some l') = owned (Some l).
Proof. unfold owned, isBlazedockReplace. intros ->. reflexivity. Qed.

Lemma owned_comment {T} (l : modfile.Line T) (direct : bool) (source : string) :
  modfile.LSuffix l = [modfile.mkComment (blazedockComment direct source) true] ->
  owned (Some l) = true.
Proof.
  unfold owned, isBlazedockReplace. intros ->.
  destruct direct; [reflexivity|]. rewrite indirect_comment. reflexivity.
Qed.

Lemma entryRel_kept (old : module.Version) (direct : bool) (source : string)
  (y x : modfile.Replace) :
  entryRel old (blazedockComment direct source) y x ->
  (modfile.hits y old = true -> ~ keptEntry y) ->
  x = y \/ (~ keptEntry y /\ ~ keptEntry x).
Proof.
  unfold entryRel. intros H Hy.
  destruct (modfile.hits y old); [|left; exact H].
  right. split; [apply Hy; reflexivity|].
  destruct H as [Hd|(_ & l & l' & Hl & Hl' & [Hs|Hs])].
  - intros [Hlive _]. unfold modfile.live in Hlive. rewrite Hd in Hlive.
    discriminate.
  - intros [_ Ho]. apply (Hy eq_refl). split.
    + unfold modfile.live. rewrite Hl. reflexivity.
    + rewrite Hl. rewrite Hl' in Ho. rewrite <- Ho. symmetry.
      apply owned_suffix, Hs.
  - intros [_ Ho]. rewrite Hl' in Ho.
    pose proof (owned_comment l' direct source Hs) as Ho'.
    exact (eq_true_false_abs _ Ho' Ho).
Qed.

Lemma newEntry_not_kept (old new : module.Version) (direct : bool)
  (source : string) :
  ~ keptEntry (newEntry old new (blazedockComment direct source)).
Proof.
  intros [_ Ho]. unfold newEntry in Ho. cbn [modfile.Syntax] in Ho.
  assert (owned (Some (modfile.mkLine (old, new) true
            [modfile.mkComment (blazedockComment direct source) true])) = true)
    as Ho' by (apply (owned_comment _ direct source); reflexivity).
  exact (eq_true_false_abs _ Ho' Ho).
Qed.

(** An [addReplace] that matches none of the entries a teardown keeps
    leaves them as they are, in their order. *)
Lemma addReplace_kept (g g' : modfile.File) (old new : module.Version)
  (direct : bool) (source : string) :
  (forall y, In y (modfile.Replace_ g) -> keptEntry y ->
             modfile.hits y old = false) ->
  addReplace g old new direct source = Ok g' ->
  filter keptEntry (modfile.Replace_ g') = filter keptEntry (modfile.Replace_ g).
Proof.
  intros Hk H.
  apply addReplace_rel in H as (_ & _ & xs & tail & -> & Hrel & Ht).
  rewrite filter_app.
  assert (filter keptEntry tail = []) as ->.
  { destruct Ht as [->| ->]; [reflexivity|]. rewrite filter_cons.
    rewrite decide_False; [reflexivity|apply newEntry_not_kept]. }
  rewrite app_nil_r. apply filter_pointwise.
  induction Hrel as [|y x rs xs Hyx _ IH]; constructor.
  - eapply entryRel_kept; [exact Hyx|]. intros Hh Hy.
    rewrite (Hk y (or_introl eq_refl) Hy) in Hh. discriminate.
  - apply IH. intros z Hz. apply Hk. right. exact Hz.
Qed.

Lemma annotate_tokens (c : string) (old : module.Version) (r : modfile.Replace)
  (l' : modfile.ReplaceLine) :
  modfile.Syntax (annotate c old r) = Some l' ->
  exists l, modfile.Syntax r = Some l /\ modfile.LToken l' = modfile.LToken l.
Proof.
  unfold annotate. destruct (keyIs r old); [|eauto].
  simpl. destruct (modfile.Syntax r) as [l|]; [|discriminate].
  intros H. injection H as <-. eauto.
Qed.

(** The line of an entry that [addReplace] leaves in the file either
    belongs to an entry that was there, untouched, or spells [old]. *)
Lemma addReplace_tokens (g g' : modfile.File) (old new : module.Version)
  (direct : bool) (source : string) (x : modfile.Replace)
  (l' : modfile.ReplaceLine) :
  addReplace g old new direct source = Ok g' ->
  In x (modfile.Replace_ g') ->
  modfile.Syntax x = Some l' ->
  In x (modfile.Replace_ g) \/ fst (modfile.LToken l') = old.
Proof.
  unfold addReplace.
  destruct (rangeFrom (checkBody old) 0 _ g) as [g1|e] eqn:Hc; [|discriminate].
  rewrite bind_Ok. intros H. injection H as <-. simpl.
  intros Hx Hl. apply in_map_iff in Hx as [y2 [<- Hy2]].
  apply annotate_tokens in Hl as Hl2. destruct Hl2 as (l2 & Hl2 & Htok).
  rewrite Htok. clear Htok.
  destruct old as [op ov], new as [np nv]. simpl module.Path in *.
  simpl module.Version_ in *.
  destruct (modfile_addReplace_rel (module.mkVersion op ov) (module.mkVersion np nv)
              (modfile.Replace_ g1)) as (ys & tail & E & Hys & Ht).
  rewrite E in Hy2. apply in_app_or in Hy2 as [Hy2|Hy2].
  - destruct (Forall2_In_r _ _ _ y2 Hys Hy2) as [y1 [Hy1 Hr]].
    destruct (modfile.hits y1 (module.mkVersion op ov)) eqn:Hh.
    + right. destruct Hr as [->| ->]; [discriminate|].
      unfold updated in Hl2. simpl in Hl2.
      destruct (modfile.Syntax y1); [|discriminate].
      injection Hl2 as <-. reflexivity.
    + subst y2. left.
      assert (annotate (blazedockComment direct source) (module.mkVersion op ov) y1
              = y1) as ->.
      { unfold annotate. rewrite (hits_false_keyIs _ _ Hh). reflexivity. }
      apply checkLoop_ok in Hc as [->| ->]; [exact Hy1|].
      simpl in Hy1. unfold modfile.dropReplace in Hy1.
      apply in_map_iff in Hy1 as [y [Ey Hy]].
      destruct (modfile.sameKey y op ov); [subst y1; discriminate|].
      subst y1. exact Hy.
  - right. destruct Ht as [->| ->]; [destruct Hy2|].
    destruct Hy2 as [<-|[]]. simpl in Hl2. injection Hl2 as <-. reflexivity.
Qed.

Lemma addReplace_linkInv (base : list modfile.Replace)
  (keys : list module.Version) (t : modfile.ModText) (g g' : modfile.File)
  (old new : module.Version) (direct : bool) (source : string) :
  (forall e, In e base -> modfile.hits e old = false) ->
  In old keys ->
  linkInv base keys t g ->
  addReplace g old new direct source = Ok g' ->
  linkInv base keys t g'.
Proof.
  intros Hfree Hold (K1 & K2 & K3 & K4) H. repeat split.
  - rewrite <- K1. eapply addReplace_kept; [|exact H].
    intros y Hy Hk. apply Hfree. rewrite <- K1.
    apply list_elem_of_In, list_elem_of_filter.
    split; [exact Hk|apply list_elem_of_In, Hy].
  - intros x l Hx Hl.
    destruct (addReplace_tokens g g' old new direct source x l H Hx Hl)
      as [Hin| ->]; [eapply K2; eauto|right; exact Hold].
  - apply addReplace_rel in H as (-> & _). exact K3.
  - apply addReplace_rel in H as (_ & -> & _). exact K4.
Qed.

Section Again.

Variable Dir : string -> string.
Variable Rel : string -> string -> option string.

Lemma linkBody_linkInv (base : list modfile.Replace) (ms : list goModule)
  (t : modfile.ModText) (fn : string) (g g2 : modfile.File) :
  (forall e k, In e base -> In k (overrideKeys ms) -> modfile.hits e k = false) ->
  linkInv base (overrideKeys ms) t g ->
  linkBody Dir Rel ms fn g = Ok g2 ->
  linkInv base (overrideKeys ms) t g2.
Proof.
  intros Hfree Hg. unfold linkBody.
  destruct (foldM (linkDirect Dir Rel fn) ms g) as [g1|err] eqn:E1;
    [|rewrite bind_Err; discriminate].
  rewrite bind_Ok. apply foldM_keeps.
  - eapply foldM_keeps; [exact Hg| |exact E1].
    intros x m x' Hm Hx. unfold linkDirect.
    destruct (Rel (Dir fn) (OriginPath m)); [|discriminate].
    apply addReplace_linkInv; [|apply overrideKeys_direct, Hm|exact Hx].
    intros e He. apply Hfree; [exact He|apply overrideKeys_direct, Hm].
  - intros x m x' Hm Hx. unfold linkIndirect. apply foldM_keeps; [exact Hx|].
    intros y r y' Hr Hy.
    apply addReplace_linkInv;
      [|eapply overrideKeys_indirect; eauto|exact Hy].
    intros e He. apply Hfree; [exact He|eapply overrideKeys_indirect; eauto].
Qed.

End Again.

Lemma unowned_text (rs : list modfile.Replace) :
  unowned
    (omap (fun r => modfile.formatLine <$> modfile.Syntax r)
          (filter (fun r => modfile.live r = true) rs))
  = omap (fun r => modfile.formatLine <$> modfile.Syntax r)
         (filter keptEntry rs).
Proof.
  unfold unowned.
  induction rs as [|[o n [l|]] rs IH]; [reflexivity| |].
  - rewrite (filter_cons (fun r => modfile.live r = true)).
    rewrite decide_True by reflexivity.
    rewrite (filter_cons keptEntry).
    change (omap (fun r => modfile.formatLine <$> modfile.Syntax r)
              (modfile.mkReplace o n (Some l)
               :: filter (fun r => modfile.live r = true) rs))
      with (modfile.formatLine l
            :: omap (fun r => modfile.formatLine <$> modfile.Syntax r)
                    (filter (fun r => modfile.live r = true) rs)).
    rewrite filter_cons, IH, ownedText_formatLine.
    destruct (decide (keptEntry (modfile.mkReplace o n (Some l)))) as [[_ D]|D];
      simpl in D.
    + rewrite decide_True by exact D. reflexivity.
    + rewrite decide_False; [reflexivity|].
      intros Ho. apply D. split; [reflexivity|exact Ho].
  - rewrite (filter_cons (fun r => modfile.live r = true)).
    rewrite decide_False by discriminate.
    rewrite (filter_cons keptEntry).
    rewrite decide_False by (intros [H _]; discriminate H). exact IH.
Qed.

Lemma format_parseEntry (l : list (modfile.Text (module.Version * module.Version))) :
  omap (fun r => modfile.formatLine <$> modfile.Syntax r) (map parseEntry l) = l.
Proof.
  induction l as [|z l IH]; [reflexivity|].
  simpl. rewrite format_parse. f_equal. exact IH.
Qed.

Lemma linked_teardown (l0 : list (modfile.Text (module.Version * module.Version)))
  (keys : list module.Version) (t : modfile.ModText) (g2 : modfile.File) :
  (forall z, In z l0 -> ownedText z = false) ->
  (forall z k, In z l0 -> In k keys -> modfile.hits (parseEntry z) k = false) ->
  linkInv (map parseEntry l0) keys t g2 ->
  teardownText (modfile.FormatMod (modfile.Cleanup g2))
  = modfile.mkModText (modfile.MTModule t) l0 (modfile.MTOther t).
Proof.
  intros Hun Hfree (K1 & K2 & K3 & K4).
  rewrite teardownText_clean.
  - simpl. rewrite K3, K4. f_equal.
    rewrite unowned_text, K1. apply format_parseEntry.
  - intros z w Hz Hw Hoz How Hkey.
    apply FormatMod_Cleanup_In in Hz as (rz & lz & Hrz & Hlz & ->).
    apply FormatMod_Cleanup_In in Hw as (rw & lw & Hrw & Hlw & ->).
    rewrite ownedText_formatLine in Hoz, How.
    assert (In rw (map parseEntry l0)) as Hb.
    { rewrite <- K1. apply list_elem_of_In, list_elem_of_filter. split.
      - split; [unfold modfile.live; rewrite Hlw; reflexivity|].
        rewrite Hlw. exact How.
      - apply list_elem_of_In, Hrw. }
    apply in_map_iff in Hb as [w0 [<- Hw0]].
    simpl in Hlw. injection Hlw as <-. simpl in Hkey.
    destruct (K2 rz lz Hrz Hlz) as [Hin|Hin].
    + apply in_map_iff in Hin as [z0 [<- Hz0]].
      simpl in Hlz. injection Hlz as <-.
      pose proof (Hun z0 Hz0) as Hu. unfold ownedText in Hu.
      exact (eq_true_false_abs _ Hoz Hu).
    + pose proof (Hfree w0 _ Hw0 Hin) as Hh. rewrite Hkey in Hh.
      assert (modfile.hits (parseEntry w0) (fst (modfile.TTok w0)) = true) as Ht
        by (apply keyIs_hits, keyIs_eq; reflexivity).
      exact (eq_true_false_abs _ Ht Hh).
Qed.

Section Idempotence.

Variable Dir : string -> string.
Variable Rel : string -> string -> option string.

(** X8.  Linking a package again, with the same modules, after a
    linking that succeeded, changes nothing when it succeeds too (it
    has to read back what the first one wrote): the files are as the
    first one wrote them, and the teardown of the second run puts back
    the manifest the teardown of the first had written.  This holds
    when the manifest had no owned entry with the key of another kind
    of entry, and no override of the closure is for the module path of
    an entry the linker does not own, with that entry's version or
    with none. *)
Theorem linkGoModule_again (fs fs1 fs2 : Files) (dst : Package)
  (ms : list goModule) (t : modfile.ModText) :
  fs !! findGoMod (Sources dst) = Some (ModContent t) ->
  cleanKeys t ->
  (forall x k, In x (modfile.MTReplace t) -> ownedText x = false ->
               In k (overrideKeys ms) ->
               modfile.hits (parseEntry x) k = false) ->
  linkGoModule Dir Rel fs dst ms = (fs1, None) ->
  linkGoModule Dir Rel fs1 dst ms = (fs2, None) ->
  fs2 = fs1
  /\ (removeBlazedockReplaceRules fs1 dst).1 = (removeBlazedockReplaceRules fs dst).1.
Proof.
  intros Hfs Hclean Hfree Hlink Hlink2.
  assert (findGoMod (Sources dst) <> "") as Hfn.
  { unfold linkGoModule in Hlink.
    destruct (removeBlazedockReplaceRules fs dst) as [fs0 [e|]] eqn:E;
      [discriminate|].
    unfold removeBlazedockReplaceRules in E.
    apply modifyGoMod_ok in E as (_ & _ & Hfn & _). exact Hfn. }
  unfold linkGoModule in Hlink, Hlink2.
  rewrite (removeBlazedockReplaceRules_run fs dst t Hfn Hfs) in Hlink |- *.
  rewrite (teardownText_clean t Hclean) in Hlink |- *.
  set (t1 := modfile.mkModText _ _ _) in *.
  pose proof Hlink as Hrun.
  rewrite (modifyGoMod_run _ dst t1 _ Hfn (lookup_insert_eq _ _ _)) in Hlink.
  destruct (linkBody Dir Rel ms _ _) as [g2|e] eqn:Hb; [|discriminate].
  injection Hlink as Hfs1.
  assert (teardownText (modfile.FormatMod (modfile.Cleanup g2)) = t1) as Htd.
  { apply (linked_teardown (unowned (modfile.MTReplace t)) (overrideKeys ms) t).
    - intros z Hz. apply In_unowned in Hz as [_ Hz]. exact Hz.
    - intros z k Hz Hk. apply In_unowned in Hz as [Hz Ho]. apply Hfree; auto.
    - eapply (linkBody_linkInv Dir Rel); [| |exact Hb].
      + intros e k He Hk. apply in_map_iff in He as [z [<- Hz]].
        apply In_unowned in Hz as [Hz Ho]. apply Hfree; auto.
      + repeat split.
        * apply filter_all. intros r Hr. simpl in Hr. fold parseEntry in Hr.
          apply in_map_iff in Hr as [z [<- Hz]].
          apply In_unowned in Hz as [_ Hz]. split; [reflexivity|exact Hz].
        * intros x l Hx _. left. exact Hx. }
  assert (removeBlazedockReplaceRules fs1 dst
          = (<[findGoMod (Sources dst) := ModContent t1]> fs, None)) as Hrem.
  { rewrite <- Hfs1.
    rewrite (removeBlazedockReplaceRules_run _ dst _ Hfn (lookup_insert_eq _ _ _)).
    rewrite Htd, !insert_insert_eq. reflexivity. }
  rewrite Hrem in Hlink2 |- *. split; [|reflexivity].
  rewrite Hrun in Hlink2. injection Hlink2 as <-. reflexivity.
Qed.

End Idempotence.

Lemma linkGoModule_again_witness :
  linkGoModule exDir exRel appFiles app [modA]
  = (<[appFN := ModContent appLinked]> appFiles, None)
  /\ linkGoModule exDir exRel (<[appFN := ModContent appLinked]> appFiles)
       app [modA]
     = (<[appFN := ModContent appLinked]> appFiles, None)
  /\ (removeBlazedockReplaceRules (<[appFN := ModContent appLinked]> appFiles) app).1
     = (removeBlazedockReplaceRules appFiles app).1.
Proof.
  split; [vm_compute; reflexivity|]. split; [vm_compute; reflexivity|].
  apply (linkGoModule_again exDir exRel appFiles
           (<[appFN := ModContent appLinked]> appFiles)
           (<[appFN := ModContent appLinked]> appFiles) app [modA] appText).
  - reflexivity.
  - exact appText_cleanKeys.
  - intros x k [<-|[<-|[<-|[]]]] Ho [<-|[]]; try reflexivity; discriminate Ho.
  - vm_compute; reflexivity.
  - vm_compute; reflexivity.
Defined.

(** ** What the linker writes, read back *)

(** X7.  A replace line whose comment is one [addReplace] writes is
    read back as owned, direct or indirect as it was written and never
    ignore, whatever the name of the source package; no such line is
    in a manifest that a teardown has written. *)
Theorem written_comment_is_removed (t : modfile.ModText)
  (z : modfile.Text (module.Version * module.Version)) (direct : bool)
  (source : string) :
  modfile.TSuffix z = [blazedockComment direct source] ->
  isBlazedockReplace (Some (modfile.parseLine z))
  = (true, if direct then blazedockReplaceDirect else blazedockReplaceIndirect)
  /\ ~ In z (modfile.MTReplace (teardownText t)).
Proof.
  intros Hs.
  assert (isBlazedockReplace (Some (modfile.parseLine z))
          = (true, if direct then blazedockReplaceDirect
                   else blazedockReplaceIndirect)) as Hc.
  { unfold isBlazedockReplace, modfile.parseLine. cbn [modfile.LSuffix].
    rewrite Hs. cbn [map]. destruct direct; [reflexivity|apply indirect_comment]. }
  split; [exact Hc|].
  intros Hin. apply teardownText_unowned in Hin.
  unfold ownedText, owned in Hin. rewrite Hc in Hin.
  destruct direct; discriminate Hin.
Qed.

Lemma written_comment_is_removed_witness :
  isBlazedockReplace
    (Some (modfile.parseLine
             (line (ver "example.com/k" "") (ver "../k" "")
                   ["// blazedock indirect from an ignore lib"])))
  = (true, blazedockReplaceIndirect)
  /\ ~ In (line (ver "example.com/k" "") (ver "../k" "")
                ["// blazedock indirect from an ignore lib"])
          (modfile.MTReplace (teardownText appText)).
Proof.
  apply (written_comment_is_removed appText
           (line (ver "example.com/k" "") (ver "../k" "")
                 ["// blazedock indirect from an ignore lib"])
           false "an ignore lib").
  reflexivity.
Defined.

(** ** The registry *)

Section Registry.

Variable Dir : string -> string.

Lemma collectOne_cases (fs : Files) (mods mods' : gmap string goModule)
  (n : string) (p : Package) :
  collectOne Dir fs mods (n, p) = Ok mods' ->
  (mods' = mods /\ ~ collected p)
  \/ (collected p
      /\ exists t,
           fs !! findGoMod (Sources p) = Some (ModContent t)
           /\ mods' = <[n := registryEntry Dir n (findGoMod (Sources p)) t]> mods).
Proof.
  unfold collectOne, collected.
  destruct (isGo (Type_ p)); simpl.
  2:{ intros H. injection H as <-. left. split; [reflexivity|].
      intros [H _]. discriminate H. }
  destruct (String.eqb_spec (findGoMod (Sources p)) "") as [E|Hne].
  { intros H. injection H as <-. left. split; [reflexivity|].
    intros [_ H]. contradiction. }
  unfold os.ReadFile.
  destruct (fs !! findGoMod (Sources p)) as [c|]; [|discriminate].
  destruct c as [t|w|raw]; simpl; try discriminate.
  intros H. injection H as <-. right.
  split; [auto|]. exists t. split; reflexivity.
Qed.

Lemma collectReplacements_source (fs : Files) (workspace : Workspace)
  (mods : gmap string goModule) (n : string) (m : goModule) :
  foldM (collectOne Dir fs) (Packages workspace) ∅ = Ok mods ->
  mods !! n = Some m ->
  exists p t,
    In (n, p) (Packages workspace)
    /\ collected p
    /\ fs !! findGoMod (Sources p) = Some (ModContent t)
    /\ m = registryEntry Dir n (findGoMod (Sources p)) t.
Proof.
  intros E. revert n m.
  apply (foldM_keeps
           (fun mods => forall n m, mods !! n = Some m ->
              exists p t,
                In (n, p) (Packages workspace)
                /\ collected p
                /\ fs !! findGoMod (Sources p) = Some (ModContent t)
                /\ m = registryEntry Dir n (findGoMod (Sources p)) t)
           (collectOne Dir fs) (Packages workspace) ∅ mods);
    [intros n m H; rewrite lookup_empty in H; discriminate| |exact E].
  intros x [n' p'] x' Hin Hx Hone n m Hn.
  apply collectOne_cases in Hone as [[-> _]|[Hc (t & Hfs & ->)]];
    [apply Hx, Hn|].
  destruct (decide (n' = n)) as [->|Hne].
  - rewrite lookup_insert_eq in Hn. injection Hn as <-. exists p', t. auto.
  - rewrite lookup_insert_ne in Hn by exact Hne. apply Hx, Hn.
Qed.

Lemma collect_domain (fs : Files) (l : list (string * Package))
  (acc mods : gmap string goModule) :
  foldM (collectOne Dir fs) l acc = Ok mods ->
  (forall n, is_Some (acc !! n) -> is_Some (mods !! n))
  /\ (forall n p, In (n, p) l -> collected p -> is_Some (mods !! n)).
Proof.
  revert acc. induction l as [|[n' p'] l IH]; intros acc.
  - intros H. injection H as <-. split; [auto|intros n p []].
  - rewrite foldM_cons.
    destruct (collectOne Dir fs acc (n', p')) as [acc'|e] eqn:E;
      [|rewrite bind_Err; discriminate].
    rewrite bind_Ok. intros H. apply IH in H as [H1 H2].
    apply collectOne_cases in E as [[-> Hnc]|[Hc (t & Hfs & ->)]].
    + split; [exact H1|]. intros n p [Heq|Hin] Hcol; [|eauto].
      injection Heq as <- <-. contradiction.
    + split.
      * intros n Hn. apply H1.
        destruct (decide (n' = n)) as [->|Hne];
          [rewrite lookup_insert_eq; eauto|rewrite lookup_insert_ne; auto].
      * intros n p [Heq|Hin] Hcol; [|eauto].
        injection Heq as <- <-. apply H1. rewrite lookup_insert_eq. eauto.
Qed.

(** X9.  Every entry of a registry that [collectReplacements] returns
    is filed under the name of a Go package of the workspace that has a
    go.mod among its sources, and is read off that go.mod: its module
    path, the directory of the file, the name again, and the replace
    entries that carry no sentinel -- an owned entry, of whatever
    sub-kind, is never handed on. *)
Theorem collectReplacements_entries (fs : Files) (workspace : Workspace)
  (mods : gmap string goModule) (n : string) (m : goModule) :
  collectReplacements Dir fs workspace = (Some mods, None) ->
  mods !! n = Some m ->
  (exists p t,
     In (n, p) (Packages workspace)
     /\ isGo (Type_ p) = true
     /\ fs !! findGoMod (Sources p) = Some (ModContent t)
     /\ m = registryEntry Dir n (findGoMod (Sources p)) t)
  /\ OriginPackage m = n
  /\ forall r, In r (Replacements m) ->
       fst (isBlazedockReplace (modfile.Syntax r)) = false.
Proof.
  unfold collectReplacements.
  destruct (foldM (collectOne Dir fs) (Packages workspace) ∅) as [mods0|e] eqn:E;
    [|discriminate].
  intros H Hn. injection H as ->.
  destruct (collectReplacements_source fs workspace mods n m E Hn)
    as (p & t & Hin & [Hgo _] & Hfs & ->).
  split; [exists p, t; auto|].
  split; [reflexivity|]. intros r Hr. simpl in Hr.
  apply list_elem_of_In, list_elem_of_filter in Hr as [Hr _]. exact Hr.
Qed.

(** X10.  A registry that [collectReplacements] returns has an entry
    under a name exactly when the workspace has, under that name, a Go
    package with a source that ends in go.mod: the other packages are
    passed over without an error. *)
Theorem collectReplacements_names (fs : Files) (workspace : Workspace)
  (mods : gmap string goModule) (n : string) :
  collectReplacements Dir fs workspace = (Some mods, None) ->
  is_Some (mods !! n) <->
  exists p, In (n, p) (Packages workspace)
            /\ isGo (Type_ p) = true
            /\ findGoMod (Sources p) <> "".
Proof.
  unfold collectReplacements.
  destruct (foldM (collectOne Dir fs) (Packages workspace) ∅) as [mods0|e] eqn:E;
    [|discriminate].
  intros H. injection H as ->. split.
  - intros [m Hm].
    destruct (collectReplacements_source fs workspace mods n m E Hm)
      as (p & t & Hin & [Hgo Hfn] & _). eauto.
  - intros (p & Hin & Hgo & Hfn).
    apply (proj2 (collect_domain fs _ _ _ E) n p Hin). split; assumption.
Qed.

End Registry.

Lemma collectReplacements_entries_witness :
  (exists p t,
     In ("b:lib", p) (Packages forkWs)
     /\ isGo (Type_ p) = true
     /\ forkFiles !! findGoMod (Sources p) = Some (ModContent t)
     /\ mkGoModule "example.com/b" "/w/b" "b:lib" [parseEntry pinOne]
        = registryEntry exDir "b:lib" (findGoMod (Sources p)) t)
  /\ OriginPackage (mkGoModule "example.com/b" "/w/b" "b:lib" [parseEntry pinOne])
     = "b:lib"
  /\ forall r,
       In r (Replacements
               (mkGoModule "example.com/b" "/w/b" "b:lib" [parseEntry pinOne])) ->
       fst (isBlazedockReplace (modfile.Syntax r)) = false.
Proof.
  apply (collectReplacements_entries exDir forkFiles forkWs forkMods).
  - vm_compute; reflexivity.
  - vm_compute; reflexivity.
Defined.

Lemma collectReplacements_names_witness :
  is_Some (forkMods !! "c:lib") <->
  exists p, In ("c:lib", p) (Packages forkWs)
            /\ isGo (Type_ p) = true
            /\ findGoMod (Sources p) <> "".
Proof.
  apply (collectReplacements_names exDir forkFiles forkWs forkMods).
  vm_compute; reflexivity.
Defined.

(** ** Linking a workspace *)

Lemma findGoMod_none (sources : list string) :
  Forall (fun f => strings.HasSuffix f "go.mod" = false) sources ->
  findGoMod sources = "".
Proof.
  induction 1 as [|f l Hf _ IH]; [reflexivity|]. simpl. rewrite Hf. exact IH.
Qed.

Section Workspace.

Variable Join : string -> string -> string.
Variable Dir : string -> string.
Variable Rel : string -> string -> option string.

Lemma linkGoModule_other (fs : Files) (dst : Package) (mods : list goModule)
  (k : string) :
  k <> findGoMod (Sources dst) ->
  (linkGoModule Dir Rel fs dst mods).1 !! k = fs !! k.
Proof.
  intros Hk. unfold linkGoModule.
  pose proof (modifyGoMod_frame fs dst
                (fun _ gomod =>
                   rangeFrom removeBody 0 (length (modfile.Replace_ gomod)) gomod)
                k Hk) as Hr.
  fold (removeBlazedockReplaceRules fs dst) in Hr.
  destruct (removeBlazedockReplaceRules fs dst) as [fs1 [e|]]; [exact Hr|].
  rewrite modifyGoMod_frame by exact Hk. exact Hr.
Qed.

Lemma linkPackages_other (mods : gmap string goModule) (target : option Package)
  (ps : list (string * Package)) (fs : Files) (log : list string) (k : string) :
  (forall q, In q ps -> k <> findGoMod (Sources q.2)) ->
  (linkPackages Dir Rel mods target ps fs log).1.1 !! k = fs !! k.
Proof.
  revert fs log. induction ps as [|[n p] ps IH]; intros fs log Hk; [reflexivity|].
  simpl. destruct (skipped target p).
  - apply IH. intros q Hq. apply Hk. right. exact Hq.
  - destruct (resolveDeps mods (GetTransitiveDependencies p)) as [apmods warns].
    pose proof (linkGoModule_other fs p (sortBy lessName apmods) k
                  (Hk (n, p) (or_introl eq_refl))) as Hp.
    destruct (linkGoModule Dir Rel fs p (sortBy lessName apmods)) as [fs' [e|]].
    + exact Hp.
    + rewrite IH; [exact Hp|]. intros q Hq. apply Hk. right. exact Hq.
Qed.

(** X11.  A target that is, by its name, no Go package of the
    workspace is not reported: once the registry is built,
    [LinkGoModules] links nothing, logs nothing and returns no error,
    with every file as it was. *)
Theorem LinkGoModules_unknown_target (fs : Files) (workspace : Workspace)
  (target : Package) :
  (collectReplacements Dir fs workspace).2 = None ->
  Forall (fun q => skipped (Some target) q.2 = true) (Packages workspace) ->
  LinkGoModules Dir Rel fs workspace (Some target) = (fs, [], None).
Proof.
  intros Hc Hs. unfold LinkGoModules.
  destruct (collectReplacements Dir fs workspace) as [mods [e|]];
    [discriminate|].
  pose proof (linkPackages_skip Dir Rel (default ∅ mods) (Some target)
                (Packages workspace) [] fs [] Hs) as H.
  rewrite app_nil_r in H. exact H.
Qed.

(** X12.  [LinkGoModules] writes go.mod files of packages of the
    workspace and nothing else: a file that is the first go.mod source
    of none of them is, whatever is returned, as it was. *)
Theorem LinkGoModules_frame (fs : Files) (workspace : Workspace)
  (target : option Package) (k : string) :
  (forall q, In q (Packages workspace) -> k <> findGoMod (Sources q.2)) ->
  (LinkGoModules Dir Rel fs workspace target).1.1 !! k = fs !! k.
Proof.
  intros Hk. unfold LinkGoModules.
  destruct (collectReplacements Dir fs workspace) as [mods [e|]]; [reflexivity|].
  apply linkPackages_other, Hk.
Qed.

(** X13.  The collector passes over a Go package without a go.mod
    among its sources, but the linker does not: when it comes to link
    such a package, [LinkGoModules] stops with the not-exist error,
    having written nothing for it. *)
Theorem LinkGoModules_no_gomod (fs : Files) (workspace : Workspace)
  (n : string) (p : Package) (pre post : list (string * Package)) :
  (collectReplacements Dir fs workspace).2 = None ->
  Packages workspace = (pre ++ (n, p) :: post)%list ->
  Forall (fun q => skipped (Some p) q.2 = true) pre ->
  isGo (Type_ p) = true ->
  Forall (fun f => strings.HasSuffix f "go.mod" = false) (Sources p) ->
  exists mods log,
    collectReplacements Dir fs workspace = (Some mods, None)
    /\ LinkGoModules Dir Rel fs workspace (Some p)
       = (fs, log, Some (ErrNotExist "go.mod")).
Proof.
  intros Hc Hps Hpre Hgo Hsrc. unfold LinkGoModules.
  assert (exists mods, collectReplacements Dir fs workspace = (Some mods, None))
    as [mods Hm].
  { unfold collectReplacements in *.
    destruct (foldM _ _ _); [eauto|discriminate]. }
  rewrite Hm, Hps. simpl default.
  rewrite (linkPackages_skip Dir Rel mods (Some p) pre _ fs [] Hpre).
  simpl. unfold skipped. rewrite Hgo, String.eqb_refl. simpl.
  destruct (resolveDeps mods (GetTransitiveDependencies p)) as [apmods warns].
  assert (linkGoModule Dir Rel fs p (sortBy lessName apmods)
          = (fs, Some (ErrNotExist "go.mod"))) as ->.
  { unfold linkGoModule, removeBlazedockReplaceRules, modifyGoMod.
    rewrite (findGoMod_none _ Hsrc). reflexivity. }
  eauto.
Qed.

End Workspace.

Lemma LinkGoModules_unknown_target_witness :
  LinkGoModules exDir exRel forkFiles forkWs (Some ghost) = (forkFiles, [], None).
Proof.
  apply (LinkGoModules_unknown_target exDir exRel forkFiles forkWs ghost).
  - vm_compute; reflexivity.
  - repeat constructor.
Defined.

Lemma LinkGoModules_frame_witness :
  (LinkGoModules exDir exRel syncFiles forkWs None).1.1 !! "/w/go.work"
  = syncFiles !! "/w/go.work".
Proof.
  apply (LinkGoModules_frame exDir exRel syncFiles forkWs None "/w/go.work").
  intros q [<-|[<-|[<-|[]]]]; discriminate.
Defined.

Lemma LinkGoModules_no_gomod_witness :
  exists mods log,
    collectReplacements exDir (vFiles []) toolWs = (Some mods, None)
    /\ LinkGoModules exDir exRel (vFiles []) toolWs (Some tool)
       = (vFiles [], log, Some (ErrNotExist "go.mod")).
Proof.
  apply (LinkGoModules_no_gomod exDir exRel (vFiles []) toolWs "tool:cli" tool
           [("a:lib", vA)] []).
  - vm_compute; reflexivity.
  - reflexivity.
  - repeat constructor.
  - reflexivity.
  - repeat constructor.
Defined.

(** ** The synchronizer, further *)

Lemma modifyGoMod_work (fs : Files) (dst : Package)
  (mod_ : string -> modfile.File -> result modfile.File) (k : string)
  (w : modfile.WorkText) :
  fs !! k = Some (WorkContent w) ->
  (modifyGoMod fs dst mod_).1 !! k = Some (WorkContent w).
Proof.
  intros Hk. unfold modifyGoMod, os.ReadFile, os.WriteFile.
  destruct (String.eqb _ _); [exact Hk|].
  destruct (fs !! findGoMod (Sources dst)) as [c|] eqn:Hc; [|exact Hk].
  destruct c as [t|w'|raw]; simpl; try exact Hk.
  destruct (mod_ _ _); simpl; [|exact Hk].
  rewrite lookup_insert_ne; [exact Hk|]. intros E. congruence.
Qed.

Lemma dropAll_work (ps : list (string * Package)) (fs : Files) (k : string)
  (w : modfile.WorkText) :
  fs !! k = Some (WorkContent w) ->
  (dropAll ps fs).1 !! k = Some (WorkContent w).
Proof.
  revert fs. induction ps as [|[n p] ps IH]; intros fs Hk; [exact Hk|].
  simpl. destruct (negb (isGo (Type_ p))); [apply IH, Hk|].
  pose proof (modifyGoMod_work fs p
                (fun _ gomod =>
                   rangeFrom removeBody 0 (length (modfile.Replace_ gomod)) gomod)
                k w Hk) as Hr.
  fold (removeBlazedockReplaceRules fs p) in Hr.
  destruct (removeBlazedockReplaceRules fs p) as [fs' [e|]]; [exact Hr|].
  apply IH, Hr.
Qed.

Lemma dropAll_fails (ps : list (string * Package)) (fs : Files) (n : string)
  (p : Package) :
  In (n, p) ps ->
  isGo (Type_ p) = true ->
  Forall (fun f => strings.HasSuffix f "go.mod" = false) (Sources p) ->
  exists e, (dropAll ps fs).2 = Some e.
Proof.
  intros Hin Hgo Hsrc. revert fs.
  induction ps as [|[n' p'] ps IH]; intros fs; [destruct Hin|].
  simpl. destruct Hin as [Heq|Hin].
  - injection Heq as -> ->. rewrite Hgo. simpl.
    unfold removeBlazedockReplaceRules, modifyGoMod.
    rewrite (findGoMod_none _ Hsrc). simpl. eauto.
  - destruct (negb (isGo (Type_ p'))); [apply IH, Hin|].
    destruct (removeBlazedockReplaceRules fs p') as [fs' [e|]];
      [simpl; eauto|apply IH, Hin].
Qed.

Section Synchronizing.

Variable Join : string -> string -> string.
Variable SortBlocks : modfile.WorkFile -> modfile.WorkFile.

(** X14.  When go.work is there but does not parse as a work file,
    [LinkGoWorkspace] returns the parse error and writes nothing. *)
Theorem LinkGoWorkspace_unparsable (fs : Files) (workspace : Workspace)
  (c : Content) :
  fs !! Join (Origin workspace) "go.work" = Some c ->
  (forall w, c <> WorkContent w) ->
  LinkGoWorkspace Join SortBlocks fs workspace
  = (fs, Some (ErrParse (Join (Origin workspace) "go.work"))).
Proof.
  intros Hc Hw. unfold LinkGoWorkspace, os.Stat, os.ReadFile. rewrite Hc.
  destruct c as [t|w|raw]; [reflexivity| |reflexivity].
  exfalso. apply (Hw w). reflexivity.
Qed.

(** X15.  [LinkGoWorkspace] is not all-or-nothing: when a Go package of
    the workspace has no go.mod among its sources, it returns an error,
    and go.work has by then been rewritten: it holds, in the order
    modfile lays them out, the use lines of a synchronized go.work. *)
Theorem LinkGoWorkspace_partial (fs : Files) (workspace : Workspace)
  (w : modfile.WorkText) (n : string) (p : Package) :
  modfile.sortsBlocks SortBlocks ->
  fs !! Join (Origin workspace) "go.work" = Some (WorkContent w) ->
  In (n, p) (Packages workspace) ->
  isGo (Type_ p) = true ->
  Forall (fun f => strings.HasSuffix f "go.mod" = false) (Sources p) ->
  exists fs' e w',
    LinkGoWorkspace Join SortBlocks fs workspace = (fs', Some e)
    /\ fs' !! Join (Origin workspace) "go.work" = Some (WorkContent w')
    /\ Permutation (modfile.WTUse w')
         (omap (syncLine workspace (sentinelPaths (modfile.WTUse w)))
               (modfile.WTUse w)
          ++ map ownedUse (sortedPaths workspace)).
Proof.
  intros HS Hw Hin Hgo Hsrc.
  destruct (LinkGoWorkspace_run Join SortBlocks HS fs workspace w Hw)
    as (w' & Hperm & ->).
  set (fs1 := <[Join (Origin workspace) "go.work" := WorkContent w']> fs).
  destruct (dropAll_fails (Packages workspace) fs1 n p Hin Hgo Hsrc) as [e He].
  pose proof (dropAll_work (Packages workspace) fs1 _ _
                (lookup_insert_eq fs _ (WorkContent w'))) as Hk.
  destruct (dropAll (Packages workspace) fs1) as [fs' oe]. simpl in *. subst oe.
  exists fs', e, w'. split; [reflexivity|]. split; [exact Hk|].
  unfold sentinelPaths. rewrite <- keptUses_syncLine. exact Hperm.
Qed.

End Synchronizing.

Lemma LinkGoWorkspace_unparsable_witness :
  LinkGoWorkspace exJoin oneBlock
    (<["/w/go.work" := Unparsable "use ("]> forkFiles) forkWs
  = (<["/w/go.work" := Unparsable "use ("]> forkFiles,
     Some (ErrParse (exJoin (Origin forkWs) "go.work"))).
Proof.
  apply (LinkGoWorkspace_unparsable exJoin oneBlock _ forkWs (Unparsable "use (")).
  - reflexivity.
  - intros w. discriminate.
Defined.

Lemma LinkGoWorkspace_partial_witness :
  exists fs' e w',
    LinkGoWorkspace exJoin oneBlock
      (<["/v/go.work" := WorkContent oldWork]> (vFiles [])) toolWs
    = (fs', Some e)
    /\ fs' !! exJoin (Origin toolWs) "go.work" = Some (WorkContent w')
    /\ Permutation (modfile.WTUse w')
         (omap (syncLine toolWs (sentinelPaths (modfile.WTUse oldWork)))
               (modfile.WTUse oldWork)
          ++ map ownedUse (sortedPaths toolWs)).
Proof.
  apply (LinkGoWorkspace_partial exJoin oneBlock _ toolWs oldWork "tool:cli" tool).
  - exact oneBlock_sorts.
  - reflexivity.
  - right. left. reflexivity.
  - reflexivity.
  - repeat constructor.
Defined.

Lemma sentinel_ownedUse (p : string) :
  sentinel (Some (modfile.parseLine (ownedUse p))) = true.
Proof. reflexivity. Qed.

Lemma omap_syncLine_foreign (workspace : Workspace) (ps : list string)
  (l : list (modfile.Text string)) :
  (forall z, In z l ->
     existsb (String.eqb (modfile.TTok z)) ps = false
     /\ inGoModules workspace (modfile.TTok z) = false) ->
  omap (syncLine workspace ps) l = l.
Proof.
  induction l as [|z l IH]; intros H; [reflexivity|].
  change (omap (syncLine workspace ps) (z :: l))
    with (match syncLine workspace ps z with
          | Some y => y :: omap (syncLine workspace ps) l
          | None => omap (syncLine workspace ps) l
          end).
  destruct (H z (or_introl eq_refl)) as [E1 E2].
  unfold syncLine at 1. rewrite E1, E2. f_equal.
  apply IH. intros y Hy. apply H. right. exact Hy.
Qed.

Lemma omap_syncLine_owned (workspace : Workspace) (ps qs : list string) :
  (forall p, In p qs -> In p ps) ->
  omap (syncLine workspace ps) (map ownedUse qs) = [].
Proof.
  induction qs as [|q qs IH]; intros H; [reflexivity|].
  change (omap (syncLine workspace ps) (map ownedUse (q :: qs)))
    with (match syncLine workspace ps (ownedUse q) with
          | Some y => y :: omap (syncLine workspace ps) (map ownedUse qs)
          | None => omap (syncLine workspace ps) (map ownedUse qs)
          end).
  unfold syncLine at 1.
  replace (existsb (String.eqb (modfile.TTok (ownedUse q))) ps) with true.
  - apply IH. intros p Hp. apply H. right. exact Hp.
  - symmetry. apply existsb_exists. exists q.
    split; [apply H; left; reflexivity | apply String.eqb_refl].
Qed.

Lemma ownedPaths_foreign (l : list (modfile.Text string)) :
  (forall z, In z l -> sentinel (Some (modfile.parseLine z)) = false) ->
  ownedPaths (map parseUse l) = [].
Proof.
  induction l as [|z l IH]; intros H; [reflexivity|].
  unfold ownedPaths. cbn [map].
  change (omap ?f (parseUse z :: ?r))
    with (match f (parseUse z) with
          | Some y => y :: omap f r
          | None => omap f r
          end).
  cbn [parseUse modfile.USyntax]. rewrite (H z (or_introl eq_refl)).
  apply IH. intros y Hy. apply H. right. exact Hy.
Qed.

Lemma ownedPaths_owned (qs : list string) :
  ownedPaths (map parseUse (map ownedUse qs)) = qs.
Proof.
  induction qs as [|q qs IH]; [reflexivity|].
  unfold ownedPaths in *. cbn [map].
  change (omap ?f (parseUse (ownedUse q) :: ?r))
    with (match f (parseUse (ownedUse q)) with
          | Some y => y :: omap f r
          | None => omap f r
          end).
  cbn [parseUse modfile.USyntax modfile.UPath]. rewrite sentinel_ownedUse.
  f_equal. exact IH.
Qed.

Lemma ownedPaths_app (l1 l2 : list (modfile.Text string)) :
  ownedPaths (map parseUse (l1 ++ l2))
  = (ownedPaths (map parseUse l1) ++ ownedPaths (map parseUse l2))%list.
Proof. unfold ownedPaths. rewrite map_app. apply omap_app. Qed.

Lemma keptUses_foreign (workspace : Workspace) (w : modfile.WorkText)
  (z : modfile.Text string) :
  disjointUses workspace w ->
  In z (keptUses workspace (modfile.WTUse w)) ->
  sentinel (Some (modfile.parseLine z)) = false
  /\ inGoModules workspace (modfile.TTok z) = false.
Proof.
  intros Hd Hz. apply keptUses_inv in Hz as (z0 & Hin & Hs & ->).
  rewrite (Hd z0 Hin Hs). split; [exact Hs | exact (Hd z0 Hin Hs)].
Qed.

Lemma syncText_idem (workspace : Workspace) (w : modfile.WorkText) :
  disjointUses workspace w ->
  syncText workspace (syncText workspace w) = syncText workspace w.
Proof.
  intros Hd. unfold syncText at 1 3. cbn [modfile.WTUse modfile.WTOther syncText].
  f_equal. f_equal.
  rewrite keptUses_syncLine, ownedPaths_app, ownedPaths_owned.
  rewrite ownedPaths_foreign
    by (intros z Hz; apply (keptUses_foreign workspace w z Hd Hz)).
  cbn [app]. rewrite omap_app, omap_syncLine_owned by auto.
  rewrite app_nil_r. apply omap_syncLine_foreign.
  intros z Hz. destruct (keptUses_foreign workspace w z Hd Hz) as [_ Hg].
  split; [|exact Hg]. change ([] ++ sortedPaths workspace)%list
    with (sortedPaths workspace).
  destruct (existsb (String.eqb (modfile.TTok z)) (sortedPaths workspace)) eqn:E;
    [|reflexivity].
  apply existsb_exists in E as [q [Hq Eq]]. apply String.eqb_eq in Eq. subst q.
  apply In_sortedPaths, inGoModules_In in Hq. congruence.
Qed.

Lemma removeBlazedockReplaceRules_ok (fs fs' : Files) (p : Package) :
  removeBlazedockReplaceRules fs p = (fs', None) ->
  exists t,
    findGoMod (Sources p) <> ""
    /\ fs !! findGoMod (Sources p) = Some (ModContent t)
    /\ fs' = <[findGoMod (Sources p) := ModContent (teardownText t)]> fs.
Proof.
  intros H. pose proof H as H0. unfold removeBlazedockReplaceRules in H0.
  apply modifyGoMod_ok in H0 as (t & g & Hfn & Hfs & _ & _).
  exists t. split; [exact Hfn|]. split; [exact Hfs|].
  rewrite (removeBlazedockReplaceRules_run fs p t Hfn Hfs) in H.
  injection H as <-. reflexivity.
Qed.

Lemma settled_teardown (fs : Files) (p : Package) :
  settled fs p -> removeBlazedockReplaceRules fs p = (fs, None).
Proof.
  intros (Hfn & t & Hfs & Ht).
  rewrite (removeBlazedockReplaceRules_run fs p t Hfn Hfs), Ht.
  rewrite insert_id by exact Hfs. reflexivity.
Qed.

Lemma teardown_settles (fs fs' : Files) (p : Package) :
  removeBlazedockReplaceRules fs p = (fs', None) ->
  settled fs' p /\ (forall q, settled fs q -> settled fs' q).
Proof.
  intros H. apply removeBlazedockReplaceRules_ok in H as (t & Hfn & Hfs & ->).
  split.
  - split; [exact Hfn|]. exists (teardownText t).
    split; [apply lookup_insert_eq | apply teardownText_idem].
  - intros q (Hq & tq & Hfq & Htq). split; [exact Hq|].
    destruct (decide (findGoMod (Sources p) = findGoMod (Sources q))) as [E|N].
    + exists (teardownText t). rewrite <- E.
      split; [apply lookup_insert_eq | apply teardownText_idem].
    + exists tq. rewrite lookup_insert_ne by exact N. split; assumption.
Qed.

Lemma dropAll_settles (ps : list (string * Package)) (fs fs' : Files) :
  dropAll ps fs = (fs', None) ->
  (forall q, settled fs q -> settled fs' q)
  /\ (forall n p, In (n, p) ps -> isGo (Type_ p) = true -> settled fs' p).
Proof.
  revert fs. induction ps as [|[n0 p0] ps IH]; intros fs H.
  - injection H as <-. split; [auto|]. intros n p [].
  - cbn [dropAll] in H. destruct (isGo (Type_ p0)) eqn:Hgo; cbn [negb] in H.
    + destruct (removeBlazedockReplaceRules fs p0) as [fs1 [e|]] eqn:E;
        [discriminate|].
      apply teardown_settles in E as [E1 E2].
      apply IH in H as [H1 H2]. split; [auto|].
      intros n p [Heq|Hin] Hp; [|eauto].
      injection Heq as _ <-. apply H1, E1.
    + apply IH in H as [H1 H2]. split; [exact H1|].
      intros n p [Heq|Hin] Hp; [|eauto].
      injection Heq as _ <-. congruence.
Qed.

Lemma dropAll_settled (ps : list (string * Package)) (fs : Files) :
  (forall n p, In (n, p) ps -> isGo (Type_ p) = true -> settled fs p) ->
  dropAll ps fs = (fs, None).
Proof.
  induction ps as [|[n0 p0] ps IH]; intros H; [reflexivity|].
  cbn [dropAll]. destruct (isGo (Type_ p0)) eqn:Hgo; cbn [negb].
  - rewrite (settled_teardown fs p0 (H n0 p0 (or_introl eq_refl) Hgo)).
    apply IH. intros n p Hin. apply (H n p). right. exact Hin.
  - apply IH. intros n p Hin. apply (H n p). right. exact Hin.
Qed.

Lemma syncLine_ext (workspace : Workspace) (ps ps' : list string)
  (z : modfile.Text string) :
  (forall x, In x ps <-> In x ps') ->
  syncLine workspace ps z = syncLine workspace ps' z.
Proof.
  intros H. unfold syncLine.
  assert (existsb (String.eqb (modfile.TTok z)) ps
          = existsb (String.eqb (modfile.TTok z)) ps') as ->; [|reflexivity].
  apply eq_true_iff_eq. rewrite !existsb_exists.
  split; intros [x [Hx E]]; exists x; (split; [apply H, Hx | exact E]).
Qed.

Lemma omap_pointwise {A B} (f g : A -> option B) (l : list A) :
  (forall x, f x = g x) -> omap f l = omap g l.
Proof.
  intros H. induction l as [|x l IH]; [reflexivity|].
  change (omap f (x :: l))
    with (match f x with Some y => y :: omap f l | None => omap f l end).
  change (omap g (x :: l))
    with (match g x with Some y => y :: omap g l | None => omap g l end).
  rewrite H, IH. reflexivity.
Qed.

Lemma keptUses_Permutation (workspace : Workspace)
  (l l' : list (modfile.Text string)) :
  Permutation l l' ->
  Permutation (keptUses workspace l) (keptUses workspace l').
Proof.
  intros HP. rewrite !keptUses_syncLine.
  rewrite (omap_pointwise _ (syncLine workspace (ownedPaths (map parseUse l')))).
  - apply omap_Permutation, HP.
  - intros z. apply syncLine_ext. intros x.
    assert (Permutation (ownedPaths (map parseUse l))
                        (ownedPaths (map parseUse l'))) as HP'
      by (unfold ownedPaths; apply omap_Permutation, Permutation_map, HP).
    split; apply Permutation_in; [exact HP' | symmetry; exact HP'].
Qed.

Lemma settled_insert_work (fs : Files) (p : Package) (k : string)
  (w w' : modfile.WorkText) :
  fs !! k = Some (WorkContent w) ->
  settled fs p ->
  settled (<[k := WorkContent w']> fs) p.
Proof.
  intros Hk (Hfn & t & Hfs & Ht). split; [exact Hfn|]. exists t.
  split; [|exact Ht]. rewrite lookup_insert_ne; [exact Hfs|].
  intros ->. congruence.
Qed.

(** X16.  A second run of [LinkGoWorkspace] changes no go.mod and only
    rearranges go.work: when no use line written by hand names the
    directory of a Go package and a run succeeds, a run on the files it
    leaves succeeds and writes go.work alone, with the use lines it
    had, in the order modfile lays them out this time. *)
Theorem LinkGoWorkspace_again (Join : string -> string -> string)
  (SortBlocks1 SortBlocks2 : modfile.WorkFile -> modfile.WorkFile)
  (fs fs1 : Files) (workspace : Workspace) (w : modfile.WorkText) :
  modfile.sortsBlocks SortBlocks1 ->
  modfile.sortsBlocks SortBlocks2 ->
  fs !! Join (Origin workspace) "go.work" = Some (WorkContent w) ->
  disjointUses workspace w ->
  LinkGoWorkspace Join SortBlocks1 fs workspace = (fs1, None) ->
  exists w1 w2,
    fs1 !! Join (Origin workspace) "go.work" = Some (WorkContent w1)
    /\ LinkGoWorkspace Join SortBlocks2 fs1 workspace
       = (<[Join (Origin workspace) "go.work" := WorkContent w2]> fs1, None)
    /\ Permutation (modfile.WTUse w2) (modfile.WTUse w1).
Proof.
  intros HS1 HS2 Hw Hd H1.
  destruct (LinkGoWorkspace_run Join SortBlocks1 HS1 fs workspace w Hw)
    as (w1 & Hp1 & Hrun1).
  rewrite Hrun1 in H1.
  pose proof (dropAll_work (Packages workspace) _ _ _
                (lookup_insert_eq fs (Join (Origin workspace) "go.work")
                   (WorkContent w1))) as Hk.
  rewrite H1 in Hk. cbn [fst] in Hk.
  apply dropAll_settles in H1 as [_ Hall].
  destruct (LinkGoWorkspace_run Join SortBlocks2 HS2 fs1 workspace w1 Hk)
    as (w2 & Hp2 & ->).
  exists w1, w2. split; [exact Hk|]. split.
  - apply dropAll_settled. intros n p Hin Hgo.
    apply (settled_insert_work fs1 p _ w1 w2 Hk), (Hall n p Hin Hgo).
  - rewrite Hp2. cbn [syncText modfile.WTUse].
    rewrite (keptUses_Permutation workspace _ _ Hp1).
    pose proof (f_equal modfile.WTUse (syncText_idem workspace w Hd)) as E.
    cbn [syncText modfile.WTUse] in E. cbn [syncText modfile.WTUse].
    rewrite E. symmetry. exact Hp1.
Qed.

Lemma LinkGoWorkspace_again_witness :
  exists w1 w2,
    syncedFiles !! exJoin (Origin forkWs) "go.work" = Some (WorkContent w1)
    /\ LinkGoWorkspace exJoin noBlock syncedFiles forkWs
       = (<[exJoin (Origin forkWs) "go.work" := WorkContent w2]> syncedFiles,
          None)
    /\ Permutation (modfile.WTUse w2) (modfile.WTUse w1).
Proof.
  apply (LinkGoWorkspace_again exJoin oneBlock noBlock syncFiles syncedFiles
           forkWs oldWork).
  - exact oneBlock_sorts.
  - exact noBlock_sorts.
  - reflexivity.
  - intros z [<-|[<-|[<-|[]]]] Hs; solve [reflexivity | discriminate Hs].
  - vm_compute. reflexivity.
Defined.

(** * The vet checks *)

(** ** A Go package and its go.mod *)

Lemma scanSources_spec (sources : list string) (gm gs : bool) :
  gs && gm = false ->
  vet.scanSources sources gm gs
  = if (gs || endsIn "/go.sum" sources) && (gm || endsIn "/go.mod" sources)
    then None
    else Some (gm || endsIn "/go.mod" sources, gs || endsIn "/go.sum" sources).
Proof.
  revert gm gs. induction sources as [|src rest IH]; intros gm gs H.
  - cbn [vet.scanSources endsIn existsb]. rewrite !orb_false_r, H. reflexivity.
  - cbn [vet.scanSources endsIn existsb].
    fold (endsIn "/go.mod" rest). fold (endsIn "/go.sum" rest).
    destruct (strings.HasSuffix src "/go.mod") eqn:Em;
      destruct (strings.HasSuffix src "/go.sum") eqn:Es;
      destruct gm, gs; try discriminate H; cbn [andb orb];
      try reflexivity; rewrite IH by reflexivity; cbn [andb orb]; reflexivity.
Qed.

(** X17.  The has-gomod check never fails, and its findings depend only
    on whether some source ends in /go.mod and whether some source ends
    in /go.sum: one finding for each of the two that is missing, the
    go.mod one first. *)
Theorem checkGolangHasGomod_findings (pkg : Package) :
  vet.checkGolangHasGomod pkg
  = (((if endsIn "/go.mod" (Sources pkg) then [] else [noGoMod pkg])
      ++ (if endsIn "/go.sum" (Sources pkg) then [] else [noGoSum pkg]))%list,
     None).
Proof.
  unfold vet.checkGolangHasGomod.
  rewrite scanSources_spec by reflexivity. cbn [orb].
  destruct (endsIn "/go.mod" (Sources pkg)), (endsIn "/go.sum" (Sources pkg));
    reflexivity.
Qed.

Lemma HasSuffix_tail (s : string) (c : ascii) (t : string) :
  strings.HasSuffix s (String c t) = true -> strings.HasSuffix s t = true.
Proof.
  induction s as [|a s IH]; intros H.
  - discriminate H.
  - cbn [strings.HasSuffix] in H |- *.
    destruct (String.eqb_spec (String a s) (String c t)) as [E|N].
    + injection E as -> ->.
      destruct (String.eqb (String c t) t); [reflexivity|].
      destruct t as [|b t]; cbn [strings.HasSuffix]; rewrite String.eqb_refl;
        reflexivity.
    + destruct (String.eqb (String a s) t); [reflexivity|]. apply IH, H.
Qed.

Lemma findGoMod_found (sources : list string) :
  endsIn "go.mod" sources = true ->
  In (findGoMod sources) sources
  /\ strings.HasSuffix (findGoMod sources) "go.mod" = true.
Proof.
  induction sources as [|f rest IH]; intros H; [discriminate H|].
  cbn [endsIn existsb] in H. cbn [findGoMod].
  destruct (strings.HasSuffix f "go.mod") eqn:E.
  - split; [left; reflexivity | exact E].
  - destruct (IH H) as [H1 H2]. split; [right; exact H1 | exact H2].
Qed.

(** X18.  The has-gomod check is at least as strict as the linker: when
    it does not report a missing go.mod, the linker finds a go.mod among
    the sources of the package. *)
Theorem checkGolangHasGomod_linkable (pkg : Package) :
  ~ In (noGoMod pkg) (vet.checkGolangHasGomod pkg).1 ->
  findGoMod (Sources pkg) <> ""
  /\ In (findGoMod (Sources pkg)) (Sources pkg)
  /\ strings.HasSuffix (findGoMod (Sources pkg)) "go.mod" = true.
Proof.
  intros H.
  assert (endsIn "go.mod" (Sources pkg) = true) as E.
  { destruct (endsIn "/go.mod" (Sources pkg)) eqn:Em.
    - unfold endsIn in *. apply existsb_exists in Em as [s [Hs Hm]].
      apply existsb_exists. exists s. split; [exact Hs|].
      apply (HasSuffix_tail s "/"%char "go.mod"), Hm.
    - exfalso. apply H. unfold vet.checkGolangHasGomod.
      rewrite scanSources_spec by reflexivity. cbn [orb]. rewrite Em.
      rewrite andb_false_r. cbn [negb fst app]. 
      destruct (negb (endsIn "/go.sum" (Sources pkg))); left; reflexivity. }
  destruct (findGoMod_found _ E) as [H1 H2].
  split; [|split; assumption].
  intros E0. rewrite E0 in H2. discriminate H2.
Qed.

(** ** The build layout *)

Lemma layout_count (pkg : Package) (l : list (string * string))
  (idx : gmap string string) (fnd : list vet.Finding) :
  dom (fold_left (vet.layoutBody pkg) l (idx, fnd)).1
  = (dom idx ∪ list_to_set (map snd l) : gset string)
  /\ length (fold_left (vet.layoutBody pkg) l (idx, fnd)).2
     + size (fold_left (vet.layoutBody pkg) l (idx, fnd)).1
     = length fnd + size idx + length l.
Proof.
  revert idx fnd. induction l as [|[dep loc] l IH]; intros idx fnd.
  - cbn [fold_left map list_to_set fst snd length].
    split; [rewrite union_empty_r_L; reflexivity | lia].
  - cbn [fold_left map list_to_set length]. unfold vet.layoutBody at 2 4 6.
    destruct (idx !! loc) as [otherdep|] eqn:E.
    + destruct (IH idx (fnd ++ [collision pkg loc dep otherdep])%list) as [H1 H2].
      unfold collision in H1, H2. rewrite H1, H2. split.
      * assert (loc ∈ dom idx) as Hin by (apply elem_of_dom; eauto).
        cbn [snd]. rewrite (assoc_L (∪)). f_equal.
        apply set_eq. intros x. rewrite elem_of_union, elem_of_singleton.
        split; [auto|]. intros [Hx| ->]; assumption.
      * rewrite length_app. cbn [length]. lia.
    + destruct (IH (<[loc := dep]> idx) fnd) as [H1 H2].
      rewrite H1, H2. split.
      * rewrite dom_insert_L. cbn [snd].
        rewrite (assoc_L (∪)), (comm_L (∪) {[loc]}). reflexivity.
      * rewrite map_size_insert_None by exact E. lia.
Qed.

Lemma size_list_to_set_dups (l : list string) :
  size (list_to_set l : gset string) = length (remove_dups l).
Proof.
  rewrite <- (size_list_to_set (C := gset string) (remove_dups l))
    by apply NoDup_remove_dups.
  f_equal. apply set_eq. intros x.
  rewrite !elem_of_list_to_set, elem_of_remove_dups. reflexivity.
Qed.

Lemma length_remove_dups_le (l : list string) :
  length (remove_dups l) <= length l.
Proof.
  induction l as [|x l IH]; [reflexivity|].
  cbn [remove_dups length]. destruct (decide_rel elem_of x l); cbn [length]; lia.
Qed.

Lemma length_remove_dups_NoDup (l : list string) :
  length (remove_dups l) = length l <-> List.NoDup l.
Proof.
  induction l as [|x l IH]; [split; [constructor | reflexivity]|].
  cbn [remove_dups length].
  pose proof (length_remove_dups_le l) as Hle.
  destruct (decide_rel elem_of x l) as [Hin|Hin]; cbn [length].
  - split; [lia|]. intros H. inversion H as [|? ? Hx _]; subst.
    exfalso. apply Hx, list_elem_of_In, Hin.
  - split.
    + intros H. constructor.
      * intros Hx. apply Hin, list_elem_of_In, Hx.
      * apply IH. lia.
    + intros H. inversion H; subst. f_equal. apply IH. assumption.
Qed.

Lemma checkBuildLayout_length (pkg : Package) (layout : list (string * string)) :
  length (vet.checkBuildLayout pkg layout).1
  + length (remove_dups (map snd layout)) = length layout.
Proof.
  unfold vet.checkBuildLayout. cbn [fst].
  destruct (layout_count pkg layout ∅ []) as [H1 H2].
  rewrite <- size_list_to_set_dups.
  assert (size (fold_left (vet.layoutBody pkg) layout (∅, [])).1
          = size (list_to_set (map snd layout) : gset string)) as E.
  { rewrite <- (size_dom (D := gset string)), H1, dom_empty_L, union_empty_l_L.
    reflexivity. }
  rewrite <- E, H2. rewrite map_size_empty. cbn [length]. lia.
Qed.

(** X19.  The build-layout check never fails, and it reports one finding
    for every entry of the layout beyond the first at its location: the
    number of findings is the number of entries less the number of
    distinct locations. *)
Theorem checkBuildLayout_count (pkg : Package) (layout : list (string * string)) :
  (vet.checkBuildLayout pkg layout).2 = None
  /\ length (vet.checkBuildLayout pkg layout).1
     = length layout - length (remove_dups (map snd layout)).
Proof.
  split; [reflexivity|].
  pose proof (checkBuildLayout_length pkg layout). lia.
Qed.

(** X20.  The number of findings of the build-layout check does not
    depend on the order in which the iteration meets the entries of the
    layout. *)
Theorem checkBuildLayout_any_order (pkg : Package)
  (layout layout' : list (string * string)) :
  Permutation layout layout' ->
  length (vet.checkBuildLayout pkg layout).1
  = length (vet.checkBuildLayout pkg layout').1.
Proof.
  intros HP.
  pose proof (checkBuildLayout_length pkg layout) as H1.
  pose proof (checkBuildLayout_length pkg layout') as H2.
  assert (length (remove_dups (map snd layout))
          = length (remove_dups (map snd layout'))) as E.
  { rewrite <- !size_list_to_set_dups. f_equal. apply set_eq. intros x.
    rewrite !elem_of_list_to_set.
    assert (Permutation (map snd layout) (map snd layout')) as HP'
      by (apply Permutation_map, HP).
    rewrite HP'. reflexivity. }
  rewrite (Permutation_length HP) in H1. lia.
Qed.

(** X21.  The build-layout check has no finding exactly when no two
    entries of the layout share a location. *)
Theorem checkBuildLayout_clean (pkg : Package) (layout : list (string * string)) :
  (vet.checkBuildLayout pkg layout).1 = [] <-> List.NoDup (map snd layout).
Proof.
  rewrite <- length_remove_dups_NoDup, length_map.
  pose proof (checkBuildLayout_length pkg layout) as H.
  split.
  - intros E. rewrite E in H. exact H.
  - intros E. rewrite E in H.
    destruct (vet.checkBuildLayout pkg layout).1; [reflexivity|].
    cbn [length] in H. lia.
Qed.

Lemma layout_reports (pkg : Package) (layout l pre : list (string * string))
  (idx : gmap string string) (fnd : list vet.Finding) (P : vet.Finding -> Prop) :
  (forall dep loc otherdep l1 l2 l3,
     layout = (l1 ++ (otherdep, loc) :: l2 ++ (dep, loc) :: l3)%list ->
     ~ In loc (map snd l1) ->
     P (collision pkg loc dep otherdep)) ->
  layout = (pre ++ l)%list ->
  indexOf pre idx ->
  (forall f, In f fnd -> P f) ->
  forall f, In f (fold_left (vet.layoutBody pkg) l (idx, fnd)).2 -> P f.
Proof.
  intros HP. revert pre idx fnd.
  induction l as [|[dep loc] l IH]; intros pre idx fnd Hl [Hi1 Hi2] Hf.
  - exact Hf.
  - cbn [fold_left]. unfold vet.layoutBody at 2.
    assert (layout = ((pre ++ [(dep, loc)]) ++ l)%list) as Hl'
      by (rewrite <- app_assoc; exact Hl).
    destruct (idx !! loc) as [otherdep|] eqn:E.
    + destruct (Hi1 loc otherdep E) as (l1 & l2 & Hpre & Hno).
      apply (IH (pre ++ [(dep, loc)])%list); [exact Hl'| |].
      * split.
        -- intros loc' d Hd. destruct (Hi1 loc' d Hd) as (k1 & k2 & -> & Hk).
           exists k1, (k2 ++ [(dep, loc)])%list. split; [|exact Hk].
           rewrite <- app_assoc. reflexivity.
        -- intros e He. apply in_app_or in He as [He|[<-|[]]]; [auto|].
           cbn [snd]. rewrite E. eauto.
      * intros f Hin. apply in_app_or in Hin as [Hin|[<-|[]]]; [auto|].
        apply (HP dep loc otherdep l1 l2 l); [|exact Hno].
        rewrite Hl, Hpre, <- app_assoc. reflexivity.
    + apply (IH (pre ++ [(dep, loc)])%list); [exact Hl'| |exact Hf].
      split.
      * intros loc' d Hd. destruct (decide (loc' = loc)) as [->|N].
        -- rewrite lookup_insert_eq in Hd. injection Hd as <-.
           exists pre, []. split; [reflexivity|].
           intros Hin. apply in_map_iff in Hin as [e [He Hin]].
           destruct (Hi2 e Hin) as [d Hd]. rewrite He in Hd. congruence.
        -- rewrite lookup_insert_ne in Hd by congruence.
           destruct (Hi1 loc' d Hd) as (k1 & k2 & -> & Hk).
           exists k1, (k2 ++ [(dep, loc)])%list. split; [|exact Hk].
           rewrite <- app_assoc. reflexivity.
      * intros e He. apply in_app_or in He as [He|[<-|[]]].
        -- destruct (decide (e.2 = loc)) as [->|N].
           ++ rewrite lookup_insert_eq. eauto.
           ++ rewrite lookup_insert_ne by congruence. auto.
        -- cbn [snd]. rewrite lookup_insert_eq. eauto.
Qed.

(** X22.  Every finding of the build-layout check is an error of the
    package checked and names a location with two entries of the layout
    at it: the entry whose turn it was, and the first entry that the
    iteration met at that location. *)
Theorem checkBuildLayout_reports (pkg : Package)
  (layout : list (string * string)) (f : vet.Finding) :
  In f (vet.checkBuildLayout pkg layout).1 ->
  exists dep loc otherdep l1 l2 l3,
    layout = (l1 ++ (otherdep, loc) :: l2 ++ (dep, loc) :: l3)%list
    /\ ~ In loc (map snd l1)
    /\ f = vet.mkFinding ("build-time location " ++ loc ++ " is used by "
                          ++ dep ++ " and " ++ otherdep)
                         true (Some pkg).
Proof.
  unfold vet.checkBuildLayout. cbn [fst]. revert f.
  apply (layout_reports pkg layout layout [] ∅ []
           (fun f => exists dep loc otherdep l1 l2 l3,
              layout = (l1 ++ (otherdep, loc) :: l2 ++ (dep, loc) :: l3)%list
              /\ ~ In loc (map snd l1)
              /\ f = collision pkg loc dep otherdep)).
  - intros dep loc otherdep l1 l2 l3 H1 H2.
    exists dep, loc, otherdep, l1, l2, l3. auto.
  - reflexivity.
  - split; [intros loc d H; rewrite lookup_empty in H; discriminate | intros e []].
  - intros f0 [].
Qed.

Lemma checkGolangHasGomod_linkable_witness :
  findGoMod (Sources libB) <> ""
  /\ In (findGoMod (Sources libB)) (Sources libB)
  /\ strings.HasSuffix (findGoMod (Sources libB)) "go.mod" = true.
Proof.
  apply (checkGolangHasGomod_linkable libB).
  vm_compute. intros [H|[]]. discriminate H.
Defined.

Lemma checkBuildLayout_any_order_witness :
  length (vet.checkBuildLayout libB crowded).1
  = length (vet.checkBuildLayout libB (rev crowded)).1.
Proof.
  apply (checkBuildLayout_any_order libB crowded (rev crowded)).
  apply Permutation_rev.
Defined.

Lemma checkBuildLayout_reports_witness :
  exists dep loc otherdep l1 l2 l3,
    crowded = (l1 ++ (otherdep, loc) :: l2 ++ (dep, loc) :: l3)%list
    /\ ~ In loc (map snd l1)
    /\ collision top "lib" "b:lib" "a:lib"
       = vet.mkFinding ("build-time location " ++ loc ++ " is used by "
                        ++ dep ++ " and " ++ otherdep)
                       true (Some top).
Proof.
  apply (checkBuildLayout_reports top crowded (collision top "lib" "b:lib" "a:lib")).
  vm_compute. left. reflexivity.
Defined.

(** * The command line *)

(** ** Splitting at a one-byte separator *)

Lemma length_drop (n : nat) (s : string) :
  String.length (strings.drop n s) = String.length s - n.
Proof.
  revert s. induction n as [|n IH]; intros [|a s]; cbn; try reflexivity.
  apply IH.
Qed.

Lemma length_append (s t : string) :
  String.length (s ++ t) = String.length s + String.length t.
Proof.
  induction s as [|a s IH]; [reflexivity|].
  rewrite append_cons. cbn [String.length]. rewrite IH. reflexivity.
Qed.

Lemma Index_bound (s sep : string) (m : nat) :
  strings.Index s sep = Some m -> m + String.length sep <= String.length s.
Proof.
  revert m. induction s as [|a s IH]; intros m; cbn [strings.Index].
  - destruct (strings.HasPrefix "" sep) eqn:E; [|discriminate].
    intros H. injection H as <-. destruct sep; [cbn; lia | discriminate E].
  - destruct (strings.HasPrefix (String a s) sep) eqn:E.
    + intros H. injection H as <-.
      apply HasPrefix_spec in E as [post E]. rewrite E.
      rewrite length_append. lia.
    + destruct (strings.Index s sep) as [i|]; [|discriminate].
      intros H. injection H as <-. specialize (IH i eq_refl). cbn. lia.
Qed.

Lemma genSplit_fuel (sep : string) (n n' : nat) (s : string) :
  sep <> ""%string ->
  String.length s < n -> String.length s < n' ->
  strings.genSplit n s sep = strings.genSplit n' s sep.
Proof.
  intros Hsep. revert n' s. induction n as [|n IH]; intros n' s Hn Hn'; [lia|].
  destruct n' as [|n']; [lia|]. cbn [strings.genSplit].
  destruct (strings.Index s sep) as [m|] eqn:E; [|reflexivity].
  f_equal. apply Index_bound in E.
  assert (0 < String.length sep) by (destruct sep; [congruence | cbn; lia]).
  apply IH; rewrite length_drop; lia.
Qed.

Lemma Split_nil (c : ascii) : strings.Split "" (String c "") = [""%string].
Proof. reflexivity. Qed.

Lemma HasPrefix_nil (s : string) : strings.HasPrefix s "" = true.
Proof. destruct s; reflexivity. Qed.

Lemma Index_byte (a c : ascii) (s : string) :
  strings.Index (String a s) (String c "")
  = if Ascii.eqb a c then Some 0
    else option_map S (strings.Index s (String c "")).
Proof.
  cbn [strings.Index strings.HasPrefix]. rewrite HasPrefix_nil.
  destruct (Ascii.eqb a c); reflexivity.
Qed.

Lemma genSplit_S (fuel : nat) (s sep : string) :
  strings.genSplit (S fuel) s sep
  = match strings.Index s sep with
    | None => [s]
    | Some m =>
        strings.take m s
        :: strings.genSplit fuel (strings.drop (m + String.length sep) s) sep
    end.
Proof. reflexivity. Qed.

Lemma Split_cons (a c : ascii) (s : string) :
  strings.Split (String a s) (String c "")
  = if Ascii.eqb a c then ""%string :: strings.Split s (String c "")
    else match strings.Split s (String c "") with
         | h :: t => String a h :: t
         | [] => []
         end.
Proof.
  unfold strings.Split. rewrite (genSplit_S _ (String a s)), Index_byte.
  destruct (Ascii.eqb a c); [reflexivity|].
  rewrite (genSplit_S _ s).
  destruct (strings.Index s (String c "")) as [m|] eqn:E; [|reflexivity].
  cbn [option_map strings.take String.length]. f_equal.
  change (S m + 1) with (S (m + 1)). cbn [strings.drop].
  apply Index_bound in E. cbn [String.length] in E.
  apply genSplit_fuel; [discriminate| |]; rewrite length_drop; lia.
Qed.

Lemma Split_some (c : ascii) (s : string) :
  exists h t, strings.Split s (String c "") = h :: t.
Proof.
  destruct s as [|a s]; [rewrite Split_nil; eauto|].
  unfold strings.Split. rewrite genSplit_S.
  destruct (strings.Index _ _); eauto.
Qed.

Lemma Join_cons (a : ascii) (h : string) (t : list string) (sep : string) :
  strings.Join (String a h :: t) sep = String a (strings.Join (h :: t) sep).
Proof. destruct t; reflexivity. Qed.

Lemma Join_Split (c : ascii) (s : string) :
  strings.Join (strings.Split s (String c "")) (String c "") = s.
Proof.
  induction s as [|a s IH]; [reflexivity|].
  rewrite Split_cons. destruct (Split_some c s) as (h & t & E).
  rewrite E in IH |- *. destruct (Ascii.eqb_spec a c) as [->|N].
  - cbn [strings.Join]. rewrite append_nil, append_cons, append_nil.
    f_equal. exact IH.
  - rewrite Join_cons. f_equal. exact IH.
Qed.

Lemma Contains_byte (a c : ascii) (s : string) :
  strings.Contains (String a s) (String c "")
  = Ascii.eqb a c || strings.Contains s (String c "").
Proof.
  rewrite Contains_eq. cbn [strings.HasPrefix]. rewrite HasPrefix_nil.
  destruct (Ascii.eqb a c); reflexivity.
Qed.

Lemma Split_key (c : ascii) (k v : string) :
  strings.Contains k (String c "") = false ->
  strings.Split (k ++ String c "" ++ v) (String c "")
  = k :: strings.Split v (String c "").
Proof.
  induction k as [|a k IH]; intros H.
  - rewrite append_nil, append_cons, append_nil, Split_cons, Ascii.eqb_refl.
    reflexivity.
  - rewrite Contains_byte in H. apply orb_false_iff in H as [Ha Hk].
    rewrite append_cons, Split_cons, Ha, (IH Hk). reflexivity.
Qed.

Lemma Split_whole (c : ascii) (s : string) :
  strings.Contains s (String c "") = false ->
  strings.Split s (String c "") = [s].
Proof.
  induction s as [|a s IH]; intros H; [reflexivity|].
  rewrite Contains_byte in H. apply orb_false_iff in H as [Ha Hs].
  rewrite Split_cons, Ha, (IH Hs). reflexivity.
Qed.

Lemma Contains_cut (c : ascii) (s : string) :
  strings.Contains s (String c "") = true ->
  exists k v, s = (k ++ String c "" ++ v)%string
              /\ strings.Contains k (String c "") = false.
Proof.
  induction s as [|a s IH]; intros H; [discriminate H|].
  rewrite Contains_byte in H. destruct (Ascii.eqb_spec a c) as [->|N].
  - exists ""%string, s. split; reflexivity.
  - cbn [orb] in H. destruct (IH H) as (k & v & -> & Hk).
    exists (String a k), v. split; [reflexivity|].
    rewrite Contains_byte, Hk. apply Ascii.eqb_neq in N. rewrite N. reflexivity.
Qed.
(** ** Build arguments *)

Lemma append_assoc (s t u : string) :
  ((s ++ t) ++ u)%string = (s ++ t ++ u)%string.
Proof.
  induction s as [|a s IH]; [reflexivity|].
  rewrite !append_cons, IH. reflexivity.
Qed.

Lemma buildArgsLoop_valid (k v : string) (rest : list string)
  (res : gmap string string) :
  strings.Contains k "=" = false ->
  cmd.buildArgsLoop ((k ++ "=" ++ v)%string :: rest) res
  = cmd.buildArgsLoop rest (<[k := v]> res).
Proof.
  intros Hk. cbn [cmd.buildArgsLoop]. rewrite (Split_key _ k v Hk).
  destruct (Split_some "="%char v) as (h & t & E). rewrite E.
  cbn [length Nat.ltb Nat.leb hd tl]. rewrite <- E, Join_Split. reflexivity.
Qed.

Lemma buildArgsLoop_invalid (arg : string) (rest : list string)
  (res : gmap string string) :
  strings.Contains arg "=" = false ->
  cmd.buildArgsLoop (arg :: rest) res
  = (None, Some ("invalid build argument (format is key=value): " ++ arg)%string).
Proof.
  intros H. cbn [cmd.buildArgsLoop]. rewrite (Split_whole _ arg H). reflexivity.
Qed.

Lemma buildArgsLoop_pre (pre l : list string) (res : gmap string string) :
  Forall (fun a => strings.Contains a "=" = true) pre ->
  exists res', cmd.buildArgsLoop (pre ++ l) res = cmd.buildArgsLoop l res'.
Proof.
  intros H. revert res. induction H as [|a pre Ha _ IH]; intros res; [eauto|].
  apply Contains_cut in Ha as (k & v & -> & Hk).
  rewrite <- app_comm_cons, (buildArgsLoop_valid k v _ _ Hk). apply IH.
Qed.

Lemma buildArgsLoop_keeps (k v : string) (post : list string)
  (res : gmap string string) :
  Forall (fun a => strings.Contains a "=" = true) post ->
  Forall (fun a => strings.HasPrefix a (k ++ "=") = false) post ->
  res !! k = Some v ->
  exists m, cmd.buildArgsLoop post res = (Some m, None) /\ m !! k = Some v.
Proof.
  intros H. revert res. induction H as [|a post Ha _ IH]; intros res Hp Hres.
  - exists res. split; [reflexivity | exact Hres].
  - inversion Hp as [|? ? Hpa Hpp]; subst.
    apply Contains_cut in Ha as (k' & v' & -> & Hk').
    rewrite (buildArgsLoop_valid k' v' _ _ Hk'). apply (IH _ Hpp).
    rewrite lookup_insert_ne; [exact Hres|]. intros ->.
    assert (strings.HasPrefix (k ++ "=" ++ v') (k ++ "=") = true) as E
      by (apply HasPrefix_spec; exists v'; symmetry; apply append_assoc).
    congruence.
Qed.

(** X23.  An argument without an equals sign makes [getBuildArgs] fail:
    it returns no map, and the error names the first such argument. *)
Theorem getBuildArgs_invalid (pre post : list string) (bad : string) :
  Forall (fun a => strings.Contains a "=" = true) pre ->
  strings.Contains bad "=" = false ->
  cmd.getBuildArgs (pre ++ bad :: post)
  = (None, Some ("invalid build argument (format is key=value): " ++ bad)%string).
Proof.
  intros Hpre Hbad. unfold cmd.getBuildArgs.
  replace (Nat.eqb (length (pre ++ bad :: post)) 0) with false
    by (destruct pre; reflexivity).
  destruct (buildArgsLoop_pre pre (bad :: post) ∅ Hpre) as [res' ->].
  apply buildArgsLoop_invalid, Hbad.
Qed.

(** X24.  An argument is cut at its first equals sign: the key is what
    stands before it, the value everything after it, further equals
    signs included; and of two arguments with the same key the later
    one wins. *)
Theorem getBuildArgs_lookup (pre post : list string) (k v : string) :
  Forall (fun a => strings.Contains a "=" = true) (pre ++ post) ->
  strings.Contains k "=" = false ->
  Forall (fun a => strings.HasPrefix a (k ++ "=") = false) post ->
  exists m,
    cmd.getBuildArgs (pre ++ (k ++ "=" ++ v)%string :: post) = (Some m, None)
    /\ m !! k = Some v.
Proof.
  intros Hall Hk Hpost. apply Forall_app in Hall as [Hpre Hpo].
  unfold cmd.getBuildArgs.
  replace (Nat.eqb (length (pre ++ (k ++ "=" ++ v)%string :: post)) 0) with false
    by (destruct pre; reflexivity).
  destruct (buildArgsLoop_pre pre ((k ++ "=" ++ v)%string :: post) ∅ Hpre)
    as [res' ->].
  rewrite (buildArgsLoop_valid k v _ _ Hk).
  apply buildArgsLoop_keeps; [exact Hpo | exact Hpost | apply lookup_insert_eq].
Qed.

Lemma buildArgsLoop_sound (args : list string) (res m : gmap string string)
  (k v : string) :
  cmd.buildArgsLoop args res = (Some m, None) ->
  m !! k = Some v ->
  res !! k = Some v
  \/ (strings.Contains k "=" = false /\ In (k ++ "=" ++ v)%string args).
Proof.
  revert res. induction args as [|a args IH]; intros res H Hm.
  - injection H as <-. left. exact Hm.
  - destruct (strings.Contains a "=") eqn:Ha.
    + apply Contains_cut in Ha as (k' & v' & -> & Hk').
      rewrite (buildArgsLoop_valid k' v' _ _ Hk') in H.
      destruct (IH _ H Hm) as [Hres|[H1 H2]].
      * destruct (decide (k' = k)) as [->|N].
        -- rewrite lookup_insert_eq in Hres. injection Hres as ->.
           right. split; [exact Hk' | left; reflexivity].
        -- rewrite lookup_insert_ne in Hres by exact N. left. exact Hres.
      * right. split; [exact H1 | right; exact H2].
    + rewrite (buildArgsLoop_invalid a args res Ha) in H. discriminate H.
Qed.

(** X25.  Every entry of the map that [getBuildArgs] returns comes from
    an argument: the key holds no equals sign, and key, equals sign and
    value make up one of the arguments. *)
Theorem getBuildArgs_sound (args : list string) (m : gmap string string)
  (k v : string) :
  cmd.getBuildArgs args = (Some m, None) ->
  m !! k = Some v ->
  strings.Contains k "=" = false /\ In (k ++ "=" ++ v)%string args.
Proof.
  unfold cmd.getBuildArgs. destruct (Nat.eqb (length args) 0); [discriminate|].
  intros H Hm. destruct (buildArgsLoop_sound args ∅ m k v H Hm) as [E|E].
  - rewrite lookup_empty in E. discriminate E.
  - exact E.
Qed.

Lemma getBuildArgs_invalid_witness :
  cmd.getBuildArgs (["a=1"%string] ++ "oops"%string :: ["b=2"%string])
  = (None, Some ("invalid build argument (format is key=value): " ++ "oops")%string).
Proof.
  apply (getBuildArgs_invalid ["a=1"%string] ["b=2"%string] "oops").
  - repeat constructor.
  - reflexivity.
Defined.

Lemma getBuildArgs_lookup_witness :
  exists m,
    cmd.getBuildArgs (["k=old"%string]
                      ++ ("k" ++ "=" ++ "a=b")%string :: ["other=1"%string])
    = (Some m, None)
    /\ m !! "k"%string = Some "a=b"%string.
Proof.
  apply (getBuildArgs_lookup ["k=old"%string] ["other=1"%string] "k" "a=b").
  - repeat constructor.
  - reflexivity.
  - repeat constructor.
Defined.

Lemma getBuildArgs_sound_witness :
  strings.Contains "k" "=" = false
  /\ In ("k" ++ "=" ++ "a=b")%string ["k=a=b"%string; "j=1"%string].
Proof.
  apply (getBuildArgs_sound ["k=a=b"%string; "j=1"%string]
           (<["j"%string := "1"%string]> (<["k"%string := "a=b"%string]> ∅))).
  - vm_compute. reflexivity.
  - reflexivity.
Defined.

(** * Provenance assertions *)

(** ** The two assertion runners *)

Lemma AssertStatement_flat (a : list provutil.Assertion)
  (stmt : provenance.Statement) :
  provutil.AssertStatement a stmt = flat_map (stated stmt) a.
Proof.
  unfold provutil.AssertStatement. cbv zeta.
  rewrite <- (app_nil_l (flat_map (stated stmt) a)).
  generalize (@nil (provutil.Violation provutil.Assertion)) as failed.
  induction a as [|as_ a IH]; intros failed.
  - cbn [fold_left flat_map]. rewrite app_nil_r. reflexivity.
  - cbn [fold_left flat_map]. rewrite IH, app_assoc. f_equal.
    unfold stated. destruct (provutil.Run as_); [reflexivity|].
    rewrite app_nil_r. reflexivity.
Qed.

Lemma AssertBundle_flat (a : list provutil.Assertion)
  (bundle : provenance.Envelope) :
  provutil.AssertBundle a bundle = flat_map (bundled bundle) a.
Proof.
  unfold provutil.AssertBundle. cbv zeta.
  rewrite <- (app_nil_l (flat_map (bundled bundle) a)).
  generalize (@nil (provutil.Violation provutil.Assertion)) as failed.
  induction a as [|as_ a IH]; intros failed.
  - cbn [fold_left flat_map]. rewrite app_nil_r. reflexivity.
  - cbn [fold_left flat_map]. rewrite IH, app_assoc. f_equal.
    unfold bundled. destruct (provutil.RunBundle as_); [reflexivity|].
    rewrite app_nil_r. reflexivity.
Qed.

(** X26.  Every violation that [AssertStatement] returns carries the
    assertion that found it and the statement, so that printing it
    never meets a nil pointer: the text is the entry point of the
    statement, the name of the assertion and the description. *)
Theorem AssertStatement_tags (a : list provutil.Assertion)
  (stmt : provenance.Statement) (v : provutil.Violation provutil.Assertion) :
  In v (provutil.AssertStatement a stmt) ->
  exists as_ run v0,
    In as_ a /\ provutil.Run as_ = Some run /\ In v0 (run stmt)
    /\ v = provutil.mkViolation (Some as_) (Some stmt) (provutil.Desc v0)
    /\ provutil.String_ v
       = Some (provenance.EntryPoint stmt ++ " failed " ++ provutil.Name as_
               ++ ": " ++ provutil.Desc v0)%string.
Proof.
  rewrite AssertStatement_flat, in_flat_map. intros (as_ & Ha & Hv).
  unfold stated in Hv. destruct (provutil.Run as_) as [run|] eqn:E; [|destruct Hv].
  apply in_map_iff in Hv as (v0 & <- & Hv0).
  exists as_, run, v0. repeat split; assumption.
Qed.

(** X27.  Every violation that [AssertBundle] returns carries the
    assertion that found it; when the assertion left the statement
    nil, printing the violation gives the name of the assertion and
    the description. *)
Theorem AssertBundle_tags (a : list provutil.Assertion)
  (bundle : provenance.Envelope) (v : provutil.Violation provutil.Assertion) :
  In v (provutil.AssertBundle a bundle) ->
  exists as_ run v0,
    In as_ a /\ provutil.RunBundle as_ = Some run /\ In v0 (run bundle)
    /\ v = provutil.mkViolation (Some as_) (provutil.VStatement v0)
             (provutil.Desc v0)
    /\ (provutil.VStatement v0 = None ->
        provutil.String_ v
        = Some ("failed " ++ provutil.Name as_ ++ ": " ++ provutil.Desc v0)%string).
Proof.
  rewrite AssertBundle_flat, in_flat_map. intros (as_ & Ha & Hv).
  unfold bundled in Hv.
  destruct (provutil.RunBundle as_) as [run|] eqn:E; [|destruct Hv].
  apply in_map_iff in Hv as (v0 & <- & Hv0).
  exists as_, run, v0. repeat split; try assumption.
  intros Hs. unfold provutil.String_. cbn. rewrite Hs. reflexivity.
Qed.

(** ** The assertions *)

Lemma gitMaterials_cons (m : provenance.Material)
  (ms : list provenance.Material) :
  provutil.gitMaterials (m :: ms)
  = if isGit m then provutil.gitMaterials ms
    else [provutil.mkViolation None None
            ("contains non-Git material, e.g. " ++ provenance.URI m)%string].
Proof. reflexivity. Qed.

Lemma gitMaterials_clean (ms : list provenance.Material) :
  provutil.gitMaterials ms = [] <-> Forall (fun m => isGit m = true) ms.
Proof.
  induction ms as [|m ms IH]; [split; [constructor | reflexivity]|].
  rewrite gitMaterials_cons. destruct (isGit m) eqn:E.
  - rewrite IH. split; [intros H; constructor; assumption|].
    intros H. inversion H; assumption.
  - split; [discriminate|]. intros H. inversion H; congruence.
Qed.

Lemma gitMaterials_first (pre post : list provenance.Material)
  (m : provenance.Material) :
  Forall (fun m => isGit m = true) pre ->
  isGit m = false ->
  provutil.gitMaterials (pre ++ m :: post)
  = [provutil.mkViolation None None
       ("contains non-Git material, e.g. " ++ provenance.URI m)%string].
Proof.
  intros Hpre Hm. induction Hpre as [|x pre Hx _ IH].
  - rewrite app_nil_l, gitMaterials_cons, Hm. reflexivity.
  - rewrite <- app_comm_cons, gitMaterials_cons, Hx. exact IH.
Qed.

Lemma HasPrefix_append (p s : string) : strings.HasPrefix (p ++ s) p = true.
Proof. apply HasPrefix_spec. exists s. reflexivity. Qed.

Lemma drop_append (p s : string) : strings.drop (String.length p) (p ++ s) = s.
Proof.
  induction p as [|a p IH]; [reflexivity|].
  rewrite append_cons. cbn [String.length strings.drop]. exact IH.
Qed.

Lemma append_inj (p s t : string) : (p ++ s)%string = (p ++ t)%string -> s = t.
Proof.
  induction p as [|a p IH]; [rewrite !append_nil; auto|].
  rewrite !append_cons. intros H. injection H as H. apply IH, H.
Qed.

Section Built.

Variable ProvenanceBuilderID : string.

(** X28.  A statement passes the three assertions on statements
    together exactly when its builder is this builder at the version
    asked for and all its material is from Git. *)
Theorem AssertStatement_passes (version : string) (stmt : provenance.Statement) :
  provutil.AssertStatement
    [provutil.AssertBuiltWithBlazedock ProvenanceBuilderID;
     provutil.AssertBuiltWithBlazedockVersion ProvenanceBuilderID version;
     provutil.AssertGitMaterialOnly] stmt = []
  <-> provenance.BuilderID stmt = (ProvenanceBuilderID ++ ":" ++ version)%string
      /\ Forall (fun m => isGit m = true) (provenance.Materials stmt).
Proof.
  rewrite AssertStatement_flat. cbn [flat_map]. rewrite app_nil_r.
  unfold stated. cbn [provutil.Run provutil.AssertBuiltWithBlazedock
    provutil.AssertBuiltWithBlazedockVersion provutil.AssertGitMaterialOnly].
  rewrite <- gitMaterials_clean.
  destruct (strings.HasPrefix (provenance.BuilderID stmt) ProvenanceBuilderID)
    eqn:Hp; cbn [negb map app].
  - destruct (String.eqb_spec (provenance.BuilderID stmt)
                (ProvenanceBuilderID ++ ":" ++ version)) as [E|N];
      cbn [negb map app].
    + split.
      * intros H. split; [exact E|].
        destruct (provutil.gitMaterials _); [reflexivity | discriminate H].
      * intros [_ H]. rewrite H. reflexivity.
    + split; [discriminate | intros [E _]; contradiction].
  - split; [discriminate|]. intros [E _].
    rewrite E, HasPrefix_append in Hp. discriminate Hp.
Qed.

(** X29.  A statement built by this builder at another version fails
    the version assertion with one violation, which names the version
    found. *)
Theorem AssertBuiltWithBlazedockVersion_other (version other : string)
  (stmt : provenance.Statement) :
  provenance.BuilderID stmt = (ProvenanceBuilderID ++ ":" ++ other)%string ->
  other <> version ->
  provutil.AssertStatement
    [provutil.AssertBuiltWithBlazedockVersion ProvenanceBuilderID version] stmt
  = [provutil.mkViolation
       (Some (provutil.AssertBuiltWithBlazedockVersion ProvenanceBuilderID version))
       (Some stmt)
       ("was built using blazedock version " ++ other)%string].
Proof.
  intros E N. rewrite AssertStatement_flat. cbn [flat_map]. rewrite app_nil_r.
  unfold stated. cbn [provutil.Run provutil.AssertBuiltWithBlazedockVersion].
  rewrite E, HasPrefix_append. cbn [negb].
  destruct (String.eqb_spec (ProvenanceBuilderID ++ ":" ++ other)
              (ProvenanceBuilderID ++ ":" ++ version)) as [E'|_].
  - exfalso. apply N. apply append_inj in E'. apply (append_inj ":") in E'.
    exact E'.
  - cbn [negb map provutil.Desc]. unfold strings.TrimPrefix.
    rewrite <- (append_assoc ProvenanceBuilderID ":" other).
    rewrite HasPrefix_append, drop_append. reflexivity.
Qed.

End Built.

(** X30.  The Git assertion stops at the first material that is not
    from Git: it reports that one alone, whatever follows it. *)
Theorem AssertGitMaterialOnly_first (stmt : provenance.Statement)
  (pre post : list provenance.Material) (m : provenance.Material) :
  provenance.Materials stmt = (pre ++ m :: post)%list ->
  Forall (fun m => isGit m = true) pre ->
  isGit m = false ->
  provutil.AssertStatement [provutil.AssertGitMaterialOnly] stmt
  = [provutil.mkViolation (Some provutil.AssertGitMaterialOnly) (Some stmt)
       ("contains non-Git material, e.g. " ++ provenance.URI m)%string].
Proof.
  intros E Hpre Hm. rewrite AssertStatement_flat. cbn [flat_map].
  rewrite app_nil_r. unfold stated.
  cbn [provutil.Run provutil.AssertGitMaterialOnly].
  rewrite E, (gitMaterials_first pre post m Hpre Hm). reflexivity.
Qed.

Lemma AssertStatement_tags_witness :
  exists as_ run v0,
    In as_ [provutil.AssertGitMaterialOnly]
    /\ provutil.Run as_ = Some run /\ In v0 (run stmtOld)
    /\ provutil.mkViolation (Some provutil.AssertGitMaterialOnly) (Some stmtOld)
         "contains non-Git material, e.g. https://example.com/blob.tar.gz"
       = provutil.mkViolation (Some as_) (Some stmtOld) (provutil.Desc v0)
    /\ provutil.String_
         (provutil.mkViolation (Some provutil.AssertGitMaterialOnly)
            (Some stmtOld)
            "contains non-Git material, e.g. https://example.com/blob.tar.gz")
       = Some (provenance.EntryPoint stmtOld ++ " failed " ++ provutil.Name as_
               ++ ": " ++ provutil.Desc v0)%string.
Proof.
  apply (AssertStatement_tags [provutil.AssertGitMaterialOnly] stmtOld).
  left. reflexivity.
Defined.

Lemma AssertBundle_tags_witness :
  exists as_ run v0,
    In as_ [grumpy]
    /\ provutil.RunBundle as_ = Some run
    /\ In v0 (run (provenance.mkEnvelope "{}"))
    /\ provutil.mkViolation (Some grumpy) None "no"
       = provutil.mkViolation (Some as_) (provutil.VStatement v0)
           (provutil.Desc v0)
    /\ (provutil.VStatement v0 = None ->
        provutil.String_ (provutil.mkViolation (Some grumpy) None "no")
        = Some ("failed " ++ provutil.Name as_ ++ ": " ++ provutil.Desc v0)%string).
Proof.
  apply (AssertBundle_tags [grumpy] (provenance.mkEnvelope "{}")).
  left. reflexivity.
Defined.

Lemma AssertBuiltWithBlazedockVersion_other_witness :
  provutil.AssertStatement
    [provutil.AssertBuiltWithBlazedockVersion builderID "1.0"] stmtOld
  = [provutil.mkViolation
       (Some (provutil.AssertBuiltWithBlazedockVersion builderID "1.0"))
       (Some stmtOld)
       ("was built using blazedock version " ++ "0.9")%string].
Proof.
  apply (AssertBuiltWithBlazedockVersion_other builderID "1.0" "0.9" stmtOld).
  - reflexivity.
  - discriminate.
Defined.

Lemma AssertGitMaterialOnly_first_witness :
  provutil.AssertStatement [provutil.AssertGitMaterialOnly] stmtOld
  = [provutil.mkViolation (Some provutil.AssertGitMaterialOnly) (Some stmtOld)
       ("contains non-Git material, e.g. "
        ++ provenance.URI (provenance.mkMaterial "https://example.com/blob.tar.gz"))%string].
Proof.
  apply (AssertGitMaterialOnly_first stmtOld
           [provenance.mkMaterial "git+https://example.com/app.git"]
           [provenance.mkMaterial "file:///tmp/x"]
           (provenance.mkMaterial "https://example.com/blob.tar.gz")).
  - reflexivity.
  - repeat constructor.
  - reflexivity.
Defined.
